(** * Roblox Friends Tracker: a shallow embedding of [run.py]

    The script is a single sequential pass:
    [load_cookie] -> [get_auth_user] -> [fetch_friend_ids] ->
    [fetch_user_details] -> [analyze_changes] -> [save_database].

    Every function of the script is given here as a Rocq function over an
    explicit world (files, console, network oracles).  Colour and style
    escape codes of the console output are left out; everything else in
    a message is kept. *)

From Stdlib Require Import QArith Ascii String.
From stdpp Require Import gmap strings list fin_maps pretty.

Open Scope Z_scope.
Open Scope string_scope.
Open Scope list_scope.

(** ** Configuration (run.py, lines 16-18) *)

Definition BATCH_SIZE : nat := 50.
Definition MAX_RETRIES : nat := 3.
Definition RATE_LIMIT_DELAY : Z := 5.

(** ** JSON values and friend records *)

(** The values the script reads out of a record: [None], a string, a
    boolean or an integer. *)
Inductive value :=
| VNone
| VStr (s : string)
| VBool (b : bool)
| VInt (z : Z).

#[global] Instance value_eq_dec : EqDecision value.
Proof. solve_decision. Defined.

(** Python truthiness, as used by [if v] and [not v]. *)
Definition truthy (v : value) : bool :=
  match v with
  | VNone => false
  | VStr s => negb (String.eqb s "")
  | VBool b => b
  | VInt z => negb (Z.eqb z 0)
  end.

(** [str(v)], as an f-string renders it. *)
Definition str_value (v : value) : string :=
  match v with
  | VNone => "None"
  | VStr s => s
  | VBool true => "True"
  | VBool false => "False"
  | VInt z => pretty z
  end.

(** A friend record is a Python dict that always has the key ['id'] (an
    integer) and any number of further keys. *)
Record entry := Entry {
  id : Z;
  extra : gmap string value
}.

#[global] Instance entry_eq_dec : EqDecision entry.
Proof. solve_decision. Defined.

(** [f.get(k)]: [None] when the key is absent. *)
Definition get (k : string) (f : entry) : value :=
  if String.eqb k "id" then VInt (id f)
  else default VNone (extra f !! k).

(** [f.get(k, d)]: the default only replaces an absent key. *)
Definition get_default (k : string) (d : value) (f : entry) : value :=
  if String.eqb k "id" then VInt (id f)
  else default d (extra f !! k).

(** [f.keys()], as a set. *)
Definition keys (f : entry) : gset string := {["id"]} ∪ dom (extra f).

(** [f.update({'name': .., 'displayName': .., 'hasVerifiedBadge': ..})]
    with the three values read from [src] by [.get]. *)
Definition update_from (src f : entry) : entry :=
  Entry (id f)
    (<["hasVerifiedBadge" := get "hasVerifiedBadge" src]>
       (<["displayName" := get "displayName" src]>
          (<["name" := get "name" src]> (extra f)))).

(** [{u['id']: u for u in l}]: a later record with the same id replaces an
    earlier one. *)
Definition index_by_id (l : list entry) : gmap Z entry :=
  foldl (fun m u => <[id u := u]> m) ∅ l.

(** [sum(1 for f in l if not f.get('name'))] *)
Definition count_nameless (l : list entry) : nat :=
  length (filter (fun f => truthy (get "name" f) = false) l).

(** [count / len(l)], the true quotient.  Python computes it in binary
    floating point; the comparisons against [0.5] and [0.2] below agree
    with the exact ones for every list shorter than 2^50 records. *)
Definition nameless_fraction (l : list entry) : Q :=
  inject_Z (Z.of_nat (count_nameless l)) / inject_Z (Z.of_nat (length l)).

Definition Qgtb (x y : Q) : bool := negb (Qle_bool x y).

(** ** The world the script runs in *)

(** Levels passed to [log]. *)
Inductive level := INFO | WARN | ERROR | SKIP | PROTECTION | EXIT | STOP.

#[global] Instance level_eq_dec : EqDecision level.
Proof. solve_decision. Defined.

(** The places where the script meets an error: an [except] clause is
    entered, or a response carries a status other than 200. *)
Inductive error :=
| CookieReadError        (* line 37 *)
| CookieSaveError        (* line 58 *)
| HistoryReadError       (* line 77 *)
| AuthStatusError        (* line 90 *)
| AuthConnectionError    (* line 92 *)
| FriendsRateLimit       (* line 121 *)
| FriendsStatusError     (* line 125 *)
| FriendsConnectionError (* line 129 *)
| DetailRateLimit        (* line 163 *)
| DetailStatusError      (* line 167 *)
| DetailConnectionError  (* line 169 *)
| SnapshotReadError      (* line 219 *)
| LogAppendError         (* line 260 *)
| JsonWriteError         (* line 275 *)
| CsvWriteError.         (* line 284 *)

#[global] Instance error_eq_dec : EqDecision error.
Proof. solve_decision. Defined.

Inductive request :=
| GetAuth
| GetFriends (user_id : Z) (cursor : option string)
| PostDetails (batch : list Z).

#[global] Instance request_eq_dec : EqDecision request.
Proof. solve_decision. Defined.

(** What the run does that can be seen from outside, in order.  [Caught]
    is a marker, not an output: it records that the script has just met
    the given error. *)
Inductive event :=
| Log (lv : level) (msg : string)
| Print (s : string)
| Prompt (s : string)
| Sleep (secs : Z)
| Send (r : request)
| Caught (k : error).

#[global] Instance event_eq_dec : EqDecision event.
Proof. solve_decision. Defined.

(** A file that exists: reading it fails with an exception text (the
    file cannot be opened, or its bytes are not the encoding of a text), or
    gives its content. *)
Inductive stored (A : Type) :=
| Unreadable (e : string)
| Holds (a : A).
Arguments Unreadable {A} e.
Arguments Holds {A} a.

(** The tabular export: the header row and the rows written under it. *)
Record csv := Csv {
  fieldnames : gset string;
  rows : list entry
}.

(** What [input()] meets: a line of text (kept, as every text here, as
    its UTF-8 encoding), Ctrl-C, or the end of the input. *)
Inductive input_event :=
| Line (s : string)
| Interrupt
| Eof.

(** Files are kept per account name, as the script names them
    [<username>_friends.json], [<username>_friends.csv] and
    [<username>_activity_log.txt]. *)
Record world := World {
  cookie_file : option (stored string);
  snapshots : gmap string (stored (list entry));
  exports : gmap string csv;
  logs : gmap string (list string);
  console : list event;
  stdin : list input_event;
  gets : nat;
  posts : nat
}.

Definition set_cookie_file (c : option (stored string)) (w : world) : world :=
  World c (snapshots w) (exports w) (logs w) (console w) (stdin w) (gets w) (posts w).
Definition set_snapshots (s : gmap string (stored (list entry))) (w : world) : world :=
  World (cookie_file w) s (exports w) (logs w) (console w) (stdin w) (gets w) (posts w).
Definition set_exports (x : gmap string csv) (w : world) : world :=
  World (cookie_file w) (snapshots w) x (logs w) (console w) (stdin w) (gets w) (posts w).
Definition set_logs (l : gmap string (list string)) (w : world) : world :=
  World (cookie_file w) (snapshots w) (exports w) l (console w) (stdin w) (gets w) (posts w).
Definition set_console (c : list event) (w : world) : world :=
  World (cookie_file w) (snapshots w) (exports w) (logs w) c (stdin w) (gets w) (posts w).
Definition set_stdin (i : list input_event) (w : world) : world :=
  World (cookie_file w) (snapshots w) (exports w) (logs w) (console w) i (gets w) (posts w).
Definition set_gets (n : nat) (w : world) : world :=
  World (cookie_file w) (snapshots w) (exports w) (logs w) (console w) (stdin w) n (posts w).
Definition set_posts (n : nat) (w : world) : world :=
  World (cookie_file w) (snapshots w) (exports w) (logs w) (console w) (stdin w) (gets w) n.

(** Where a write that fails has failed.  Either [open] itself raises,
    and the file is as it was; or the error comes after [open] has
    succeeded, and the file holds [remains]: in mode ['w'] the old content
    is gone and [remains] is what reached the file in its place, in mode
    ['a'] [remains] is what was added to the old content. *)
Inductive failed_write (A : Type) :=
| NotOpened
| Opened (remains : A).
Arguments NotOpened {A}.
Arguments Opened {A} remains.

(** Responses of the three endpoints. *)
Inductive auth_response :=
| AuthConnError (e : string)
| AuthReply (code : Z) (user_id : Z) (user_name : string).

Record page := Page {
  PageItems : option (list entry);
  data : option (list entry);
  NextCursor : option string
}.

Inductive page_response :=
| PageConnError
| PageReply (code : Z) (body : page).

Inductive detail_response :=
| DetailConnError
| DetailReply (code : Z) (body : list entry).

(** What the run cannot decide by itself: the path of the cookie file, the
    clock, the answers of the network (the n-th friend-list request gets
    [friends_response n], the n-th detail request
    [detail_response_of n]),
    which writes fail and where they fail, and the order in which a
    Python [set] of integers is iterated. *)
Record env := Env {
  COOKIE_FILE : string;
  now : string;
  auth_reply : auth_response;
  friends_response : nat -> page_response;
  detail_response_of : nat -> detail_response;
  cookie_save_error : option string;
  log_append_error : option string;
  json_write_fails : bool;
  csv_write_fails : bool;
  cookie_save_failure : failed_write (stored string);
  log_append_failure : failed_write (list string);
  json_write_failure : failed_write (stored (list entry));
  csv_write_failure : failed_write csv;
  set_iter : gset Z -> list Z
}.

(** ** The monad of the script: world passing, exceptions, fuel *)

Inductive exn :=
| SystemExit (code : Z)
| KeyboardInterrupt
| EOFError
| ValueError.

Inductive result (A : Type) :=
| Ret (a : A)
| Raise (x : exn)
| Timeout.
Arguments Ret {A} a.
Arguments Raise {A} x.
Arguments Timeout {A}.

Definition M (A : Type) : Type := world -> result A * world.

Definition ret {A} (a : A) : M A := fun w => (Ret a, w).

Definition bind {A B} (m : M A) (k : A -> M B) : M B :=
  fun w =>
    match m w with
    | (Ret a, w') => k a w'
    | (Raise x, w') => (Raise x, w')
    | (Timeout, w') => (Timeout, w')
    end.

Declare Scope script_scope.
Delimit Scope script_scope with script.
Notation "'let*' x ':=' m 'in' k" := (bind m (fun x => k))
  (at level 10, x name, m at level 100, k at level 200) : script_scope.
Notation "m '>>' k" := (bind m (fun _ => k))
  (at level 100, k at level 200, right associativity) : script_scope.
Open Scope script_scope.

Definition raise {A} (x : exn) : M A := fun w => (Raise x, w).

(** [try: m except <handled>: h] *)
Definition try_except {A} (m : M A) (handled : exn -> bool) (h : M A) : M A :=
  fun w =>
    match m w with
    | (Raise x, w') => if handled x then h w' else (Raise x, w')
    | r => r
    end.

Definition emit (ev : event) : M unit :=
  fun w => (Ret tt, set_console (console w ++ [ev]) w).

Definition log (lv : level) (msg : string) : M unit := emit (Log lv msg).
Definition print (s : string) : M unit := emit (Print s).
Definition sleep (secs : Z) : M unit := emit (Sleep secs).
Definition caught (k : error) : M unit := emit (Caught k).

(** [input(prompt)] *)
Definition input (prompt : string) : M string :=
  emit (Prompt prompt) >>
  fun w =>
    match stdin w with
    | Line s :: rest => (Ret s, set_stdin rest w)
    | Interrupt :: rest => (Raise KeyboardInterrupt, set_stdin rest w)
    | Eof :: rest => (Raise EOFError, set_stdin rest w)
    | [] => (Raise EOFError, w)
    end.

Definition NL : string := String (ascii_of_nat 10) EmptyString.

(** ** Strings: [str.strip] and [str.lower]

    A Python [str] is kept as its UTF-8 encoding, byte by byte, as the
    string literals of this file are. *)

Definition bytes (l : list Z) : string :=
  string_of_list_ascii (map (fun b => ascii_of_nat (Z.to_nat b)) l).

(** The characters [str.strip()] removes: the 29 code points for which
    [str.isspace()] holds, each in UTF-8. *)
Definition whitespace : list string :=
  map bytes
    [ [9]; [10]; [11]; [12]; [13];           (* U+0009 .. U+000D *)
      [28]; [29]; [30]; [31]; [32];          (* U+001C .. U+001F, space *)
      [194; 133]; [194; 160];                (* U+0085, U+00A0 *)
      [225; 154; 128];                       (* U+1680 *)
      [226; 128; 128]; [226; 128; 129]; [226; 128; 130]; [226; 128; 131];
      [226; 128; 132]; [226; 128; 133]; [226; 128; 134]; [226; 128; 135];
      [226; 128; 136]; [226; 128; 137]; [226; 128; 138];
                                             (* U+2000 .. U+200A *)
      [226; 128; 168]; [226; 128; 169];      (* U+2028, U+2029 *)
      [226; 128; 175];                       (* U+202F *)
      [226; 129; 159];                       (* U+205F *)
      [227; 128; 128] ].                     (* U+3000 *)

(** What follows [p] in [s], when [s] starts with [p]. *)
Fixpoint strip_prefix (p s : string) : option string :=
  match p, s with
  | EmptyString, _ => Some s
  | String a p', String b s' => if Ascii.eqb a b then strip_prefix p' s' else None
  | String _ _, EmptyString => None
  end.

(** What follows the first character of [s], when that character is one
    of [chars]. *)
Fixpoint drop_char (chars : list string) (s : string) : option string :=
  match chars with
  | [] => None
  | c :: chars' =>
      match strip_prefix c s with
      | Some rest => Some rest
      | None => drop_char chars' s
      end
  end.

(** [s] without its leading characters of [chars]; [n] bounds the number
    of characters removed. *)
Fixpoint lstrip_chars (chars : list string) (n : nat) (s : string) : string :=
  match n with
  | O => s
  | S n' =>
      match drop_char chars s with
      | Some rest => lstrip_chars chars n' rest
      | None => s
      end
  end.

Definition lstrip (s : string) : string :=
  lstrip_chars whitespace (String.length s) s.

Definition rstrip (s : string) : string :=
  String.rev (lstrip_chars (map String.rev whitespace) (String.length s) (String.rev s)).

(** [s.strip()] *)
Definition strip (s : string) : string := rstrip (lstrip s).

Definition lower_ascii (c : ascii) : ascii :=
  let n := nat_of_ascii c in
  if ((65 <=? n) && (n <=? 90))%nat then ascii_of_nat (n + 32) else c.

(** [s.lower()] on the ASCII letters.  The script only compares the
    result with ['y'], and ['Y'] and ['y'] are the only two characters
    that [str.lower()] maps to ['y']: the comparison comes out as in
    Python for every text. *)
Fixpoint lower (s : string) : string :=
  match s with
  | String c s' => String (lower_ascii c) (lower s')
  | EmptyString => EmptyString
  end.

(** [for x in l: s = body(s, x)], threading the loop's variables [s]. *)
Fixpoint for_each {A S : Type} (l : list A) (body : S -> A -> M S) (s : S) : M S :=
  match l with
  | [] => ret s
  | x :: rest => let* s' := body s x in for_each rest body s'
  end.

(** [range(0, n, step)] *)
Definition range_step (n step : nat) : list nat :=
  map (fun k => (k * step)%nat) (seq 0 ((n + step - 1) / step)).

#[global] Instance entry_inhabited : Inhabited entry := populate (Entry 0 ∅).

(** [csv.DictWriter.writerows]: rows are written one by one; a row with a
    key outside the header raises [ValueError] and ends the writing.  The
    boolean tells whether every row was written. *)
Fixpoint writerows (header : gset string) (l : list entry) : list entry * bool :=
  match l with
  | [] => ([], true)
  | r :: rest =>
      if decide (keys r ⊆ header)
      then let '(written, ok) := writerows header rest in (r :: written, ok)
      else ([], false)
  end.

(** [data.get('PageItems', []) or data.get('data', [])] *)
Definition items_of (body : page) : list entry :=
  match PageItems body with
  | Some (x :: l) => x :: l
  | _ => default [] (data body)
  end.

(** Truthiness of a cursor: absent and empty both end the pagination. *)
Definition cursor_truthy (c : option string) : bool :=
  match c with
  | Some s => negb (String.eqb s "")
  | None => false
  end.

(** ** The script *)

Section Program.

Variable e : env.

(** [get_headers] (lines 63-68) *)
Definition get_headers (cookie : string) : list (string * string) :=
  [("Cookie", ".ROBLOSECURITY=" +:+ cookie);
   ("User-Agent", "Roblox/WinInet");
   ("Content-Type", "application/json")].

(** [load_cookie], lines 32-38: the cookie file, when it exists. *)
Definition read_cookie_file : M (option string) :=
  fun w =>
    match cookie_file w with
    | None => (Ret None, w)
    | Some (Holds text) =>
        let content := strip text in
        if String.eqb content "" then (Ret None, w) else (Ret (Some content), w)
    | Some (Unreadable err) =>
        (caught CookieReadError >>
         log ERROR ("Read error on '" +:+ COOKIE_FILE e +:+ "': " +:+ err) >>
         ret None) w
    end.

(** [load_cookie], lines 54-59: the offered write-back.  The file is
    opened in mode ['w']. *)
Definition save_cookie_file (cookie : string) : M unit :=
  match cookie_save_error e with
  | None =>
      (fun w => (Ret tt, set_cookie_file (Some (Holds cookie)) w)) >>
      log INFO ("Saved to '" +:+ COOKIE_FILE e +:+ "'.")
  | Some err =>
      match cookie_save_failure e with
      | NotOpened => ret tt
      | Opened remains => fun w => (Ret tt, set_cookie_file (Some remains) w)
      end >>
      caught CookieSaveError >>
      log ERROR ("Save failed: " +:+ err)
  end.

Definition is_KeyboardInterrupt (x : exn) : bool :=
  match x with KeyboardInterrupt => true | _ => false end.

(** [load_cookie] (lines 28-61) *)
Definition load_cookie : M (option string) :=
  let* from_file := read_cookie_file in
  match from_file with
  | Some content => ret (Some content)
  | None =>
      log WARN ("'" +:+ COOKIE_FILE e +:+ "' not found or empty.") >>
      print "Paste .ROBLOSECURITY cookie below:" >>
      let* typed :=
        try_except
          (let* line := input "> " in ret (Some (strip line)))
          is_KeyboardInterrupt
          (print "" >> ret None) in
      match typed with
      | None => ret None
      | Some cookie =>
          if String.eqb cookie "" then ret None
          else
            let* answer := input ("Save to '" +:+ COOKIE_FILE e +:+ "'? (y/n) > ") in
            (if String.eqb (lower (strip answer)) "y"
             then save_cookie_file cookie
             else ret tt) >>
            ret (Some cookie)
      end
  end.

(** [load_local_history] (lines 70-79) *)
Definition load_local_history (username : string) : M (list entry) :=
  fun w =>
    match snapshots w !! username with
    | Some (Holds l) => (Ret l, w)
    | Some (Unreadable _) => (caught HistoryReadError >> ret []) w
    | None => (Ret [], w)
    end.

(** [get_auth_user] (lines 81-94).  [None] stands for the pair
    [(None, None)]. *)
Definition get_auth_user (cookie : string) : M (option (Z * string)) :=
  emit (Send GetAuth) >>
  match auth_reply e with
  | AuthReply code uid name =>
      if Z.eqb code 200 then
        log INFO ("User: " +:+ name +:+ " (ID: " +:+ pretty uid +:+ ")") >>
        ret (Some (uid, name))
      else
        caught AuthStatusError >>
        log ERROR ("Auth failed. Code: " +:+ pretty code) >>
        ret None
  | AuthConnError err =>
      caught AuthConnectionError >>
      log ERROR ("Connection error: " +:+ err) >>
      ret None
  end.

(** [requests.get(url, headers=..., params=params)] of line 110: the
    [cursor] parameter is sent only when the cursor is truthy. *)
Definition get_friends_page (user_id : Z) (cursor : option string) : M page_response :=
  emit (Send (GetFriends user_id (if cursor_truthy cursor then cursor else None))) >>
  fun w => (Ret (friends_response e (gets w)), set_gets (S (gets w)) w).

(** The [while True] loop of [fetch_friend_ids] (lines 104-131); one unit
    of fuel per request. *)
Fixpoint fetch_loop (fuel : nat) (user_id : Z) (cursor : option string)
    (all_friends : list entry) : M (list entry) :=
  match fuel with
  | O => fun w => (Timeout, w)
  | S fuel' =>
      let* resp := get_friends_page user_id cursor in
      match resp with
      | PageReply code body =>
          if Z.eqb code 200 then
            let all_friends' := all_friends ++ items_of body in
            let cursor' := NextCursor body in
            if cursor_truthy cursor' then fetch_loop fuel' user_id cursor' all_friends'
            else ret all_friends'
          else if Z.eqb code 429 then
            caught FriendsRateLimit >>
            log WARN "Rate limit (429). Retrying..." >>
            sleep RATE_LIMIT_DELAY >>
            fetch_loop fuel' user_id cursor all_friends
          else
            caught FriendsStatusError >>
            log ERROR ("Error fetching list: " +:+ pretty code) >>
            ret all_friends
      | PageConnError =>
          caught FriendsConnectionError >>
          log ERROR "Network error while fetching friends." >>
          ret all_friends
      end
  end.

(** [fetch_friend_ids] (lines 96-134).  The declared result is
    [Optional[List[Dict]]]; the only [return] gives the list. *)
Definition fetch_friend_ids (fuel : nat) (user_id : Z) (cookie : string)
    : M (option (list entry)) :=
  log INFO "Fetching friend list..." >>
  let* all_friends := fetch_loop fuel user_id None [] in
  log INFO ("Found " +:+ pretty (length all_friends) +:+ " connections.") >>
  ret (Some all_friends).

(** [requests.post(url, json=payload, ...)] of line 158 *)
Definition post_details (batch : list Z) : M detail_response :=
  emit (Send (PostDetails batch)) >>
  fun w => (Ret (detail_response_of e (posts w)), set_posts (S (posts w)) w).

(** [for u in resp.json().get('data', []): fetched_map[u['id']] = u] *)
Definition store_details (fetched_map : gmap Z entry) (body : list entry) : gmap Z entry :=
  foldl (fun m u => <[id u := u]> m) fetched_map body.

(** The [for attempt in range(MAX_RETRIES)] loop (lines 156-170) over the
    attempt indices still to run. *)
Fixpoint attempt_loop (i : nat) (batch : list Z) (attempts : list nat)
    (fetched_map : gmap Z entry) : M (gmap Z entry) :=
  match attempts with
  | [] => ret fetched_map
  | attempt :: rest =>
      let* resp := post_details batch in
      match resp with
      | DetailReply code body =>
          if Z.eqb code 200 then ret (store_details fetched_map body)
          else if Z.eqb code 429 then
            let wait := (Z.of_nat attempt + 1) * RATE_LIMIT_DELAY in
            caught DetailRateLimit >>
            log WARN ("Rate limit on batch " +:+ pretty i +:+ ". Retrying in "
                      +:+ pretty wait +:+ "s...") >>
            sleep wait >>
            attempt_loop i batch rest fetched_map
          else
            caught DetailStatusError >>
            ret fetched_map
      | DetailConnError =>
          caught DetailConnectionError >>
          sleep 1 >>
          attempt_loop i batch rest fetched_map
      end
  end.

(** The batch loop (lines 152-170) *)
Definition batch_loop (user_ids : list Z) : M (gmap Z entry) :=
  for_each (range_step (length user_ids) BATCH_SIZE)
    (fun fetched_map i =>
       let batch := take BATCH_SIZE (drop i user_ids) in
       attempt_loop i batch (seq 0 MAX_RETRIES) fetched_map)
    ∅.

(** One round of the merge loop (lines 176-196).  [api_data] and
    [local_entry] are records with an ['id'], hence truthy when present. *)
Definition merge_step (fetched_map local_data : gmap Z entry)
    (acc : list entry * nat) (f : entry) : list entry * nat :=
  let '(final_list, recovered) := acc in
  let fid := id f in
  match fetched_map !! fid with
  | Some api_data => (final_list ++ [update_from api_data f], recovered)
  | None =>
      match local_data !! fid with
      | Some local_entry =>
          if truthy (get "name" local_entry)
          then (final_list ++ [update_from local_entry f], S recovered)
          else (final_list ++ [f], recovered)
      | None => (final_list ++ [f], recovered)
      end
  end.

Definition merge (fetched_map local_data : gmap Z entry) (friends : list entry)
    : list entry * nat :=
  foldl (merge_step fetched_map local_data) ([], O) friends.

(** [fetch_user_details] (lines 136-201) *)
Definition fetch_user_details (friends : list entry) (cookie username : string)
    : M (list entry) :=
  match friends with
  | [] => ret []
  | _ =>
      log INFO "Fetching user details..." >>
      let* history := load_local_history username in
      let local_data := index_by_id history in
      let user_ids := map id friends in
      let* fetched_map := batch_loop user_ids in
      let '(final_list, recovered) := merge fetched_map local_data friends in
      (if (0 <? recovered)%nat
       then log WARN ("Recovered " +:+ pretty recovered +:+ " names from local history.")
       else ret tt) >>
      ret final_list
  end.

(** The log line of a lost friend (line 245) and of a new one (line 252) *)
Definition unfriended_line (timestamp : string) (u : entry) (uid : Z) : string :=
  "[" +:+ timestamp +:+ "] ❌ UNFRIENDED: " +:+ str_value (get "name" u)
  +:+ " (ID: " +:+ pretty uid +:+ ")" +:+ NL.

Definition new_friend_line (timestamp : string) (u : entry) (uid : Z) : string :=
  "[" +:+ timestamp +:+ "] ✅ NEW FRIEND: " +:+ str_value (get "name" u)
  +:+ " (ID: " +:+ pretty uid +:+ ")" +:+ NL.

(** The console line of a reported friend (lines 244 and 251) *)
Definition report_line (sign : string) (u : entry) : string :=
  "   " +:+ sign +:+ " " +:+ str_value (get_default "name" (VStr "Unknown") u)
  +:+ " (@" +:+ str_value (get_default "displayName" (VStr "-") u) +:+ ")".

(** [with open(log_file, "a") as f: f.writelines(logs)] (lines 256-261).
    A failure after [open] leaves in the file whatever part of the lines
    had reached it. *)
Definition append_log (username : string) (lines : list string) : M unit :=
  match log_append_error e with
  | None =>
      (fun w =>
         (Ret tt,
          set_logs (<[username := default [] (logs w !! username) ++ lines]> (logs w)) w)) >>
      log INFO "Activity log updated."
  | Some err =>
      match log_append_failure e with
      | NotOpened => ret tt
      | Opened remains =>
          fun w =>
            (Ret tt,
             set_logs (<[username := default [] (logs w !! username) ++ remains]> (logs w)) w)
      end >>
      caught LogAppendError >>
      log ERROR ("Log write failed: " +:+ err)
  end.

(** [analyze_changes], lines 222-261: the comparison with the snapshot
    that was read. *)
Definition report_changes (old_list current_list : list entry) (username : string)
    : M unit :=
  let old_map := index_by_id old_list in
  let cur_map := index_by_id current_list in
  let old_ids : gset Z := dom old_map in
  let cur_ids : gset Z := dom cur_map in
  let unfriended := old_ids ∖ cur_ids in
  let new_friends := cur_ids ∖ old_ids in
  if decide (unfriended = ∅ ∧ new_friends = ∅) then
    log INFO "No changes detected."
  else
    let timestamp := now e in
    print (NL +:+ "--- ACTIVITY REPORT ---") >>
    let* logs1 :=
      (if decide (unfriended = ∅) then ret []
       else
         print ("❌ LOST (" +:+ pretty (size unfriended) +:+ "):") >>
         for_each (set_iter e unfriended)
           (fun logs uid =>
              let u := old_map !!! uid in
              print (report_line "-" u) >>
              ret (logs ++ [unfriended_line timestamp u uid]))
           []) in
    let* logs2 :=
      (if decide (new_friends = ∅) then ret logs1
       else
         print ("✅ NEW (" +:+ pretty (size new_friends) +:+ "):") >>
         for_each (set_iter e new_friends)
           (fun logs uid =>
              let u := cur_map !!! uid in
              print (report_line "+" u) >>
              ret (logs ++ [new_friend_line timestamp u uid]))
           logs1) in
    print ("-----------------------" +:+ NL) >>
    append_log username logs2.

(** [analyze_changes], lines 214-261: what follows the sanity check. *)
Definition compare_with_snapshot (current_list : list entry) (username : string)
    : M unit :=
  fun w =>
    match snapshots w !! username with
    | None => (Ret tt, w)
    | Some (Unreadable _) => caught SnapshotReadError w
    | Some (Holds old_list) => report_changes old_list current_list username w
    end.

(** [analyze_changes] (lines 203-261) *)
Definition analyze_changes (current_list : list entry) (username : string) : M unit :=
  if (0 <? length current_list)%nat && Qgtb (nameless_fraction current_list) (5 # 10) then
    log SKIP "Too many missing names. Skipping analysis."
  else
    compare_with_snapshot current_list username.

(** [json.dump(friends, f)] into the snapshot file (lines 272-276).  The
    file is opened in mode ['w']: an [IOError] raised after [open] finds
    the old snapshot gone. *)
Definition write_json (friends : list entry) (username : string) : M unit :=
  if json_write_fails e then
    match json_write_failure e with
    | NotOpened => ret tt
    | Opened remains =>
        fun w => (Ret tt, set_snapshots (<[username := remains]> (snapshots w)) w)
    end >>
    caught JsonWriteError >>
    log ERROR "Failed to save JSON."
  else
    fun w => (Ret tt, set_snapshots (<[username := Holds friends]> (snapshots w)) w).

(** The tabular export (lines 278-285).  The file is opened in mode
    ['w']: an [IOError] raised after [open] finds the old export gone.
    [IOError] is caught; the [ValueError] of [DictWriter] is not, and
    leaves the rows written so far in the file. *)
Definition write_csv (friends : list entry) (username : string) : M unit :=
  if csv_write_fails e then
    match csv_write_failure e with
    | NotOpened => ret tt
    | Opened remains =>
        fun w => (Ret tt, set_exports (<[username := remains]> (exports w)) w)
    end >>
    caught CsvWriteError >>
    log ERROR "Failed to save CSV."
  else
    let header := keys (friends !!! O) in
    let '(written, ok) := writerows header friends in
    (fun w => (Ret tt, set_exports (<[username := Csv header written]> (exports w)) w)) >>
    if ok then log INFO "Database updated." else raise ValueError.

(** [save_database] (lines 263-285) *)
Definition save_database (friends : list entry) (username : string) : M unit :=
  match friends with
  | [] => ret tt
  | _ =>
      if (0 <? length friends)%nat && Qgtb (nameless_fraction friends) (2 # 10) then
        log PROTECTION "Data corruption detected (names missing). Aborting save."
      else
        write_json friends username >>
        write_csv friends username
  end.

(** The main block (lines 289-307) *)
Definition main (fuel : nat) : M unit :=
  print "Roblox Friends Tracker | https://github.com/deogw " >>
  let* cookie := load_cookie in
  match cookie with
  | None => log EXIT "Process terminated." >> raise (SystemExit 1)
  | Some cookie =>
      if String.eqb cookie "" then log EXIT "Process terminated." >> raise (SystemExit 1)
      else
        let* auth := get_auth_user cookie in
        match auth with
        | None => raise (SystemExit 1)
        | Some (uid, username) =>
            if Z.eqb uid 0 then raise (SystemExit 1)
            else
              let* raw_friends := fetch_friend_ids fuel uid cookie in
              match raw_friends with
              | None => log STOP "API Error. Halting." >> raise (SystemExit 1)
              | Some raw_friends =>
                  let* data := fetch_user_details raw_friends cookie username in
                  analyze_changes data username >>
                  save_database data username
              end
        end
  end.

End Program.

(** The exit code of a finished run: 0 when the script runs to its end,
    the argument of [sys.exit] otherwise. *)
Definition exit_code {A} (r : result A) : option Z :=
  match r with
  | Ret _ => Some 0
  | Raise (SystemExit code) => Some code
  | _ => None
  end.

(** ** Observing a run *)

(** The requests of a trace, in order. *)
Definition requests (tr : list event) : list request :=
  omap (fun ev => match ev with Send r => Some r | _ => None end) tr.

(** The console lines that are part of an activity report. *)
Definition prints (tr : list event) : list string :=
  omap (fun ev => match ev with Print s => Some s | _ => None end) tr.

(** A response after which the pagination loop stops: a connection error,
    a status other than 200 and 429, or a page without a next cursor. *)
Definition is_terminal (r : page_response) : bool :=
  match r with
  | PageConnError => true
  | PageReply code body =>
      if Z.eqb code 200 then negb (cursor_truthy (NextCursor body))
      else negb (Z.eqb code 429)
  end.

Definition is_429 (r : page_response) : bool :=
  match r with
  | PageReply code _ => Z.eqb code 429
  | PageConnError => false
  end.

(** The request the pagination loop sends when its cursor is [c]. *)
Definition sent (uid : Z) (c : option string) : event :=
  Send (GetFriends uid (if cursor_truthy c then c else None)).

(** The world after one more friend-list request and the events around
    it. *)
Definition after (evs : list event) (w : world) : world :=
  set_gets (S (gets w)) (set_console (console w ++ evs) w).

(** The events of one rate-limited round of the pagination loop. *)
Definition rate_limited_round (uid : Z) (c : option string) : list event :=
  [sent uid c; Caught FriendsRateLimit;
   Log WARN "Rate limit (429). Retrying..."; Sleep RATE_LIMIT_DELAY].

(** The batches the detail loop posts: [user_ids[i:i + BATCH_SIZE]] for
    [i] in [range(0, len(user_ids), BATCH_SIZE)]. *)
Definition batches_of (user_ids : list Z) : list (list Z) :=
  map (fun i => take BATCH_SIZE (drop i user_ids))
      (range_step (length user_ids) BATCH_SIZE).

(** The world after one more detail request and the events around it. *)
Definition after_post (evs : list event) (w : world) : world :=
  set_posts (S (posts w)) (set_console (console w ++ evs) w).

(** The events of one rate-limited attempt on the batch at offset [i]. *)
Definition rate_limited_attempt (i : nat) (batch : list Z) (attempt : nat) : list event :=
  [Send (PostDetails batch); Caught DetailRateLimit;
   Log WARN ("Rate limit on batch " +:+ pretty i +:+ ". Retrying in "
             +:+ pretty ((Z.of_nat attempt + 1) * RATE_LIMIT_DELAY) +:+ "s...");
   Sleep ((Z.of_nat attempt + 1) * RATE_LIMIT_DELAY)].

(** The waits of a trace, in order. *)
Definition sleeps (tr : list event) : list Z :=
  omap (fun ev => match ev with Sleep s => Some s | _ => None end) tr.

(** The merge read record by record: the final record of an entry, and
    whether the entry counts as recovered. *)
Definition merged_entry (fetched_map local_data : gmap Z entry) (f : entry) : entry :=
  match fetched_map !! id f, local_data !! id f with
  | Some api_data, _ => update_from api_data f
  | None, Some local_entry =>
      if truthy (get "name" local_entry) then update_from local_entry f else f
  | None, None => f
  end.

Definition is_recovered (fetched_map local_data : gmap Z entry) (f : entry) : bool :=
  match fetched_map !! id f, local_data !! id f with
  | None, Some local_entry => truthy (get "name" local_entry)
  | _, _ => false
  end.

(** The snapshot [load_local_history] returns in a world. *)
Definition history (username : string) (w : world) : list entry :=
  match snapshots w !! username with
  | Some (Holds l) => l
  | _ => []
  end.

(** The world after some more console events. *)
Definition emitted (evs : list event) (w : world) : world :=
  set_console (console w ++ evs) w.

(** The identifiers the analyzer reports as lost and as new. *)
Definition removed_ids (old_list current_list : list entry) : gset Z :=
  dom (index_by_id old_list) ∖ dom (index_by_id current_list).

Definition added_ids (old_list current_list : list entry) : gset Z :=
  dom (index_by_id current_list) ∖ dom (index_by_id old_list).

(** The lines the analyzer hands to the activity log: one per lost
    friend, then one per new friend. *)
Definition change_lines (e : env) (old_list current_list : list entry) : list string :=
  map (fun uid => unfriended_line (now e) (index_by_id old_list !!! uid) uid)
      (set_iter e (removed_ids old_list current_list))
  ++ map (fun uid => new_friend_line (now e) (index_by_id current_list !!! uid) uid)
         (set_iter e (added_ids old_list current_list)).

(** The console lines of an activity report (lines 238-254). *)
Definition report_events (e : env) (old_list current_list : list entry) : list event :=
  let unfriended := removed_ids old_list current_list in
  let new_friends := added_ids old_list current_list in
  [Print (NL +:+ "--- ACTIVITY REPORT ---")]
  ++ (if decide (unfriended = ∅) then []
      else Print ("❌ LOST (" +:+ pretty (size unfriended) +:+ "):")
           :: map (fun uid => Print (report_line "-" (index_by_id old_list !!! uid)))
                  (set_iter e unfriended))
  ++ (if decide (new_friends = ∅) then []
      else Print ("✅ NEW (" +:+ pretty (size new_friends) +:+ "):")
           :: map (fun uid => Print (report_line "+" (index_by_id current_list !!! uid)))
                  (set_iter e new_friends))
  ++ [Print ("-----------------------" +:+ NL)].

(** The activity log of an account; a missing file has no lines. *)
Definition log_of (username : string) (w : world) : list string :=
  default [] (logs w !! username).

(** The iteration order of sets is some enumeration of the set. *)
Definition iterates_sets (e : env) : Prop :=
  forall X : gset Z, set_iter e X ≡ₚ elements X.

(** Whether every error met in a trace is followed at once by a log
    line of level ERROR or WARN, the errors in [silent] apart. *)
Definition reports (lv : level) : bool :=
  match lv with
  | ERROR | WARN => true
  | _ => false
  end.

Definition starts_with_log (tr : list event) : bool :=
  match tr with
  | Log lv _ :: _ => reports lv
  | _ => false
  end.

Fixpoint errors_logged (silent : error -> bool) (tr : list event) : bool :=
  match tr with
  | [] => true
  | Caught k :: rest => (silent k || starts_with_log rest) && errors_logged silent rest
  | _ :: rest => errors_logged silent rest
  end.

(** The errors the script passes over without a word: the two reads of
    the snapshot ([except: pass], [except: return]) and the failures of a
    detail batch. *)
Definition silent_by_design (k : error) : bool :=
  match k with
  | HistoryReadError | SnapshotReadError
  | DetailStatusError | DetailConnectionError => true
  | _ => false
  end.

(** A computation that only adds to the console, and whose additions have
    every error logged. *)
Definition tidy {A} (silent : error -> bool) (m : M A) : Prop :=
  forall w r w',
    m w = (r, w') ->
    exists evs, console w' = console w ++ evs /\ errors_logged silent evs = true.

(** A computation that always finishes, and raises only exceptions in
    [P]. *)
Definition raises_only {A} (P : exn -> Prop) (m : M A) : Prop :=
  forall w r w',
    m w = (r, w') ->
    match r with
    | Ret _ => True
    | Raise x => P x
    | Timeout => False
    end.

(** The stages that follow the friend-list fetch (lines 305-307). *)
Definition after_fetch (e : env) (raw_friends : list entry) (cookie username : string)
    : M unit :=
  let* data := fetch_user_details e raw_friends cookie username in
  analyze_changes e data username >>
  save_database e data username.

(** ** A few runs *)

Definition mk (i : Z) (n : string) : entry :=
  Entry i (<["name" := VStr n]> ∅).
Definition bare (i : Z) : entry := Entry i ∅.

Definition empty_world : world :=
  World None ∅ ∅ ∅ [] [] O O.

(** The quiet network, except that every friend-list request is answered
    by [r]. *)
Definition env_answering (r : page_response) : env :=
  Env "cookie.txt" "2024-01-01 00:00:00"
      (AuthReply 200 7 "alice")
      (fun _ => r)
      (fun _ => DetailReply 200 [])
      None None false false
      NotOpened NotOpened NotOpened NotOpened
      elements.

(** One friend on a single page, whose detail is found. *)
Definition one_friend_env : env :=
  Env "cookie.txt" "2024-01-01 00:00:00"
      (AuthReply 200 7 "alice")
      (fun _ => PageReply 200 (Page (Some [bare 1]) None None))
      (fun _ => DetailReply 200 [mk 1 "a"])
      None None false false
      NotOpened NotOpened NotOpened NotOpened
      elements.

(** Three pages with cursors ["A"], ["B"] and none; the second page comes
    after one 429. *)
Definition three_pages_env : env :=
  Env "cookie.txt" "2024-01-01 00:00:00"
      (AuthReply 200 7 "alice")
      (fun n =>
         match n with
         | 0%nat => PageReply 200 (Page (Some [bare 1; bare 2]) None (Some "A"))
         | 1%nat => PageReply 429 (Page None None None)
         | 2%nat => PageReply 200 (Page None (Some [bare 3]) (Some "B"))
         | _ => PageReply 200 (Page (Some [bare 4]) None None)
         end)
      (fun _ => DetailReply 200 [])
      None None false false
      NotOpened NotOpened NotOpened NotOpened
      elements.

(** The detail endpoint answers 429 twice, then finds friend 3. *)
Definition rate_limited_env : env :=
  Env "cookie.txt" "2024-01-01 00:00:00"
      (AuthReply 200 7 "alice")
      (fun _ => PageReply 200 (Page None None None))
      (fun n => if (n <? 2)%nat then DetailReply 429 [] else DetailReply 200 [mk 3 "cc"])
      None None false false
      NotOpened NotOpened NotOpened NotOpened
      elements.

(** A world whose snapshot for ["alice"] cannot be read. *)
Definition world_unreadable : world :=
  World (Some (Holds "token")) (<["alice" := Unreadable "Expecting value"]> ∅)
        ∅ ∅ [] [] O O.



(** A world with a cookie on file and a snapshot for ["alice"]. *)
Definition world_with (old_list : list entry) : world :=
  World (Some (Holds "token")) (<["alice" := Holds old_list]> ∅) ∅ ∅ [] [] O O.

(** One record in five without a name; one in two without a name. *)
Definition one_in_five : list entry :=
  [mk 1 "a"; mk 2 "b"; mk 3 "c"; mk 4 "d"; bare 5].
Definition one_in_two : list entry := [mk 1 "a"; bare 2].

Definition quiet_env : env :=
  Env "cookie.txt" "2024-01-01 00:00:00"
      (AuthReply 200 7 "alice")
      (fun _ => PageReply 200 (Page None None None))
      (fun _ => DetailReply 200 [])
      None None false false
      NotOpened NotOpened NotOpened NotOpened
      elements.

(** Both writes of the store fail after their files were opened: the
    snapshot is left without a parsable content and the export empty. *)
Definition disk_full_env : env :=
  Env "cookie.txt" "2024-01-01 00:00:00"
      (AuthReply 200 7 "alice")
      (fun _ => PageReply 200 (Page None None None))
      (fun _ => DetailReply 200 [])
      None None true true
      NotOpened NotOpened (Opened (Unreadable "Expecting value")) (Opened (Csv ∅ []))
      elements.


(** ** Further observations *)

(** The items a friend-list response adds to the accumulated list: those
    of a page with status 200, nothing for any other answer. *)
Definition items_at (e : env) (i : nat) : list entry :=
  match friends_response e i with
  | PageReply code body => if Z.eqb code 200 then items_of body else []
  | PageConnError => []
  end.

(** Response number [g + n] is the first terminal one from [g] on. *)
Definition first_terminal (e : env) (g n : nat) : Prop :=
  is_terminal (friends_response e (g + n)) = true /\
  forall j, (j < n)%nat -> is_terminal (friends_response e (g + j)) = false.

(** The number of 429 answers among responses [g], ..., [g + n - 1]. *)
Definition count_429 (e : env) (g n : nat) : nat :=
  length (filter (fun i => is_429 (friends_response e i) = true) (seq g n)).

(** A computation whose console events all satisfy [ok]. *)
Definition emits_only {A} (ok : event -> bool) (m : M A) : Prop :=
  forall w r w',
    m w = (r, w') ->
    exists evs, console w' = console w ++ evs /\ forallb ok evs = true.

(** A computation that leaves an observation [f] of the world as it
    is. *)
Definition preserves {A B} (f : world -> B) (m : M A) : Prop :=
  forall w r w', m w = (r, w') -> f w' = f w.

(** The files of all accounts: snapshots, exports and activity logs. *)
Definition disk (w : world) :=
  (snapshots w, exports w, logs w).

(** The first page arrives, with a cursor; every later request is answered
    with status 500. *)
Definition broken_second_page_env : env :=
  Env "cookie.txt" "2024-01-01 00:00:00"
      (AuthReply 200 7 "alice")
      (fun n =>
         match n with
         | O => PageReply 200 (Page (Some [bare 1; bare 2]) None (Some "A"))
         | _ => PageReply 500 (Page None None None)
         end)
      (fun _ => DetailReply 200 [])
      None None false false
      NotOpened NotOpened NotOpened NotOpened
      elements.

(** The events each stage may add to the console. *)
Definition cookie_event (ev : event) : bool :=
  match ev with
  | Log _ _ | Print _ | Prompt _ | Caught _ => true
  | Sleep _ | Send _ => false
  end.

Definition auth_event (ev : event) : bool :=
  match ev with
  | Log _ _ | Caught _ | Send GetAuth => true
  | _ => false
  end.

Definition friend_list_event (uid : Z) (ev : event) : bool :=
  match ev with
  | Log _ _ | Caught _ => true
  | Send (GetFriends u _) => Z.eqb u uid
  | Sleep s => Z.eqb s RATE_LIMIT_DELAY
  | _ => false
  end.

Definition detail_event (ev : event) : bool :=
  match ev with
  | Log _ _ | Caught _ | Sleep _ | Send (PostDetails _) => true
  | _ => false
  end.

Definition report_event (ev : event) : bool :=
  match ev with
  | Log _ _ | Print _ | Caught _ => true
  | _ => false
  end.

Definition store_event (ev : event) : bool :=
  match ev with
  | Log _ _ | Caught _ => true
  | _ => false
  end.

(** A computation whose every run relates the world before to the world
    after by [R]. *)
Definition keeps {A} (R : world -> world -> Prop) (m : M A) : Prop :=
  forall w r w', m w = (r, w') -> R w w'.

(** The activity log of [username] has only grown, and the logs of the
    other accounts are as they were. *)
Definition log_grows (username : string) (w w' : world) : Prop :=
  (exists lines, log_of username w' = log_of username w ++ lines) /\
  forall other, other <> username -> logs w' !! other = logs w !! other.

(** The snapshots and exports of the other accounts are as they were. *)
Definition only_account (username : string) (w w' : world) : Prop :=
  forall other, other <> username ->
    snapshots w' !! other = snapshots w !! other /\
    exports w' !! other = exports w !! other.

(** The three fields the enricher writes. *)
Definition detail_fields : gset string :=
  {["name"; "displayName"; "hasVerifiedBadge"]}.

(** The seconds a trace spends asleep. *)
Definition total_wait (tr : list event) : Z :=
  foldr Z.add 0 (sleeps tr).

(** The longest a batch can make the run wait: a 429 on each of the
    [MAX_RETRIES] attempts. *)
Definition max_batch_wait : Z :=
  foldr Z.add 0 (map (fun a => (Z.of_nat a + 1) * RATE_LIMIT_DELAY) (seq 0 MAX_RETRIES)).

(** A detail response after which the same batch is posted again, if an
    attempt is left: a 429 or a connection error. *)
Definition retryable (r : detail_response) : bool :=
  match r with
  | DetailConnError => true
  | DetailReply code _ => Z.eqb code 429
  end.

(** The sleep that follows a retryable response on attempt [attempt]. *)
Definition wait_after (r : detail_response) (attempt : nat) : Z :=
  match r with
  | DetailConnError => 1
  | DetailReply _ _ => (Z.of_nat attempt + 1) * RATE_LIMIT_DELAY
  end.

(** What a response that ends the attempts leaves in the map. *)
Definition stored_by (r : detail_response) (fetched_map : gmap Z entry) : gmap Z entry :=
  match r with
  | DetailReply code body =>
      if Z.eqb code 200 then store_details fetched_map body else fetched_map
  | DetailConnError => fetched_map
  end.

(** The detail endpoint cannot be reached. *)
Definition unreachable_details_env : env :=
  Env "cookie.txt" "2024-01-01 00:00:00"
      (AuthReply 200 7 "alice")
      (fun _ => PageReply 200 (Page None None None))
      (fun _ => DetailConnError)
      None None false false
      NotOpened NotOpened NotOpened NotOpened
      elements.

(** A list whose first record was not enriched and whose other records
    were: one record of five has no name. *)
Definition first_bare : list entry :=
  [bare 1; mk 2 "b"; mk 3 "c"; mk 4 "d"; mk 5 "e"].

(** A computation whose returned value, when it returns, satisfies [P]. *)
Definition returns_only {A} (P : A -> Prop) (m : M A) : Prop :=
  forall w r w', m w = (r, w') -> forall a, r = Ret a -> P a.

(** A cookie as the script passes it on: absent, or non-empty and without
    white space around it. *)
Definition clean_cookie (c : option string) : Prop :=
  forall s, c = Some s -> s <> "" /\ strip s = s.

(** No cookie on file; the user types a cookie with blanks around it,
    a no-break space (U+00A0) and an em space (U+2003) among them, and
    agrees to save it. *)
Definition typing_world : world :=
  World None ∅ ∅ ∅ []
        [Line (bytes [32; 194; 160] +:+ "abc" +:+ bytes [226; 128; 131; 32]);
         Line (bytes [194; 160] +:+ "Y ")]
        O O.

(** No cookie on file; the user types a no-break space and nothing
    else. *)
Definition blank_typing_world : world :=
  World None ∅ ∅ ∅ [] [Line (bytes [194; 160]); Line "y"] O O.

(** The cookie file holds the cookie between a no-break space and an em
    space followed by a line feed. *)
Definition padded_cookie_world : world :=
  World (Some (Holds (bytes [194; 160] +:+ "abc" +:+ bytes [226; 128; 131; 10])))
        ∅ ∅ ∅ [] [] O O.

(** The account the run works for: the one the identity check names,
    when it answers 200 with a user id that Python takes for true. *)
Definition account (e : env) : option (Z * string) :=
  match auth_reply e with
  | AuthConnError _ => None
  | AuthReply code uid name =>
      if Z.eqb code 200 && negb (Z.eqb uid 0) then Some (uid, name) else None
  end.

Definition is_friend_request (uid : Z) (r : request) : bool :=
  match r with
  | GetFriends u _ => Z.eqb u uid
  | _ => false
  end.

Definition is_detail_request (r : request) : bool :=
  match r with
  | PostDetails _ => true
  | _ => false
  end.

(** The first line the script prints. *)
Definition banner : event :=
  Print "Roblox Friends Tracker | https://github.com/deogw ".

(** No cookie file, and the prompt is interrupted. *)
Definition interrupted_world : world :=
  World None ∅ ∅ ∅ [] [Interrupt] O O.

(** The identity check is refused. *)
Definition refused_env : env :=
  Env "cookie.txt" "2024-01-01 00:00:00"
      (AuthReply 401 0 "")
      (fun _ => PageReply 200 (Page None None None))
      (fun _ => DetailReply 200 [])
      None None false false
      NotOpened NotOpened NotOpened NotOpened
      elements.
(** ** Basic facts *)

Lemma Qgtb_true (x y : Q) : Qgtb x y = true <-> (y < x)%Q.
Proof.
  unfold Qgtb. rewrite negb_true_iff. split.
  - intros H. apply Qnot_le_lt. intros Hle.
    apply Qle_bool_iff in Hle. congruence.
  - intros H. destruct (Qle_bool x y) eqn:E; [|done].
    apply Qle_bool_iff in E. exfalso. eapply Qlt_not_le; eauto.
Qed.

Lemma Qgtb_false (x y : Q) : Qgtb x y = false <-> (x <= y)%Q.
Proof.
  unfold Qgtb. rewrite negb_false_iff. apply Qle_bool_iff.
Qed.

(** The fraction against a threshold [p/q], without division. *)
Lemma nameless_fraction_le (l : list entry) (p q : positive) :
  l <> [] ->
  (nameless_fraction l <= Zpos p # q)%Q <->
  (Z.of_nat (count_nameless l) * Zpos q <= Zpos p * Z.of_nat (length l))%Z.
Proof.
  intros Hl. unfold nameless_fraction.
  assert (0 < Z.of_nat (length l))%Z as Hlen by (destruct l; [done | simpl; lia]).
  set (n := Z.of_nat (length l)) in *. set (k := Z.of_nat (count_nameless l)).
  assert (inject_Z k / inject_Z n == k # Z.to_pos n)%Q as ->.
  { unfold Qdiv, Qinv, inject_Z. simpl. destruct n; try lia. simpl.
    unfold Qmult, Qeq. simpl. lia. }
  unfold Qle. simpl. rewrite Z2Pos.id by lia. lia.
Qed.

Lemma index_by_id_snoc (l : list entry) (u : entry) :
  index_by_id (l ++ [u]) = <[id u := u]> (index_by_id l).
Proof. unfold index_by_id. by rewrite foldl_app. Qed.

(** The keys of the index are the identifiers of the list. *)
Lemma dom_index_by_id (l : list entry) :
  dom (index_by_id l) = (list_to_set (map id l) : gset Z).
Proof.
  induction l as [|u l IH] using rev_ind; [done|].
  rewrite index_by_id_snoc, dom_insert_L, IH, map_app, list_to_set_app_L.
  simpl. rewrite (right_id_L ∅ (∪)). apply (comm_L (∪)).
Qed.

(** In a list without repeated identifiers the index finds each record. *)
Lemma index_by_id_lookup (l : list entry) (u : entry) :
  NoDup (map id l) -> u ∈ l -> index_by_id l !! id u = Some u.
Proof.
  induction l as [|v l IH] using rev_ind; [by intros _ ?%elem_of_nil|].
  rewrite map_app, index_by_id_snoc. simpl.
  intros [Hl [Hv _]]%NoDup_app Hin.
  apply elem_of_app in Hin as [Hin|Hin%list_elem_of_singleton].
  - rewrite lookup_insert_ne; [by apply IH|].
    intros Heq. apply (Hv (id u)); [|rewrite Heq; set_solver].
    apply list_elem_of_fmap. eauto.
  - subst. by rewrite lookup_insert_eq.
Qed.

Lemma index_by_id_Some (l : list entry) (i : Z) (u : entry) :
  index_by_id l !! i = Some u -> id u = i /\ u ∈ l.
Proof.
  induction l as [|v l IH] using rev_ind; [done|].
  rewrite index_by_id_snoc. destruct (decide (id v = i)) as [<-|Hne].
  - rewrite lookup_insert_eq. intros [= <-]. split; [done|].
    apply elem_of_app. right. by apply list_elem_of_singleton.
  - rewrite lookup_insert_ne by done. intros [? ?]%IH. split; [done|].
    apply elem_of_app. by left.
Qed.


(** ** Pagination *)

Ltac unfold_world :=
  unfold set_console, set_gets, set_posts, set_stdin, set_cookie_file,
    set_snapshots, set_exports, set_logs; simpl.

Ltac run_script :=
  unfold bind, caught, log, sleep, print, emit, ret, raise; simpl.

Section Pagination.

Variable e : env.

Lemma fetch_loop_429 fuel uid c acc w :
  is_429 (friends_response e (gets w)) = true ->
  fetch_loop e (S fuel) uid c acc w =
  fetch_loop e fuel uid c acc
    (after [sent uid c; Caught FriendsRateLimit;
            Log WARN "Rate limit (429). Retrying..."; Sleep RATE_LIMIT_DELAY] w).
Proof.
  intros H. simpl. unfold get_friends_page. run_script.
  destruct (friends_response e (gets w)) as [|code body]; [done|].
  simpl in H. apply Z.eqb_eq in H as ->. simpl.
  unfold after, sent. unfold_world. by rewrite <- !app_assoc.
Qed.

Lemma fetch_loop_next fuel uid c acc w body :
  friends_response e (gets w) = PageReply 200 body ->
  cursor_truthy (NextCursor body) = true ->
  fetch_loop e (S fuel) uid c acc w =
  fetch_loop e fuel uid (NextCursor body) (acc ++ items_of body)
    (after [sent uid c] w).
Proof.
  intros H Hc. simpl. unfold get_friends_page. run_script.
  rewrite H. simpl. by rewrite Hc.
Qed.

Lemma fetch_loop_last fuel uid c acc w body :
  friends_response e (gets w) = PageReply 200 body ->
  cursor_truthy (NextCursor body) = false ->
  fetch_loop e (S fuel) uid c acc w =
  (Ret (acc ++ items_of body), after [sent uid c] w).
Proof.
  intros H Hc. simpl. unfold get_friends_page. run_script.
  rewrite H. simpl. by rewrite Hc.
Qed.

Lemma fetch_loop_status fuel uid c acc w code body :
  friends_response e (gets w) = PageReply code body ->
  code <> 200 -> code <> 429 ->
  fetch_loop e (S fuel) uid c acc w =
  (Ret acc,
   after [sent uid c; Caught FriendsStatusError;
          Log ERROR ("Error fetching list: " +:+ pretty code)] w).
Proof.
  intros H H200 H429. simpl. unfold get_friends_page. run_script.
  rewrite H. simpl.
  destruct (Z.eqb_spec code 200); [done|].
  destruct (Z.eqb_spec code 429); [done|]. simpl.
  unfold after. unfold_world. by rewrite <- !app_assoc.
Qed.

Lemma fetch_loop_connection fuel uid c acc w :
  friends_response e (gets w) = PageConnError ->
  fetch_loop e (S fuel) uid c acc w =
  (Ret acc,
   after [sent uid c; Caught FriendsConnectionError;
          Log ERROR "Network error while fetching friends."] w).
Proof.
  intros H. simpl. unfold get_friends_page. run_script.
  rewrite H. simpl.
  unfold after. unfold_world. by rewrite <- !app_assoc.
Qed.

(** A terminal response ends the loop with a list. *)
Lemma fetch_loop_stops fuel uid c acc w :
  is_terminal (friends_response e (gets w)) = true ->
  exists l w', fetch_loop e (S fuel) uid c acc w = (Ret l, w').
Proof.
  intros H. destruct (friends_response e (gets w)) as [|code body] eqn:E.
  - rewrite (fetch_loop_connection _ _ _ _ _ E). eauto.
  - simpl in H. destruct (Z.eqb_spec code 200) as [->|H200].
    + apply negb_true_iff in H. rewrite (fetch_loop_last _ _ _ _ _ _ E H). eauto.
    + apply negb_true_iff, Z.eqb_neq in H.
      rewrite (fetch_loop_status _ _ _ _ _ _ _ E H200 H). eauto.
Qed.

(** Any other response leads to one more round, one request later. *)
Lemma fetch_loop_continues uid c acc w :
  is_terminal (friends_response e (gets w)) = false ->
  exists c' acc' w',
    gets w' = S (gets w) /\
    forall fuel,
      fetch_loop e (S fuel) uid c acc w = fetch_loop e fuel uid c' acc' w'.
Proof.
  intros H. destruct (friends_response e (gets w)) as [|code body] eqn:E; [done|].
  simpl in H. destruct (Z.eqb_spec code 200) as [->|H200].
  - apply negb_false_iff in H.
    eexists _, _, _. split; [|intros fuel; by apply fetch_loop_next]. done.
  - apply negb_false_iff in H.
    eexists _, _, _. split; [|intros fuel; apply fetch_loop_429; by rewrite E]. done.
Qed.

Lemma fetch_loop_terminates uid n :
  forall c acc w,
    is_terminal (friends_response e (gets w + n)) = true ->
    exists fuel l w', fetch_loop e fuel uid c acc w = (Ret l, w').
Proof.
  induction n as [|n IH]; intros c acc w H.
  - rewrite Nat.add_0_r in H. exists 1%nat. by apply fetch_loop_stops.
  - destruct (is_terminal (friends_response e (gets w))) eqn:E.
    + exists 1%nat. by apply fetch_loop_stops.
    + destruct (fetch_loop_continues uid c acc w E) as (c' & acc' & w' & Hg & Hstep).
      destruct (IH c' acc' w') as (fuel & l & w'' & Hrun).
      { rewrite Hg. by replace (S (gets w) + n)%nat with (gets w + S n)%nat by lia. }
      exists (S fuel), l, w''. by rewrite Hstep.
Qed.

Lemma fetch_loop_diverges uid fuel :
  forall c acc w,
    (forall n, is_terminal (friends_response e (gets w + n)) = false) ->
    (fetch_loop e fuel uid c acc w).1 = Timeout.
Proof.
  induction fuel as [|fuel IH]; intros c acc w H; [done|].
  destruct (fetch_loop_continues uid c acc w) as (c' & acc' & w' & Hg & Hstep).
  { specialize (H O). by rewrite Nat.add_0_r in H. }
  rewrite Hstep. apply IH. intros n. rewrite Hg.
  specialize (H (S n)). by replace (S (gets w) + n)%nat with (gets w + S n)%nat by lia.
Qed.

End Pagination.

Section PaginationClaims.

Variable e : env.

Lemma fetch_loop_returns fuel uid :
  forall c acc w l w',
    fetch_loop e fuel uid c acc w = (Ret l, w') ->
    exists n, is_terminal (friends_response e (gets w + n)) = true.
Proof.
  induction fuel as [|fuel IH]; intros c acc w l w' Hrun; [done|].
  destruct (is_terminal (friends_response e (gets w))) eqn:E.
  - exists O. by rewrite Nat.add_0_r.
  - destruct (fetch_loop_continues e uid c acc w E) as (c' & acc' & w1 & Hg & Hstep).
    rewrite Hstep in Hrun. apply IH in Hrun as [n Hn].
    exists (S n). rewrite Hg in Hn.
    by replace (gets w + S n)%nat with (S (gets w) + n)%nat by lia.
Qed.

Lemma fetch_friend_ids_unfold fuel uid cookie w :
  fetch_friend_ids e fuel uid cookie w =
  match fetch_loop e fuel uid None []
          (set_console (console w ++ [Log INFO "Fetching friend list..."]) w) with
  | (Ret l, w') =>
      (Ret (Some l),
       set_console
         (console w' ++ [Log INFO ("Found " +:+ pretty (length l) +:+ " connections.")])
         w')
  | (Raise x, w') => (Raise x, w')
  | (Timeout, w') => (Timeout, w')
  end.
Proof.
  unfold fetch_friend_ids. run_script.
  by destruct (fetch_loop _ _ _ _ _ _) as [[l|x|] w'].
Qed.

Lemma attempt_loop_total i batch attempts :
  forall m w, exists m' w',
    attempt_loop e i batch attempts m w = (Ret m', w') /\
    (posts w' <= posts w + length attempts)%nat.
Proof.
  induction attempts as [|a rest IH]; intros m w.
  - exists m, w. split; [done|simpl; lia].
  - simpl. unfold post_details. run_script.
    destruct (detail_response_of e (posts w)) as [|code body].
    + simpl. edestruct IH as (m' & w' & -> & Hle).
      exists m', w'. split; [done|]. simpl in Hle. lia.
    + destruct (Z.eqb code 200).
      { eexists _, _. split; [done|]. simpl. lia. }
      destruct (Z.eqb code 429); simpl.
      * edestruct IH as (m' & w' & -> & Hle).
        exists m', w'. split; [done|]. simpl in Hle. lia.
      * eexists _, _. split; [done|]. simpl. lia.
Qed.

(** C10.  The friend-list pagination ends exactly when some response is
    terminal: a page without a next cursor, a status other than 200 and
    429, or a connection error.  When no response is terminal the loop
    never returns, whatever the fuel: so it is when every response is a
    429, for the retry on 429 has no bound, and so it is when every
    response is a page with a next cursor.  The detail loop, in contrast,
    always returns after at most [MAX_RETRIES] requests for a batch. *)
Theorem fetch_friend_ids_termination (uid : Z) (cookie : string) (w : world) :
  ((exists n, is_terminal (friends_response e (gets w + n)) = true) <->
   (exists fuel l w', fetch_friend_ids e fuel uid cookie w = (Ret (Some l), w')))
  /\ ((forall n, is_terminal (friends_response e (gets w + n)) = false) ->
      forall fuel, (fetch_friend_ids e fuel uid cookie w).1 = Timeout)
  /\ ((forall n, is_429 (friends_response e (gets w + n)) = true) ->
      forall fuel, (fetch_friend_ids e fuel uid cookie w).1 = Timeout)
  /\ (forall i batch m w0, exists m' w',
        attempt_loop e i batch (seq 0 MAX_RETRIES) m w0 = (Ret m', w') /\
        (posts w' <= posts w0 + MAX_RETRIES)%nat).
Proof.
  assert ((forall n, is_terminal (friends_response e (gets w + n)) = false) ->
          forall fuel, (fetch_friend_ids e fuel uid cookie w).1 = Timeout) as Hdiv.
  { intros H fuel. rewrite fetch_friend_ids_unfold.
    assert ((fetch_loop e fuel uid None []
               (set_console (console w ++ [Log INFO "Fetching friend list..."]) w)).1
            = Timeout) as Hd by (by apply fetch_loop_diverges).
    by destruct (fetch_loop _ _ _ _ _ _) as [[l1|x|] w1]. }
  split; [split|split; [|split]].
  - intros [n Hn].
    destruct (fetch_loop_terminates e uid n None []
                (set_console (console w ++ [Log INFO "Fetching friend list..."]) w))
      as (fuel & l & w' & Hrun); [done|].
    exists fuel, l. rewrite fetch_friend_ids_unfold, Hrun. eauto.
  - intros (fuel & l & w' & Hrun). rewrite fetch_friend_ids_unfold in Hrun.
    destruct (fetch_loop _ _ _ _ _ _) as [[l1|x|] w1] eqn:E; [|done..].
    by apply fetch_loop_returns in E.
  - exact Hdiv.
  - intros H. apply Hdiv. intros n. specialize (H n).
    destruct (friends_response e (gets w + n)) as [|code body]; [done|].
    simpl in *. by apply Z.eqb_eq in H as ->.
  - intros i batch m w0.
    destruct (attempt_loop_total i batch (seq 0 MAX_RETRIES) m w0) as (m' & w' & ? & ?).
    exists m', w'. by rewrite length_seq in *.
Qed.

End PaginationClaims.

(** ** The three-page run *)

Section ThreePages.

Variable e : env.

Lemma requests_app (t1 t2 : list event) :
  requests (t1 ++ t2) = requests t1 ++ requests t2.
Proof. apply omap_app. Qed.

Lemma replicate_shift {A} (k : nat) (x : A) (rest : list A) :
  replicate k x ++ x :: rest = x :: replicate k x ++ rest.
Proof. induction k as [|k IH]; [done|]. simpl. by rewrite IH. Qed.

Lemma gets_iter_after evs k w :
  gets (Nat.iter k (after evs) w) = (gets w + k)%nat.
Proof. induction k as [|k IH]; simpl; [lia|]. rewrite IH. lia. Qed.

Lemma requests_iter_after uid c k w :
  requests (console (Nat.iter k (after (rate_limited_round uid c)) w)) =
  requests (console w) ++
  replicate k (GetFriends uid (if cursor_truthy c then c else None)).
Proof.
  induction k as [|k IH]; simpl; [by rewrite app_nil_r|].
  rewrite requests_app, IH, <- app_assoc. f_equal.
  change (requests (rate_limited_round uid c)) with
    [GetFriends uid (if cursor_truthy c then c else None)].
  generalize (GetFriends uid (if cursor_truthy c then c else None)). intros r.
  clear. induction k as [|k IH]; [done|]. simpl. by rewrite IH.
Qed.

(** [k] rate-limited rounds in a row leave the cursor and the list as
    they are. *)
Lemma fetch_loop_429s uid c acc k :
  forall fuel w,
    (forall j, (j < k)%nat -> is_429 (friends_response e (gets w + j)) = true) ->
    fetch_loop e (k + fuel) uid c acc w =
    fetch_loop e fuel uid c acc (Nat.iter k (after (rate_limited_round uid c)) w).
Proof.
  induction k as [|k IH]; intros fuel w H; [done|].
  change (S k + fuel)%nat with (S (k + fuel)).
  rewrite fetch_loop_429 by (rewrite <- (Nat.add_0_r (gets w)); apply H; lia).
  rewrite Nat.iter_succ_r. apply IH. intros j Hj.
  change (gets (after _ w)) with (S (gets w)).
  replace (S (gets w) + j)%nat with (gets w + S j)%nat by lia. apply H. lia.
Qed.

(** C7. After a 429 the loop sends the same request again, with the
    cursor and the list unchanged; after a page with a next cursor it goes
    on with that cursor and the page's items appended; a page whose cursor
    is absent or empty ends it.  Three pages with cursors [A], [B] and
    none, each reached after any number of 429s, give the items of the
    three pages in page order; the requests carry no cursor, then [A],
    then [B], and three of them are answered with a page. *)
Theorem pagination_follows_cursor (uid : Z) (cookie : string) :
  (forall fuel c acc w,
      is_429 (friends_response e (gets w)) = true ->
      fetch_loop e (S fuel) uid c acc w =
      fetch_loop e fuel uid c acc (after (rate_limited_round uid c) w))
  /\ (forall fuel c acc w body,
      friends_response e (gets w) = PageReply 200 body ->
      cursor_truthy (NextCursor body) = true ->
      fetch_loop e (S fuel) uid c acc w =
      fetch_loop e fuel uid (NextCursor body) (acc ++ items_of body)
        (after [sent uid c] w))
  /\ (forall fuel c acc w body,
      friends_response e (gets w) = PageReply 200 body ->
      cursor_truthy (NextCursor body) = false ->
      fetch_loop e (S fuel) uid c acc w =
      (Ret (acc ++ items_of body), after [sent uid c] w))
  /\ (forall w p1 p2 p3 A B k1 k2 k3 fuel,
      A <> "" -> B <> "" ->
      NextCursor p1 = Some A -> NextCursor p2 = Some B ->
      cursor_truthy (NextCursor p3) = false ->
      (forall j, (j < k1)%nat -> is_429 (friends_response e (gets w + j)) = true) ->
      friends_response e (gets w + k1) = PageReply 200 p1 ->
      (forall j, (j < k2)%nat ->
                 is_429 (friends_response e (gets w + k1 + 1 + j)) = true) ->
      friends_response e (gets w + k1 + 1 + k2) = PageReply 200 p2 ->
      (forall j, (j < k3)%nat ->
                 is_429 (friends_response e (gets w + k1 + 1 + k2 + 1 + j)) = true) ->
      friends_response e (gets w + k1 + 1 + k2 + 1 + k3) = PageReply 200 p3 ->
      exists w',
        fetch_friend_ids e (k1 + S (k2 + S (k3 + S fuel))) uid cookie w =
          (Ret (Some (items_of p1 ++ items_of p2 ++ items_of p3)), w')
        /\ requests (console w') =
           requests (console w)
           ++ replicate (S k1) (GetFriends uid None)
           ++ replicate (S k2) (GetFriends uid (Some A))
           ++ replicate (S k3) (GetFriends uid (Some B))
        /\ gets w' = (gets w + k1 + k2 + k3 + 3)%nat).
Proof.
  split; [|split; [|split]].
  - intros. by apply fetch_loop_429.
  - intros. by apply fetch_loop_next.
  - intros. by apply fetch_loop_last.
  - intros w p1 p2 p3 A B k1 k2 k3 fuel HA HB Hc1 Hc2 Hc3 H1 Hp1 H2 Hp2 H3 Hp3.
    assert (cursor_truthy (Some A) = true) as HtA
      by (simpl; apply negb_true_iff; by apply String.eqb_neq).
    assert (cursor_truthy (Some B) = true) as HtB
      by (simpl; apply negb_true_iff; by apply String.eqb_neq).
    rewrite fetch_friend_ids_unfold.
    set (w0 := set_console (console w ++ [Log INFO "Fetching friend list..."]) w).
    assert (gets w0 = gets w) as Hg0 by done.
    rewrite fetch_loop_429s by (intros j Hj; rewrite Hg0; by apply H1).
    set (w1 := Nat.iter k1 _ w0).
    assert (gets w1 = (gets w + k1)%nat) as Hg1
      by (unfold w1; by rewrite gets_iter_after, Hg0).
    rewrite (fetch_loop_next e _ _ _ _ w1 p1)
      by (rewrite ?Hg1, ?Hc1; done).
    rewrite Hc1. set (w2 := after _ w1).
    assert (gets w2 = (gets w + k1 + 1)%nat) as Hg2
      by (unfold w2; simpl; rewrite Hg1; lia).
    rewrite fetch_loop_429s by (intros j Hj; rewrite Hg2; by apply H2).
    set (w3 := Nat.iter k2 _ w2).
    assert (gets w3 = (gets w + k1 + 1 + k2)%nat) as Hg3
      by (unfold w3; by rewrite gets_iter_after, Hg2).
    rewrite (fetch_loop_next e _ _ _ _ w3 p2)
      by (rewrite ?Hg3, ?Hc2; done).
    rewrite Hc2. set (w4 := after _ w3).
    assert (gets w4 = (gets w + k1 + 1 + k2 + 1)%nat) as Hg4
      by (unfold w4; simpl; rewrite Hg3; lia).
    rewrite fetch_loop_429s by (intros j Hj; rewrite Hg4; by apply H3).
    set (w5 := Nat.iter k3 _ w4).
    assert (gets w5 = (gets w + k1 + 1 + k2 + 1 + k3)%nat) as Hg5
      by (unfold w5; by rewrite gets_iter_after, Hg4).
    rewrite (fetch_loop_last e _ _ _ _ w5 p3) by (rewrite ?Hg5; done).
    eexists. split; [by rewrite <- !app_assoc|]. split.
    + unfold_world. rewrite !requests_app. simpl.
      unfold w5. rewrite requests_iter_after. unfold w4. simpl.
      rewrite requests_app. unfold w3. rewrite requests_iter_after.
      unfold w2. simpl. rewrite requests_app. unfold w1.
      rewrite requests_iter_after. unfold w0. simpl.
      rewrite requests_app. simpl. simpl in HtA, HtB. rewrite HtA, HtB.
      rewrite !app_nil_r, <- !app_assoc. simpl.
      by rewrite !replicate_shift, app_nil_r.
    + simpl. rewrite Hg5. lia.
Qed.

End ThreePages.

(** ** Detail batches *)

Lemma concat_chunks {A} (l : list A) (s n : nat) :
  concat (map (fun i => take s (drop i l)) (map (fun k => (k * s)%nat) (seq 0 n)))
  = take (n * s) l.
Proof.
  induction n as [|n IH]; [done|].
  rewrite seq_S, !map_app, concat_app, IH. simpl.
  rewrite app_nil_r, take_take_drop. f_equal. lia.
Qed.

(** The number of batches is the length divided by the batch size,
    rounded up. *)
Lemma batch_count_bounds (n : nat) :
  let c := ((n + BATCH_SIZE - 1) / BATCH_SIZE)%nat in
  (n <= c * BATCH_SIZE)%nat /\ (forall k, (S k < c)%nat -> (S k * BATCH_SIZE <= n)%nat)
  /\ (forall k, (k < c)%nat -> (k * BATCH_SIZE < n)%nat).
Proof.
  unfold BATCH_SIZE. cbv zeta.
  pose proof (Nat.div_mod_eq (n + 50 - 1) 50) as Hd.
  assert ((n + 50 - 1) mod 50 < 50)%nat as Hm by (apply Nat.mod_upper_bound; lia).
  generalize dependent ((n + 50 - 1) / 50)%nat.
  generalize dependent ((n + 50 - 1) mod 50)%nat.
  intros r Hr c Hc. repeat split; intros; lia.
Qed.

Lemma concat_batches_of (ids : list Z) : concat (batches_of ids) = ids.
Proof.
  unfold batches_of, range_step. rewrite concat_chunks.
  apply take_ge. apply batch_count_bounds.
Qed.

Lemma length_batches_of (ids : list Z) :
  length (batches_of ids) = ((length ids + BATCH_SIZE - 1) / BATCH_SIZE)%nat.
Proof. unfold batches_of, range_step. by rewrite !length_map, length_seq. Qed.

Lemma batches_of_lookup (ids : list Z) (k : nat) :
  (k < length (batches_of ids))%nat ->
  batches_of ids !! k = Some (take BATCH_SIZE (drop (k * BATCH_SIZE) ids)).
Proof.
  intros Hk. rewrite length_batches_of in Hk.
  unfold batches_of, range_step. rewrite !list_lookup_fmap.
  by rewrite lookup_seq_lt.
Qed.

(** Every batch but the last has [BATCH_SIZE] identifiers; the last has
    between one and [BATCH_SIZE]. *)
Lemma batches_of_sizes (ids : list Z) (k : nat) (b : list Z) :
  batches_of ids !! k = Some b ->
  (if decide (S k < length (batches_of ids))%nat
   then length b = BATCH_SIZE
   else length b = (length ids - k * BATCH_SIZE)%nat /\
        (0 < length b <= BATCH_SIZE)%nat).
Proof.
  intros Hb. pose proof (lookup_lt_Some _ _ _ Hb) as Hk.
  rewrite batches_of_lookup in Hb by done. injection Hb as <-.
  rewrite length_take, length_drop. rewrite length_batches_of in *.
  destruct (batch_count_bounds (length ids)) as (Hceil & Hfull & Hlast).
  specialize (Hfull k). specialize (Hlast k Hk).
  unfold BATCH_SIZE in *. case_decide; lia.
Qed.

Lemma batches_of_120 (ids : list Z) :
  length ids = 120%nat -> map length (batches_of ids) = [50; 50; 20]%nat.
Proof.
  intros H. unfold batches_of, range_step. rewrite H. simpl.
  rewrite !length_take, !length_drop, H. done.
Qed.

Section DetailRequests.

Variable e : env.

Lemma attempt_loop_429 i batch attempt rest m w body :
  detail_response_of e (posts w) = DetailReply 429 body ->
  attempt_loop e i batch (attempt :: rest) m w =
  attempt_loop e i batch rest m (after_post (rate_limited_attempt i batch attempt) w).
Proof.
  intros H. simpl. unfold post_details. run_script. rewrite H. simpl.
  unfold after_post, rate_limited_attempt. unfold_world. by rewrite <- !app_assoc.
Qed.

Lemma attempt_loop_200 i batch attempt rest m w body :
  detail_response_of e (posts w) = DetailReply 200 body ->
  attempt_loop e i batch (attempt :: rest) m w =
  (Ret (store_details m body), after_post [Send (PostDetails batch)] w).
Proof.
  intros H. simpl. unfold post_details. run_script. by rewrite H.
Qed.

(** One batch is posted at least once and at most once per attempt. *)
Lemma attempt_loop_requests i batch attempts :
  forall m w, exists m' w' n,
    attempt_loop e i batch attempts m w = (Ret m', w') /\
    (n <= length attempts)%nat /\ (attempts <> [] -> (1 <= n)%nat) /\
    requests (console w') = requests (console w) ++ replicate n (PostDetails batch) /\
    posts w' = (posts w + n)%nat.
Proof.
  induction attempts as [|a rest IH]; intros m w.
  - exists m, w, O. simpl. rewrite app_nil_r. repeat split; try done; lia.
  - simpl. unfold post_details. run_script.
    destruct (detail_response_of e (posts w)) as [|code body].
    + simpl. edestruct IH as (m' & w' & n & -> & Hn & _ & Hreq & Hp).
      exists m', w', (S n). rewrite Hreq. unfold_world. simpl in Hp.
      rewrite !requests_app, <- !app_assoc. simpl.
      repeat split; try done; lia.
    + destruct (Z.eqb code 200).
      { eexists _, _, 1%nat. split; [done|]. unfold_world. rewrite requests_app.
        repeat split; try done; lia. }
      destruct (Z.eqb code 429); simpl.
      * edestruct IH as (m' & w' & n & -> & Hn & _ & Hreq & Hp).
        exists m', w', (S n). rewrite Hreq. unfold_world. simpl in Hp.
        rewrite !requests_app, <- !app_assoc. simpl.
        repeat split; try done; lia.
      * eexists _, _, 1%nat. split; [done|]. unfold_world.
        rewrite !requests_app. simpl.
        rewrite app_nil_r. repeat split; try done; lia.
Qed.

(** The requests of the whole batch loop: batch after batch, each posted
    between one and [MAX_RETRIES] times. *)
Lemma batch_loop_requests (user_ids : list Z) (w : world) :
  exists m w' counts,
    batch_loop e user_ids w = (Ret m, w') /\
    length counts = length (batches_of user_ids) /\
    Forall (fun n => 1 <= n <= MAX_RETRIES)%nat counts /\
    requests (console w') =
      requests (console w) ++
      concat (zip_with (fun n b => replicate n (PostDetails b))
                       counts (batches_of user_ids)).
Proof.
  unfold batch_loop, batches_of.
  generalize (range_step (length user_ids) BATCH_SIZE). intros offs.
  generalize (∅ : gmap Z entry). revert w.
  induction offs as [|i offs IH]; intros w m.
  - exists m, w, []. simpl. by rewrite app_nil_r.
  - cbn [for_each map]. unfold bind at 1.
    destruct (attempt_loop_requests i (take BATCH_SIZE (drop i user_ids))
                (seq 0 MAX_RETRIES) m w)
      as (m1 & w1 & n & Hrun & Hn & Hpos & Hreq & _).
    rewrite Hrun. rewrite length_seq in Hn.
    destruct (IH w1 m1) as (m2 & w2 & counts & Hrun2 & Hlen & Hall & Hreq2).
    exists m2, w2, (n :: counts). split; [done|]. split; [simpl; by rewrite Hlen|].
    split.
    + constructor; [|done]. split; [by apply Hpos|done].
    + rewrite Hreq2, Hreq. cbn [zip_with concat]. by rewrite <- !app_assoc.
Qed.

(** C5. The identifiers are posted in consecutive batches of
    [BATCH_SIZE], the last one smaller when the count is no multiple (120
    identifiers: batches of 50, 50 and 20); each batch is posted between
    one and [MAX_RETRIES] times.  After a 429 on attempt number [attempt]
    the loop waits [(attempt + 1) * RATE_LIMIT_DELAY] and posts the same
    batch again, so a batch answered 429, 429, 200 is posted three times,
    with waits of 5 and then 10 before the two retries. *)
Theorem detail_batches_and_backoff (user_ids : list Z) (w : world) :
  concat (batches_of user_ids) = user_ids
  /\ (forall k b, batches_of user_ids !! k = Some b ->
        if decide (S k < length (batches_of user_ids))%nat
        then length b = BATCH_SIZE
        else (0 < length b <= BATCH_SIZE)%nat)
  /\ (length user_ids = 120%nat ->
        map length (batches_of user_ids) = [50; 50; 20]%nat)
  /\ (exists m w' counts,
        batch_loop e user_ids w = (Ret m, w') /\
        length counts = length (batches_of user_ids) /\
        Forall (fun n => 1 <= n <= MAX_RETRIES)%nat counts /\
        requests (console w') =
          requests (console w) ++
          concat (zip_with (fun n b => replicate n (PostDetails b))
                           counts (batches_of user_ids)))
  /\ (forall i batch attempt rest m w0 body,
        detail_response_of e (posts w0) = DetailReply 429 body ->
        attempt_loop e i batch (attempt :: rest) m w0 =
        attempt_loop e i batch rest m
          (after_post (rate_limited_attempt i batch attempt) w0))
  /\ (forall i batch m w0 body0 body1 body,
        detail_response_of e (posts w0) = DetailReply 429 body0 ->
        detail_response_of e (posts w0 + 1) = DetailReply 429 body1 ->
        detail_response_of e (posts w0 + 2) = DetailReply 200 body ->
        exists w',
          attempt_loop e i batch (seq 0 MAX_RETRIES) m w0 =
            (Ret (store_details m body), w')
          /\ requests (console w') =
             requests (console w0) ++ replicate 3 (PostDetails batch)
          /\ sleeps (console w') = sleeps (console w0) ++ [5; 10]
          /\ posts w' = (posts w0 + 3)%nat).
Proof.
  split; [apply concat_batches_of|].
  split.
  { intros k b Hb. pose proof (batches_of_sizes _ _ _ Hb) as H.
    case_decide; [done|]. by destruct H. }
  split; [apply batches_of_120|].
  split; [apply batch_loop_requests|].
  split; [intros; by eapply attempt_loop_429|].
  intros i batch m w0 body0 body1 body H0 H1 H2.
  change (seq 0 MAX_RETRIES) with [0; 1; 2]%nat.
  rewrite (attempt_loop_429 _ _ _ _ _ _ body0) by done.
  rewrite (attempt_loop_429 _ _ _ _ _ _ body1)
    by (simpl; by replace (S (posts w0)) with (posts w0 + 1)%nat by lia).
  rewrite (attempt_loop_200 _ _ _ _ _ _ body)
    by (simpl; by replace (S (S (posts w0))) with (posts w0 + 2)%nat by lia).
  eexists. split; [done|]. unfold_world. unfold sleeps, requests.
  rewrite !omap_app. simpl. rewrite <- !app_assoc. simpl.
  repeat split; try done. lia.
Qed.

End DetailRequests.

(** ** The merge with the local history *)

Lemma merge_step_spec fetched local (acc : list entry) (r : nat) (f : entry) :
  merge_step fetched local (acc, r) f =
  (acc ++ [merged_entry fetched local f],
   if is_recovered fetched local f then S r else r).
Proof.
  unfold merge_step, merged_entry, is_recovered.
  destruct (fetched !! id f); [done|].
  destruct (local !! id f) as [l|]; [|done]. by destruct (truthy (get "name" l)).
Qed.

Lemma merge_acc fetched local (friends : list entry) :
  forall acc r,
    foldl (merge_step fetched local) (acc, r) friends =
    (acc ++ map (merged_entry fetched local) friends,
     (r + length (filter (fun f => is_recovered fetched local f = true) friends))%nat).
Proof.
  induction friends as [|f friends IH]; intros acc r.
  - simpl. by rewrite app_nil_r, Nat.add_0_r.
  - cbn [foldl]. rewrite merge_step_spec, IH, <- app_assoc. simpl. f_equal.
    rewrite filter_cons. destruct (is_recovered fetched local f); simpl; lia.
Qed.

Lemma merge_spec fetched local (friends : list entry) :
  merge fetched local friends =
  (map (merged_entry fetched local) friends,
   length (filter (fun f => is_recovered fetched local f = true) friends)).
Proof. unfold merge. by rewrite merge_acc. Qed.

(** [update_from] copies the three detail fields and keeps the rest. *)
Lemma update_from_fields (src f : entry) :
  id (update_from src f) = id f
  /\ get "name" (update_from src f) = get "name" src
  /\ get "displayName" (update_from src f) = get "displayName" src
  /\ get "hasVerifiedBadge" (update_from src f) = get "hasVerifiedBadge" src.
Proof.
  unfold update_from, get. simpl. repeat split.
  - rewrite lookup_insert_ne by done. rewrite lookup_insert_ne by done.
    by rewrite lookup_insert_eq.
  - rewrite lookup_insert_ne by done. by rewrite lookup_insert_eq.
  - by rewrite lookup_insert_eq.
Qed.

Section Enricher.

Variable e : env.

Lemma load_local_history_spec username w :
  exists w', load_local_history username w = (Ret (history username w), w')
             /\ snapshots w' = snapshots w /\ posts w' = posts w
             /\ requests (console w') = requests (console w).
Proof.
  unfold load_local_history, history.
  destruct (snapshots w !! username) as [[err|l]|]; eauto 6.
  run_script. eexists. split; [done|]. unfold_world.
  rewrite requests_app. simpl. by rewrite app_nil_r.
Qed.

(** [fetch_user_details] is the batch loop followed by the merge. *)
Lemma fetch_user_details_merge friends cookie username w :
  exists w1 fetched w2 w',
    batch_loop e (map id friends) w1 = (Ret fetched, w2) /\
    let '(final_list, recovered) :=
      merge fetched (index_by_id (history username w)) friends in
    fetch_user_details e friends cookie username w = (Ret final_list, w') /\
    console w' =
      console w2 ++
      (if (0 <? recovered)%nat
       then [Log WARN ("Recovered " +:+ pretty recovered
                       +:+ " names from local history.")]
       else []).
Proof.
  unfold fetch_user_details. destruct friends as [|f0 friends].
  { exists w, ∅, w, w. split; [done|]. simpl. split; [done|]. by rewrite app_nil_r. }
  set (fr := f0 :: friends). run_script.
  set (w0 := set_console _ w).
  destruct (load_local_history_spec username w0) as (w1 & Hh & _).
  rewrite Hh. change (history username w0) with (history username w).
  destruct (batch_loop_requests e (map id fr) w1) as (m & w2 & counts & Hb & _).
  change (map id fr) with (id f0 :: map id friends) in Hb.
  exists w1, m, w2. rewrite Hb.
  destruct (merge m (index_by_id (history username w)) fr) as [final recovered].
  destruct (0 <? recovered)%nat; eexists; (split; [done|]); split; try done.
  simpl. by rewrite app_nil_r.
Qed.

(** C6. For an entry whose identifier has no fresh detail in the map the
    batch loop built: when the index of the prior snapshot has a record
    for the identifier whose name is non-empty, the final record carries
    that record's name, displayName and hasVerifiedBadge and the entry is
    counted as recovered; when the index has no such record, or its name is
    empty, the final record is the entry as it came and is not counted.
    An entry with fresh detail takes its three fields from it, whatever
    the snapshot holds, and is not counted. *)
Theorem local_history_fallback friends cookie username w :
  let local_data := index_by_id (history username w) in
  exists w1 fetched w2 w' final_list recovered,
    batch_loop e (map id friends) w1 = (Ret fetched, w2)
    /\ merge fetched local_data friends = (final_list, recovered)
    /\ fetch_user_details e friends cookie username w = (Ret final_list, w')
    /\ console w' =
         console w2 ++
         (if (0 <? recovered)%nat
          then [Log WARN ("Recovered " +:+ pretty recovered
                          +:+ " names from local history.")]
          else [])
    /\ length final_list = length friends
    /\ recovered =
         length (filter (fun f => is_recovered fetched local_data f = true) friends)
    /\ (NoDup (map id (history username w)) ->
         forall u, u ∈ history username w -> local_data !! id u = Some u)
    /\ forall i f, friends !! i = Some f ->
         exists g, final_list !! i = Some g /\ id g = id f
         /\ (forall d, fetched !! id f = Some d ->
               g = update_from d f
               /\ get "name" g = get "name" d
               /\ get "displayName" g = get "displayName" d
               /\ get "hasVerifiedBadge" g = get "hasVerifiedBadge" d
               /\ is_recovered fetched local_data f = false)
         /\ (fetched !! id f = None ->
               forall l, local_data !! id f = Some l ->
                         truthy (get "name" l) = true ->
               g = update_from l f
               /\ get "name" g = get "name" l
               /\ get "displayName" g = get "displayName" l
               /\ get "hasVerifiedBadge" g = get "hasVerifiedBadge" l
               /\ is_recovered fetched local_data f = true)
         /\ (fetched !! id f = None ->
               (forall l, local_data !! id f = Some l ->
                          truthy (get "name" l) = false) ->
               g = f /\ is_recovered fetched local_data f = false).
Proof.
  intros local_data.
  destruct (fetch_user_details_merge friends cookie username w)
    as (w1 & fetched & w2 & w' & Hb & Hrun).
  fold local_data in Hrun.
  destruct (merge fetched local_data friends) as [final_list recovered] eqn:Hm.
  destruct Hrun as [Hrun Hcon].
  exists w1, fetched, w2, w', final_list, recovered.
  rewrite merge_spec in Hm. injection Hm as <- <-.
  split; [done|]. split; [apply merge_spec|]. do 2 (split; [done|]).
  split; [by rewrite length_map|]. split; [done|].
  split; [intros; by apply index_by_id_lookup|].
  intros i f Hf. exists (merged_entry fetched local_data f).
  split; [by rewrite list_lookup_fmap, Hf|].
  unfold merged_entry, is_recovered.
  destruct (fetched !! id f) as [d|] eqn:Hd.
  - destruct (update_from_fields d f) as (? & ? & ? & ?).
    split; [done|]. split; [|split; intros Hno; discriminate Hno].
    intros d' [= <-]. by destruct (local_data !! id f).
  - destruct (local_data !! id f) as [l|] eqn:Hl.
    + destruct (truthy (get "name" l)) eqn:Ht.
      * destruct (update_from_fields l f) as (? & ? & ? & ?).
        split; [done|]. split; [done|]. split.
        -- intros _ l' [= <-] _. done.
        -- intros _ Hno. specialize (Hno l eq_refl). congruence.
      * split; [done|]. split; [done|]. split; [|done].
        intros _ l' [= <-] Ht'. congruence.
    + split; [done|]. split; [done|]. split; [|done]. by intros _ l' [=].
Qed.

End Enricher.

(** ** The change analyzer *)

Lemma emitted_nil w : emitted [] w = w.
Proof. destruct w. unfold emitted. unfold_world. by rewrite app_nil_r. Qed.

Lemma emitted_app evs1 evs2 w :
  emitted evs2 (emitted evs1 w) = emitted (evs1 ++ evs2) w.
Proof. unfold emitted. unfold_world. by rewrite app_assoc. Qed.

Lemma last_emitted (evs : list event) (ev : event) w :
  last (console (emitted (evs ++ [ev]) w)) = Some ev.
Proof. unfold emitted. simpl. by rewrite app_assoc, last_snoc. Qed.

Lemma prints_app (t1 t2 : list event) : prints (t1 ++ t2) = prints t1 ++ prints t2.
Proof. apply omap_app. Qed.

Lemma prints_emitted evs w :
  prints (console (emitted evs w)) = prints (console w) ++ prints evs.
Proof. apply prints_app. Qed.

Lemma prints_Print (l : list string) : prints (map Print l) = l.
Proof. induction l as [|s l IH]; [done|]. simpl. by rewrite IH. Qed.

(** The two reporting loops: one console line and one log line per
    identifier, in iteration order. *)
Lemma for_each_report (f g : Z -> string) (l : list Z) :
  forall acc w,
    for_each l (fun logs uid => print (f uid) >> ret (logs ++ [g uid])) acc w =
    (Ret (acc ++ map g l), emitted (map (fun uid => Print (f uid)) l) w).
Proof.
  induction l as [|uid l IH]; intros acc w.
  - simpl. by rewrite app_nil_r, emitted_nil.
  - cbn [for_each]. unfold bind at 1. unfold bind at 1. unfold print at 1.
    unfold emit at 1. unfold ret at 1. rewrite IH.
    change (set_console (console w ++ [Print (f uid)]) w)
      with (emitted [Print (f uid)] w).
    by rewrite emitted_app, <- app_assoc.
Qed.

Lemma iterates_empty e : iterates_sets e -> set_iter e ∅ = [].
Proof.
  intros H. apply Permutation_nil_r. by rewrite (H ∅), elements_empty.
Qed.

Lemma iterates_length e (X : gset Z) :
  iterates_sets e -> length (set_iter e X) = size X.
Proof. intros H. by rewrite (H X). Qed.

Section Analyzer.

Variable e : env.
Hypothesis iter_ok : iterates_sets e.

Lemma report_changes_same old_list current_list username w :
  removed_ids old_list current_list = ∅ ->
  added_ids old_list current_list = ∅ ->
  report_changes e old_list current_list username w =
  (Ret tt, emitted [Log INFO "No changes detected."] w).
Proof.
  intros Hr Ha. unfold report_changes.
  fold (removed_ids old_list current_list). fold (added_ids old_list current_list).
  by rewrite decide_True.
Qed.

Lemma report_changes_changed old_list current_list username w :
  ~ (removed_ids old_list current_list = ∅ /\ added_ids old_list current_list = ∅) ->
  report_changes e old_list current_list username w =
  append_log e username (change_lines e old_list current_list)
    (emitted (report_events e old_list current_list) w).
Proof.
  intros Hch. unfold report_changes, change_lines, report_events.
  fold (removed_ids old_list current_list). fold (added_ids old_list current_list).
  rewrite decide_False by done. cbv zeta.
  unfold bind at 1. unfold print at 1. unfold emit at 1.
  change (set_console (console w ++ [?ev]) w) with (emitted [ev] w).
  unfold bind at 1.
  destruct (decide (removed_ids old_list current_list = ∅)) as [Hr|Hr].
  - unfold ret at 1. rewrite Hr, (iterates_empty e iter_ok). cbn [map app].
    unfold bind at 1.
    destruct (decide (added_ids old_list current_list = ∅)) as [Ha|Ha]; [tauto|].
    unfold bind at 1. unfold print at 1. unfold emit at 1.
    change (set_console (console ?w0 ++ [?ev]) ?w0) with (emitted [ev] w0).
    rewrite (for_each_report
               (fun uid => report_line "+" (index_by_id current_list !!! uid))
               (fun uid => new_friend_line (now e) (index_by_id current_list !!! uid) uid)).
    unfold bind at 1. unfold print at 1. unfold emit at 1.
    change (set_console (console ?w0 ++ [?ev]) ?w0) with (emitted [ev] w0).
    rewrite !emitted_app. simpl. done.
  - unfold bind at 1. unfold print at 1. unfold emit at 1.
    change (set_console (console ?w0 ++ [?ev]) ?w0) with (emitted [ev] w0).
    rewrite (for_each_report
               (fun uid => report_line "-" (index_by_id old_list !!! uid))
               (fun uid => unfriended_line (now e) (index_by_id old_list !!! uid) uid)).
    unfold bind at 1.
    destruct (decide (added_ids old_list current_list = ∅)) as [Ha|Ha].
    + unfold ret at 1. rewrite Ha, (iterates_empty e iter_ok). cbn [map].
      unfold bind at 1. unfold print at 1. unfold emit at 1.
      change (set_console (console ?w0 ++ [?ev]) ?w0) with (emitted [ev] w0).
      rewrite !emitted_app, !app_nil_r. simpl. by rewrite <- ?app_assoc.
    + unfold bind at 1. unfold print at 1. unfold emit at 1.
      change (set_console (console ?w0 ++ [?ev]) ?w0) with (emitted [ev] w0).
      rewrite (for_each_report
               (fun uid => report_line "+" (index_by_id current_list !!! uid))
               (fun uid => new_friend_line (now e) (index_by_id current_list !!! uid) uid)).
      unfold bind at 1. unfold print at 1. unfold emit at 1.
      change (set_console (console ?w0 ++ [?ev]) ?w0) with (emitted [ev] w0).
      rewrite !emitted_app. simpl. by rewrite <- ?app_assoc.
Qed.

Lemma append_log_ok username lines w :
  log_append_error e = None ->
  append_log e username lines w =
  (Ret tt,
   emitted [Log INFO "Activity log updated."]
     (set_logs (<[username := log_of username w ++ lines]> (logs w)) w)).
Proof. intros H. unfold append_log. by rewrite H. Qed.

Lemma append_log_fails username lines w err :
  log_append_error e = Some err ->
  append_log e username lines w =
  (Ret tt,
   emitted [Caught LogAppendError; Log ERROR ("Log write failed: " +:+ err)]
     match log_append_failure e with
     | NotOpened => w
     | Opened remains =>
         set_logs (<[username := log_of username w ++ remains]> (logs w)) w
     end).
Proof.
  intros H. unfold append_log. rewrite H.
  destruct (log_append_failure e) as [|remains]; run_script;
    unfold emitted; unfold_world; by rewrite <- app_assoc.
Qed.

Lemma same_ids_no_change (old_list current_list : list entry) :
  (list_to_set (map id old_list) : gset Z) = list_to_set (map id current_list) <->
  removed_ids old_list current_list = ∅ /\ added_ids old_list current_list = ∅.
Proof.
  unfold removed_ids, added_ids. rewrite !dom_index_by_id.
  set (X := list_to_set (map id old_list) : gset Z).
  set (Y := list_to_set (map id current_list) : gset Z).
  split.
  - intros ->. by rewrite difference_diag_L.
  - intros [Hr Ha]. apply set_eq. intros x.
    assert (x ∉ X ∖ Y) as H1 by (rewrite Hr; apply not_elem_of_empty).
    assert (x ∉ Y ∖ X) as H2 by (rewrite Ha; apply not_elem_of_empty).
    rewrite elem_of_difference in H1, H2.
    destruct (decide (x ∈ X)), (decide (x ∈ Y)); tauto.
Qed.

Lemma analyze_changes_proceeds current_list username w :
  current_list = [] \/ (nameless_fraction current_list <= 5 # 10)%Q ->
  analyze_changes e current_list username w =
  compare_with_snapshot e current_list username w.
Proof.
  intros [->|H]; [done|]. unfold analyze_changes.
  apply Qgtb_false in H. rewrite H. by rewrite andb_false_r.
Qed.

Lemma analyze_changes_skips current_list username w :
  current_list <> [] -> (5 # 10 < nameless_fraction current_list)%Q ->
  analyze_changes e current_list username w =
  (Ret tt, emitted [Log SKIP "Too many missing names. Skipping analysis."] w).
Proof.
  intros Hne H. unfold analyze_changes. apply Qgtb_true in H. rewrite H.
  by destruct current_list.
Qed.

Lemma iterates_NoDup (X : gset Z) : NoDup (set_iter e X).
Proof. rewrite (iter_ok X). apply NoDup_elements. Qed.

Lemma iterates_elem_of (X : gset Z) (x : Z) : x ∈ set_iter e X <-> x ∈ X.
Proof. rewrite (iter_ok X). apply elem_of_elements. Qed.

Lemma length_change_lines old_list current_list :
  length (change_lines e old_list current_list) =
  (size (removed_ids old_list current_list) + size (added_ids old_list current_list))%nat.
Proof.
  unfold change_lines.
  by rewrite length_app, !length_map, !(iterates_length e _ iter_ok).
Qed.

(** C4.  For every old snapshot that is read and every current list
    that passes the check on names (an empty list, or at most half of its
    records nameless), [analyze_changes] takes as lost the identifiers of
    the old list that are not in the current one, and as new those of the
    current list that are not in the old one.  When the two identifier
    sets are equal the only output is "No changes detected." and the log is
    left as it is.  Otherwise it prints the report and hands to the
    activity log one line per lost identifier, "[time] ❌ UNFRIENDED: name
    (ID: id)", followed by one line per new identifier, "[time] ✅ NEW
    FRIEND: name (ID: id)", the name being that of the record indexed
    under the identifier.  The lines are appended to the log of the
    account; when the append fails the failure is logged, and the log is
    as it was if the file could not be opened, and otherwise has grown by
    what reached it.  No other file is touched. *)
Theorem change_analysis old_list current_list username w :
  current_list = [] \/ (nameless_fraction current_list <= 5 # 10)%Q ->
  snapshots w !! username = Some (Holds old_list) ->
  let old_ids : gset Z := list_to_set (map id old_list) in
  let cur_ids : gset Z := list_to_set (map id current_list) in
  let removed := old_ids ∖ cur_ids in
  let added := cur_ids ∖ old_ids in
  let lines :=
    map (fun uid =>
           "[" +:+ now e +:+ "] ❌ UNFRIENDED: "
           +:+ str_value (get "name" (index_by_id old_list !!! uid))
           +:+ " (ID: " +:+ pretty uid +:+ ")" +:+ NL)
        (set_iter e removed)
    ++ map (fun uid =>
              "[" +:+ now e +:+ "] ✅ NEW FRIEND: "
              +:+ str_value (get "name" (index_by_id current_list !!! uid))
              +:+ " (ID: " +:+ pretty uid +:+ ")" +:+ NL)
           (set_iter e added) in
  exists w',
    analyze_changes e current_list username w = (Ret tt, w')
    /\ snapshots w' = snapshots w /\ exports w' = exports w
    /\ (forall other, other <> username -> logs w' !! other = logs w !! other)
    /\ (old_ids = cur_ids -> w' = emitted [Log INFO "No changes detected."] w)
    /\ (old_ids <> cur_ids ->
          length lines = (size removed + size added)%nat
          /\ (NoDup (set_iter e removed) /\ forall x, x ∈ set_iter e removed <-> x ∈ removed)
          /\ (NoDup (set_iter e added) /\ forall x, x ∈ set_iter e added <-> x ∈ added)
          /\ (forall uid, uid ∈ removed ->
                 id (index_by_id old_list !!! uid) = uid
                 /\ index_by_id old_list !!! uid ∈ old_list)
          /\ (forall uid, uid ∈ added ->
                 id (index_by_id current_list !!! uid) = uid
                 /\ index_by_id current_list !!! uid ∈ current_list)
          /\ prints (console w') =
               prints (console w) ++ prints (report_events e old_list current_list)
          /\ match log_append_error e with
              | None =>
                  log_of username w' = log_of username w ++ lines
                  /\ last (console w') = Some (Log INFO "Activity log updated.")
              | Some err =>
                  last (console w') = Some (Log ERROR ("Log write failed: " +:+ err))
                  /\ match log_append_failure e with
                      | NotOpened => logs w' = logs w
                      | Opened remains =>
                          log_of username w' = log_of username w ++ remains
                      end
              end).
Proof.
  intros Hguard Hsnap old_ids cur_ids removed added lines.
  assert (removed_ids old_list current_list = removed) as Hrem
    by (unfold removed_ids; by rewrite !dom_index_by_id).
  assert (added_ids old_list current_list = added) as Hadd
    by (unfold added_ids; by rewrite !dom_index_by_id).
  assert (change_lines e old_list current_list = lines) as Hlines
    by (unfold change_lines; by rewrite Hrem, Hadd).
  assert (forall l uid, uid ∈ dom (index_by_id l) ->
            id (index_by_id l !!! uid) = uid /\ index_by_id l !!! uid ∈ l) as Hrec.
  { intros l uid [u Hu]%elem_of_dom. rewrite (lookup_total_correct _ _ _ Hu).
    by apply index_by_id_Some in Hu. }
  rewrite analyze_changes_proceeds by done.
  unfold compare_with_snapshot. rewrite Hsnap.
  destruct (decide (old_ids = cur_ids)) as [Heq|Hneq].
  - apply same_ids_no_change in Heq as Hsame. destruct Hsame as [Hr Ha].
    rewrite report_changes_same by done. eexists. split; [done|].
    do 3 (split; [done|]). split; [done|]. intros Hch. by destruct Hch.
  - assert (~ (removed_ids old_list current_list = ∅
               /\ added_ids old_list current_list = ∅)) as Hch
      by (intros H; by apply same_ids_no_change in H).
    rewrite report_changes_changed by done.
    assert (forall w1,
              prints (console w1) =
                prints (console (emitted (report_events e old_list current_list) w)) ->
              prints (console w1) =
                prints (console w) ++ prints (report_events e old_list current_list))
      as Hprints by (intros w1 ->; apply prints_emitted).
    assert (length lines = (size removed + size added)%nat) as Hlen
      by (rewrite <- Hlines, <- Hrem, <- Hadd; apply length_change_lines).
    assert (forall uid, uid ∈ removed ->
              id (index_by_id old_list !!! uid) = uid
              /\ index_by_id old_list !!! uid ∈ old_list) as Hold.
    { intros uid [Hin _]%elem_of_difference. apply Hrec.
      by rewrite dom_index_by_id. }
    assert (forall uid, uid ∈ added ->
              id (index_by_id current_list !!! uid) = uid
              /\ index_by_id current_list !!! uid ∈ current_list) as Hnew.
    { intros uid [Hin _]%elem_of_difference. apply Hrec.
      by rewrite dom_index_by_id. }
    rewrite Hlines.
    destruct (log_append_error e) as [err|] eqn:Herr.
    + rewrite (append_log_fails _ _ _ err) by done.
      destruct (log_append_failure e) as [|remains].
      * eexists. split; [done|]. do 2 (split; [done|]). split; [done|].
        split; [done|]. intros _. split; [done|].
        split; [split; [apply iterates_NoDup|apply iterates_elem_of]|].
        split; [split; [apply iterates_NoDup|apply iterates_elem_of]|].
        split; [done|]. split; [done|]. split.
        { apply Hprints. rewrite prints_emitted.
          change (prints [_; _]) with (@nil string). by rewrite app_nil_r. }
        split; [|done]. exact (last_emitted [_] _ _).
      * eexists. split; [done|]. do 2 (split; [done|]). split.
        { intros other Hne. simpl. by rewrite lookup_insert_ne. }
        split; [done|]. intros _. split; [done|].
        split; [split; [apply iterates_NoDup|apply iterates_elem_of]|].
        split; [split; [apply iterates_NoDup|apply iterates_elem_of]|].
        split; [done|]. split; [done|]. split.
        { apply Hprints. rewrite prints_emitted.
          change (prints [_; _]) with (@nil string). by rewrite app_nil_r. }
        split; [exact (last_emitted [_] _ _)|].
        unfold log_of at 1. simpl. by rewrite lookup_insert_eq.
    + rewrite append_log_ok by done.
      eexists. split; [done|]. do 2 (split; [done|]). split.
      { intros other Hne. simpl. by rewrite lookup_insert_ne. }
      split; [done|]. intros _. split; [done|].
      split; [split; [apply iterates_NoDup|apply iterates_elem_of]|].
      split; [split; [apply iterates_NoDup|apply iterates_elem_of]|].
      split; [done|]. split; [done|]. split.
      { rewrite prints_emitted. change (console (set_logs _ ?w0)) with (console w0).
        rewrite prints_emitted. change (prints [_]) with (@nil string).
        by rewrite app_nil_r. }
      split; [|exact (last_emitted [] _ _)].
      unfold log_of at 1. simpl. by rewrite lookup_insert_eq.
Qed.

End Analyzer.

(** ** The guards on the fraction of nameless records *)

Section Guards.

Variable e : env.

(** C3, as the script has it.  The analysis is skipped when the fraction
    of records without a name is strictly greater than 0.5: then nothing
    is reported and the activity log is left alone.  At 0.5 and below the
    analyzer goes on to read the snapshot and compare. *)
Theorem analysis_guard current_list username w :
  current_list <> [] ->
  ((5 # 10 < nameless_fraction current_list)%Q ->
     exists w',
       analyze_changes e current_list username w = (Ret tt, w')
       /\ console w' =
          console w ++ [Log SKIP "Too many missing names. Skipping analysis."]
       /\ prints (console w') = prints (console w)
       /\ logs w' = logs w)
  /\ ((nameless_fraction current_list <= 5 # 10)%Q ->
        analyze_changes e current_list username w =
          compare_with_snapshot e current_list username w
        /\ forall old_list,
             snapshots w !! username = Some (Holds old_list) ->
             analyze_changes e current_list username w =
               report_changes e old_list current_list username w).
Proof.
  intros Hne. split.
  - intros H. rewrite analyze_changes_skips by done. eexists. split; [done|].
    split; [done|]. split; [|done].
    rewrite prints_emitted. by rewrite app_nil_r.
  - intros H. rewrite analyze_changes_proceeds by auto. split; [done|].
    intros old_list Hs. unfold compare_with_snapshot. by rewrite Hs.
Qed.

Lemma writerows_fit (header : gset string) (l : list entry) :
  Forall (fun r => keys r ⊆ header) l -> writerows header l = (l, true).
Proof.
  induction 1 as [|r l Hr _ IH]; [done|].
  simpl. rewrite decide_True by done. by rewrite IH.
Qed.

Lemma save_database_aborts friends username w :
  friends <> [] -> (2 # 10 < nameless_fraction friends)%Q ->
  save_database e friends username w =
  (Ret tt,
   emitted [Log PROTECTION "Data corruption detected (names missing). Aborting save."] w).
Proof.
  intros Hne H. unfold save_database. apply Qgtb_true in H. rewrite H.
  by destruct friends.
Qed.

Lemma save_database_writes friends username w :
  friends <> [] -> (nameless_fraction friends <= 2 # 10)%Q ->
  save_database e friends username w =
  (write_json e friends username >> write_csv e friends username) w.
Proof.
  intros Hne H. unfold save_database. apply Qgtb_false in H. rewrite H.
  rewrite andb_false_r. by destruct friends.
Qed.

(** C2, as the script has it.  The save is aborted when the fraction of
    records without a name is strictly greater than 0.2: neither file is
    touched.  At 0.2 and below both writes are made, the snapshot first
    and the export second.  A write that fails is logged and does not stop
    the other one; it leaves its file as it was when the file could not be
    opened, and otherwise without its old content, holding what reached
    it before the error. *)
Theorem snapshot_store_guard friends username w :
  friends <> [] ->
  ((2 # 10 < nameless_fraction friends)%Q ->
     exists w',
       save_database e friends username w = (Ret tt, w')
       /\ snapshots w' = snapshots w /\ exports w' = exports w
       /\ logs w' = logs w)
  /\ ((nameless_fraction friends <= 2 # 10)%Q ->
      Forall (fun r => keys r ⊆ keys (friends !!! O)) friends ->
      exists w',
        save_database e friends username w = (Ret tt, w')
        /\ snapshots w' =
           (if json_write_fails e then
              match json_write_failure e with
              | NotOpened => snapshots w
              | Opened remains => <[username := remains]> (snapshots w)
              end
            else <[username := Holds friends]> (snapshots w))
        /\ exports w' =
           (if csv_write_fails e then
              match csv_write_failure e with
              | NotOpened => exports w
              | Opened remains => <[username := remains]> (exports w)
              end
            else <[username := Csv (keys (friends !!! O)) friends]> (exports w))
        /\ logs w' = logs w
        /\ console w' =
           console w
           ++ (if json_write_fails e
               then [Caught JsonWriteError; Log ERROR "Failed to save JSON."]
               else [])
           ++ (if csv_write_fails e
               then [Caught CsvWriteError; Log ERROR "Failed to save CSV."]
               else [Log INFO "Database updated."])).
Proof.
  intros Hne. split.
  - intros H. rewrite save_database_aborts by done. eauto 6.
  - intros H Hfit. rewrite save_database_writes by done.
    unfold write_json, write_csv. rewrite (writerows_fit _ _ Hfit).
    destruct (json_write_fails e), (csv_write_fails e);
      try destruct (json_write_failure e) as [|left_json];
      try destruct (csv_write_failure e) as [|left_csv];
      run_script; eexists; (split; [done|]);
      (split; [done|]); (split; [done|]); (split; [done|]);
      by rewrite <- ?app_assoc, ?app_nil_r.
Qed.

End Guards.

(** C3, at exactly one half.  One record of two has no name, so the
    fraction is 0.5; the analyzer still reports a lost and a new friend
    and appends two lines to the activity log. *)
Lemma analysis_runs_at_half :
  let w := world_with [mk 1 "a"; mk 3 "c"] in
  let w' := (analyze_changes quiet_env one_in_two "alice" w).2 in
  (5 # 10 <= nameless_fraction one_in_two)%Q
  /\ prints (console w') <> []
  /\ log_of "alice" w = []
  /\ log_of "alice" w' =
     [unfriended_line (now quiet_env) (mk 3 "c") 3;
      new_friend_line (now quiet_env) (bare 2) 2].
Proof.
  cbv zeta. split; [by vm_compute|]. split; [by vm_compute|].
  split; by vm_compute.
Qed.

(** C2, at exactly one fifth.  One record of five has no name, so the
    fraction is 0.2; both files are written all the same. *)
Lemma save_runs_at_one_fifth :
  let w := world_with [mk 9 "z"] in
  let w' := (save_database quiet_env one_in_five "alice" w).2 in
  (2 # 10 <= nameless_fraction one_in_five)%Q
  /\ snapshots w !! "alice" = Some (Holds [mk 9 "z"])
  /\ exports w !! "alice" = None
  /\ snapshots w' !! "alice" = Some (Holds one_in_five)
  /\ exports w' !! "alice" = Some (Csv (keys (mk 1 "a")) one_in_five).
Proof.
  cbv zeta. split; [by vm_compute|]. repeat split; by vm_compute.
Qed.

(** ** A failed friend-list fetch *)

(** C1.  [fetch_friend_ids] never returns [None]: whatever the network
    does, a finished call returns a list.  When the first request is
    answered with status 500, or fails to connect, the list is empty, the
    caller's test for [None] does not fire, the run goes on to report the
    one friend of the snapshot as lost, and the script runs to its end,
    exit code 0. *)
Theorem friend_list_error_exits_zero :
  (forall e fuel uid cookie w w',
      fetch_friend_ids e fuel uid cookie w <> (Ret None, w'))
  /\ (forall r,
      r = PageReply 500 (Page None None None) \/ r = PageConnError ->
      let e := env_answering r in
      let w := world_with [mk 1 "a"] in
      (fetch_friend_ids e 5 7 "token" w).1 = Ret (Some [])
      /\ exit_code (main e 5 w).1 = Some 0
      /\ requests (console (main e 5 w).2) = [GetAuth; GetFriends 7 None]
      /\ filter (fun ev => ev = Log STOP "API Error. Halting.")
                (console (main e 5 w).2) = []
      /\ log_of "alice" (main e 5 w).2 =
         [unfriended_line (now e) (mk 1 "a") 1]).
Proof.
  split.
  - intros e fuel uid cookie w w'. rewrite fetch_friend_ids_unfold.
    by destruct (fetch_loop _ _ _ _ _ _) as [[l|x|] w1].
  - intros r [->| ->]; cbv zeta; repeat split; by vm_compute.
Qed.

(** ** An empty friend list *)

Section EmptyList.

Variable e : env.
Hypothesis iter_ok : iterates_sets e.

Lemma removed_ids_nil (old_list : list entry) :
  removed_ids old_list [] = list_to_set (map id old_list).
Proof.
  unfold removed_ids. rewrite dom_index_by_id.
  change (index_by_id []) with (∅ : gmap Z entry).
  by rewrite dom_empty_L, difference_empty_L.
Qed.

Lemma added_ids_nil (old_list : list entry) : added_ids old_list [] = ∅.
Proof.
  unfold added_ids. change (index_by_id []) with (∅ : gmap Z entry).
  by rewrite dom_empty_L, empty_difference_L.
Qed.

(** C9.  With an empty list [save_database] returns at once and leaves the
    world as it is.  This also holds after the analyzer, given the same
    empty list and a snapshot with friends in it, has reported every
    identifier of the snapshot as lost and appended a line for each to the
    activity log: the snapshot and the export are still the old ones. *)
Theorem empty_list_leaves_snapshot username w old_list :
  snapshots w !! username = Some (Holds old_list) ->
  old_list <> [] ->
  (forall w0, save_database e [] username w0 = (Ret tt, w0))
  /\ exists w1,
       analyze_changes e [] username w = (Ret tt, w1)
       /\ removed_ids old_list [] = list_to_set (map id old_list)
       /\ removed_ids old_list [] <> ∅
       /\ prints (console w1) =
          prints (console w) ++ prints (report_events e old_list [])
       /\ (log_append_error e = None ->
           log_of username w1 =
           log_of username w ++
           map (fun uid => unfriended_line (now e) (index_by_id old_list !!! uid) uid)
               (set_iter e (list_to_set (map id old_list))))
       /\ save_database e [] username w1 = (Ret tt, w1)
       /\ snapshots w1 = snapshots w
       /\ exports w1 = exports w.
Proof.
  intros Hsnap Hne. split; [done|].
  assert (removed_ids old_list [] <> ∅) as Hrem.
  { rewrite removed_ids_nil. destruct old_list as [|u l]; [done|].
    simpl. intros Hempty.
    assert (id u ∈ (∅ : gset Z)) as Hin by (rewrite <- Hempty; set_solver).
    by apply not_elem_of_empty in Hin. }
  rewrite analyze_changes_proceeds by auto.
  unfold compare_with_snapshot. rewrite Hsnap.
  rewrite (report_changes_changed e iter_ok) by (intros [? _]; done).
  assert (change_lines e old_list [] =
          map (fun uid => unfriended_line (now e) (index_by_id old_list !!! uid) uid)
              (set_iter e (list_to_set (map id old_list)))) as Hlines.
  { unfold change_lines.
    rewrite added_ids_nil, (iterates_empty e iter_ok), removed_ids_nil.
    apply app_nil_r. }
  destruct (log_append_error e) as [err|] eqn:Herr.
  - rewrite (append_log_fails _ _ _ _ err) by done.
    destruct (log_append_failure e) as [|remains];
      (eexists; split; [done|]);
      (split; [apply removed_ids_nil|]); (split; [done|]); split; try done.
    + rewrite !prints_emitted. change (prints [_; _]) with (@nil string).
      by rewrite app_nil_r.
    + rewrite prints_emitted. change (console (set_logs _ ?w0)) with (console w0).
      rewrite prints_emitted. change (prints [_; _]) with (@nil string).
      by rewrite app_nil_r.
  - rewrite append_log_ok by done. eexists. split; [done|].
    split; [apply removed_ids_nil|]. split; [done|]. split.
    { rewrite prints_emitted. change (console (set_logs _ ?w0)) with (console w0).
      rewrite prints_emitted. change (prints [_]) with (@nil string).
      by rewrite app_nil_r. }
    split; [|done]. intros _. unfold log_of at 1. unfold emitted. unfold_world.
    rewrite lookup_insert_eq. simpl. by rewrite Hlines.
Qed.

End EmptyList.

(** ** Errors and log lines *)

Section Tidy.

Variable silent : error -> bool.

Lemma errors_logged_app (a b : list event) :
  errors_logged silent a = true -> errors_logged silent b = true ->
  errors_logged silent (a ++ b) = true.
Proof.
  intros Ha Hb. induction a as [|ev a IH]; [done|].
  destruct ev; simpl in *; try by apply IH.
  apply andb_true_iff in Ha as [Hk Ha]. rewrite IH by done.
  rewrite andb_true_r. apply orb_true_iff in Hk as [->|Hk]; [done|].
  destruct a as [|[] a]; try done. simpl in *. by rewrite Hk, orb_true_r.
Qed.

Lemma tidy_ret {A} (a : A) : tidy silent (ret a).
Proof. intros w r w' [= <- <-]. exists []. by rewrite app_nil_r. Qed.

Lemma tidy_raise {A} (x : exn) : tidy silent (@raise A x).
Proof. intros w r w' [= <- <-]. exists []. by rewrite app_nil_r. Qed.

Lemma tidy_bind {A B} (m : M A) (k : A -> M B) :
  tidy silent m -> (forall a, tidy silent (k a)) -> tidy silent (bind m k).
Proof.
  intros Hm Hk w r w'. unfold bind.
  destruct (m w) as [[a|x|] w1] eqn:E; intros Hrun.
  - destruct (Hm _ _ _ E) as (evs1 & Hc1 & He1).
    destruct (Hk a _ _ _ Hrun) as (evs2 & Hc2 & He2).
    exists (evs1 ++ evs2). rewrite Hc2, Hc1, <- app_assoc.
    split; [done|]. by apply errors_logged_app.
  - injection Hrun as <- <-. by apply (Hm _ _ _ E).
  - injection Hrun as <- <-. by apply (Hm _ _ _ E).
Qed.

Lemma tidy_emit (ev : event) :
  (forall k, ev <> Caught k) -> tidy silent (emit ev).
Proof.
  intros Hev w r w' [= <- <-]. exists [ev]. split; [done|].
  destruct ev; try done. by destruct (Hev k).
Qed.

Lemma tidy_log lv msg : tidy silent (log lv msg).
Proof. by apply tidy_emit. Qed.

Lemma tidy_print s : tidy silent (print s).
Proof. by apply tidy_emit. Qed.

Lemma tidy_sleep s : tidy silent (sleep s).
Proof. by apply tidy_emit. Qed.

Lemma tidy_send r : tidy silent (emit (Send r)).
Proof. by apply tidy_emit. Qed.

(** An error followed at once by its log line. *)
Lemma tidy_caught_log {A} (k : error) lv msg (m : M A) :
  reports lv = true ->
  tidy silent m -> tidy silent (caught k >> log lv msg >> m).
Proof.
  intros Hlv Hm w r w'. unfold bind, caught, log, emit.
  set (w1 := set_console _ (set_console _ w)).
  destruct (m w1) as [[a|x|] w2] eqn:E; intros [= <- <-];
    destruct (Hm _ _ _ E) as (evs & Hc & He);
    exists (Caught k :: Log lv msg :: evs);
    (split; [rewrite Hc; unfold w1; unfold_world; by rewrite <- !app_assoc|]);
    simpl; by rewrite He, Hlv, orb_true_r.
Qed.

Lemma tidy_caught_log_end (k : error) lv msg :
  reports lv = true ->
  tidy silent (caught k >> log lv msg).
Proof.
  intros Hlv w r w'. unfold bind, caught, log, emit. intros [= <- <-].
  exists [Caught k; Log lv msg].
  split; [unfold_world; by rewrite <- !app_assoc|]. simpl.
  by rewrite Hlv, orb_true_r.
Qed.

(** An error the script passes over. *)
Lemma tidy_caught_silent (k : error) : silent k = true -> tidy silent (caught k).
Proof.
  intros Hk w r w' [= <- <-]. exists [Caught k]. split; [done|]. simpl.
  by rewrite Hk.
Qed.

(** A step that leaves the console alone. *)
Lemma tidy_quiet {A} (f : world -> result A * world) :
  (forall w, console (f w).2 = console w) -> tidy silent f.
Proof.
  intros Hf w r w' Hrun. exists []. rewrite app_nil_r.
  specialize (Hf w). rewrite Hrun in Hf. by split.
Qed.

Lemma tidy_try_except {A} (m : M A) handled (h : M A) :
  tidy silent m -> tidy silent h -> tidy silent (try_except m handled h).
Proof.
  intros Hm Hh w r w'. unfold try_except.
  destruct (m w) as [[a|x|] w1] eqn:E.
  - intros [= <- <-]. by apply (Hm _ _ _ E).
  - destruct (handled x).
    + intros Hrun. destruct (Hm _ _ _ E) as (evs1 & Hc1 & He1).
      destruct (Hh _ _ _ Hrun) as (evs2 & Hc2 & He2).
      exists (evs1 ++ evs2). rewrite Hc2, Hc1, <- app_assoc.
      split; [done|]. by apply errors_logged_app.
    + intros [= <- <-]. by apply (Hm _ _ _ E).
  - intros [= <- <-]. by apply (Hm _ _ _ E).
Qed.

Lemma tidy_for_each {A S} (l : list A) (body : S -> A -> M S) :
  (forall s x, tidy silent (body s x)) -> forall s, tidy silent (for_each l body s).
Proof.
  intros Hb. induction l as [|x l IH]; intros s; [apply tidy_ret|].
  cbn [for_each]. apply tidy_bind; [apply Hb|]. intros s'. apply IH.
Qed.

Lemma tidy_input prompt : tidy silent (input prompt).
Proof.
  unfold input. apply tidy_bind; [by apply tidy_emit|]. intros _.
  apply tidy_quiet. intros w. by destruct (stdin w) as [|[] rest].
Qed.

End Tidy.

Ltac tidy_step :=
  first
    [ apply tidy_ret
    | apply tidy_raise
    | (apply tidy_caught_log; [reflexivity|])
    | (apply tidy_caught_log_end; reflexivity)
    | apply tidy_log
    | apply tidy_print
    | apply tidy_sleep
    | apply tidy_send
    | apply tidy_input
    | apply tidy_try_except
    | apply tidy_for_each
    | (apply tidy_caught_silent; reflexivity)
    | (apply tidy_quiet; intros ?; reflexivity)
    | apply tidy_bind
    | match goal with
      | |- forall _, _ => intro
      | |- tidy _ (if ?b then _ else _) => destruct b
      | |- tidy _ (match ?x with _ => _ end) => destruct x
      | |- tidy _ (let '(_, _) := ?x in _) => destruct x
      | |- tidy _ (let _ := _ in _) => cbv zeta
      end ].

Section TidyScript.

Variable e : env.



Lemma tidy_load_local_history username : tidy silent_by_design (load_local_history username).
Proof.
  intros w r w'. unfold load_local_history.
  destruct (snapshots w !! username) as [[err|l]|].
  - apply tidy_bind; [by apply tidy_caught_silent|intros _; apply tidy_ret].
  - apply (tidy_ret _ l).
  - apply (tidy_ret _ []).
Qed.




Lemma tidy_attempt_loop i batch attempts :
  forall m, tidy silent_by_design (attempt_loop e i batch attempts m).
Proof.
  induction attempts as [|a rest IH]; intros m; [apply tidy_ret|].
  cbn [attempt_loop]. unfold post_details.
  repeat first [apply IH | tidy_step].
Qed.

Lemma tidy_fetch_user_details friends cookie username :
  tidy silent_by_design (fetch_user_details e friends cookie username).
Proof.
  unfold fetch_user_details, batch_loop.
  repeat first [apply tidy_load_local_history | apply tidy_attempt_loop | tidy_step].
Qed.

Lemma tidy_report_changes old_list current_list username :
  tidy silent_by_design (report_changes e old_list current_list username).
Proof. unfold report_changes, append_log. repeat tidy_step. Qed.

Lemma tidy_analyze_changes current_list username :
  tidy silent_by_design (analyze_changes e current_list username).
Proof.
  unfold analyze_changes.
  destruct (_ && _); [apply tidy_log|].
  intros w r w'. unfold compare_with_snapshot.
  destruct (snapshots w !! username) as [[err|old_list]|].
  - by apply tidy_caught_silent.
  - apply tidy_report_changes.
  - apply (tidy_ret _ tt).
Qed.

Lemma tidy_save_database friends username :
  tidy silent_by_design (save_database e friends username).
Proof.
  unfold save_database, write_json, write_csv. repeat tidy_step.
Qed.

Lemma tidy_after_fetch raw_friends cookie username :
  tidy silent_by_design (after_fetch e raw_friends cookie username).
Proof.
  unfold after_fetch.
  repeat first [apply tidy_fetch_user_details | apply tidy_analyze_changes
               | apply tidy_save_database | tidy_step].
Qed.


End TidyScript.

(** ** What can stop the run *)

Section RaisesOnly.

Context {P : exn -> Prop}.

Lemma raises_ret {A} (a : A) : raises_only P (ret a).
Proof. by intros w r w' [= <- <-]. Qed.

Lemma raises_raise {A} (x : exn) : P x -> raises_only P (@raise A x).
Proof. by intros Hx w r w' [= <- <-]. Qed.

Lemma raises_bind {A B} (m : M A) (k : A -> M B) :
  raises_only P m -> (forall a, raises_only P (k a)) -> raises_only P (bind m k).
Proof.
  intros Hm Hk w r w'. unfold bind.
  destruct (m w) as [[a|x|] w1] eqn:E; intros Hrun.
  - by apply (Hk a _ _ _ Hrun).
  - injection Hrun as <- <-. by apply (Hm _ _ _ E).
  - injection Hrun as <- <-. by apply (Hm _ _ _ E).
Qed.

Lemma raises_emit (ev : event) : raises_only P (emit ev).
Proof. by intros w r w' [= <- <-]. Qed.

(** A step that always returns. *)
Lemma raises_total {A} (f : world -> result A * world) :
  (forall w, exists a, (f w).1 = Ret a) -> raises_only P f.
Proof.
  intros Hf w r w' Hrun. destruct (Hf w) as [a Ha]. rewrite Hrun in Ha.
  simpl in Ha. by subst.
Qed.

Lemma raises_for_each {A S} (l : list A) (body : S -> A -> M S) :
  (forall s x, raises_only P (body s x)) ->
  forall s, raises_only P (for_each l body s).
Proof.
  intros Hb. induction l as [|x l IH]; intros s; [apply raises_ret|].
  cbn [for_each]. apply raises_bind; [apply Hb|]. intros s'. apply IH.
Qed.

End RaisesOnly.



Ltac raises_step :=
  first
    [ apply raises_ret
    | apply raises_emit
    | apply raises_for_each
    | (apply raises_total; intros ?; eexists; reflexivity)
    | apply raises_bind
    | match goal with
      | |- forall _, _ => intro
      | |- raises_only _ (if ?b then _ else _) => destruct b
      | |- raises_only _ (match ?x with _ => _ end) => destruct x
      | |- raises_only _ (let '(_, _) := ?x in _) => destruct x
      | |- raises_only _ (let _ := _ in _) => cbv zeta
      end ].

Section Stops.

Variable e : env.


Lemma raises_attempt_loop (P : exn -> Prop) i batch attempts :
  forall m, raises_only P (attempt_loop e i batch attempts m).
Proof.
  induction attempts as [|a rest IH]; intros m; [apply raises_ret|].
  cbn [attempt_loop]. unfold post_details, caught, log, sleep.
  repeat first [apply IH | raises_step].
Qed.

Lemma raises_fetch_user_details (P : exn -> Prop) friends cookie username :
  raises_only P (fetch_user_details e friends cookie username).
Proof.
  unfold fetch_user_details, batch_loop, log.
  destruct friends as [|f0 friends]; [apply raises_ret|].
  apply raises_bind; [apply raises_emit|intros _].
  apply raises_bind.
  { intros w r w'. unfold load_local_history.
    by destruct (snapshots w !! username) as [[err|l]|]; intros [= <- <-]. }
  intros history.
  repeat first [apply raises_attempt_loop | raises_step].
Qed.

Lemma raises_analyze_changes (P : exn -> Prop) current_list username :
  raises_only P (analyze_changes e current_list username).
Proof.
  unfold analyze_changes, log.
  destruct (_ && _); [apply raises_emit|].
  intros w r w'. unfold compare_with_snapshot.
  destruct (snapshots w !! username) as [[err|old_list]|].
  - by intros [= <- <-].
  - revert w r w'.
    change (raises_only P (report_changes e old_list current_list username)).
    unfold report_changes, append_log, log, print, caught.
    repeat raises_step.
  - by intros [= <- <-].
Qed.

Lemma raises_save_database friends username :
  raises_only (fun x => x = ValueError) (save_database e friends username).
Proof.
  unfold save_database, write_json, write_csv, log, caught.
  repeat first [by apply raises_raise | raises_step].
Qed.



End Stops.








(** ** The theorems at concrete inputs *)


Lemma quiet_env_iterates : iterates_sets quiet_env.
Proof. intros X. reflexivity. Defined.

(** One record of five has no name.  On a disk that takes the writes
    both files are written; on one where both writes fail after the files
    were opened, the old snapshot is gone. *)
Lemma snapshot_store_guard_at_one_fifth :
  one_in_five <> []
  /\ (nameless_fraction one_in_five <= 2 # 10)%Q
  /\ Forall (fun r => keys r ⊆ keys (one_in_five !!! O)) one_in_five
  /\ (exists w',
        save_database quiet_env one_in_five "alice" (world_with [mk 9 "z"]) = (Ret tt, w')
        /\ snapshots w' !! "alice" = Some (Holds one_in_five)
        /\ exports w' !! "alice" = Some (Csv (keys (mk 1 "a")) one_in_five)
        /\ console w' = [Log INFO "Database updated."])
  /\ (exists w',
        save_database disk_full_env one_in_five "alice" (world_with [mk 9 "z"])
          = (Ret tt, w')
        /\ snapshots (world_with [mk 9 "z"]) !! "alice" = Some (Holds [mk 9 "z"])
        /\ snapshots w' !! "alice" = Some (Unreadable "Expecting value")
        /\ exports w' !! "alice" = Some (Csv ∅ [])
        /\ console w' =
           [Caught JsonWriteError; Log ERROR "Failed to save JSON.";
            Caught CsvWriteError; Log ERROR "Failed to save CSV."]).
Proof.
  assert (one_in_five <> []) as Hne by discriminate.
  assert (nameless_fraction one_in_five <= 2 # 10)%Q as Hq
    by (vm_compute; discriminate).
  assert (Forall (fun r => keys r ⊆ keys (one_in_five !!! O)) one_in_five) as Hfit
    by (apply (bool_decide_unpack _); vm_compute; reflexivity).
  split; [exact Hne|]. split; [exact Hq|]. split; [exact Hfit|]. split.
  - destruct (proj2 (snapshot_store_guard quiet_env one_in_five "alice"
                       (world_with [mk 9 "z"]) Hne) Hq Hfit)
      as (w' & Hrun & Hsn & Hex & _ & Hcon).
    exists w'. split; [exact Hrun|]. rewrite Hsn, Hex, Hcon.
    repeat split; vm_compute; reflexivity.
  - destruct (proj2 (snapshot_store_guard disk_full_env one_in_five "alice"
                       (world_with [mk 9 "z"]) Hne) Hq Hfit)
      as (w' & Hrun & Hsn & Hex & _ & Hcon).
    exists w'. split; [exact Hrun|]. rewrite Hsn, Hex, Hcon.
    repeat split; vm_compute; reflexivity.
Defined.

Lemma analysis_guard_at_two_thirds :
  [bare 1; bare 2; mk 3 "c"] <> []
  /\ (5 # 10 < nameless_fraction [bare 1; bare 2; mk 3 "c"])%Q
  /\ exists w',
       analyze_changes quiet_env [bare 1; bare 2; mk 3 "c"] "alice"
         (world_with [mk 9 "z"]) = (Ret tt, w')
       /\ console w' =
          console (world_with [mk 9 "z"])
          ++ [Log SKIP "Too many missing names. Skipping analysis."]
       /\ prints (console w') = prints (console (world_with [mk 9 "z"]))
       /\ logs w' = logs (world_with [mk 9 "z"]).
Proof.
  assert ([bare 1; bare 2; mk 3 "c"] <> []) as Hne by discriminate.
  assert (5 # 10 < nameless_fraction [bare 1; bare 2; mk 3 "c"])%Q as Hq
    by (vm_compute; reflexivity).
  split; [exact Hne|]. split; [exact Hq|].
  exact (proj1 (analysis_guard quiet_env [bare 1; bare 2; mk 3 "c"] "alice"
                  (world_with [mk 9 "z"]) Hne) Hq).
Defined.

(** Old snapshot {1,2,3}, current list {2,3,4}: friend 1 is lost, friend
    4 is new, and two lines go to the activity log. *)
Lemma change_analysis_example :
  let old_list := [mk 1 "a"; mk 2 "b"; mk 3 "c"] in
  let current_list := [mk 2 "b"; mk 3 "c"; mk 4 "d"] in
  let w := world_with old_list in
  iterates_sets quiet_env
  /\ (nameless_fraction current_list <= 5 # 10)%Q
  /\ snapshots w !! "alice" = Some (Holds old_list)
  /\ (list_to_set (map id old_list) : gset Z) ∖ list_to_set (map id current_list) = {[1]}
  /\ (list_to_set (map id current_list) : gset Z) ∖ list_to_set (map id old_list) = {[4]}
  /\ exists w',
       analyze_changes quiet_env current_list "alice" w = (Ret tt, w')
       /\ log_of "alice" w = []
       /\ log_of "alice" w' =
          ["[2024-01-01 00:00:00] ❌ UNFRIENDED: a (ID: 1)" +:+ NL;
           "[2024-01-01 00:00:00] ✅ NEW FRIEND: d (ID: 4)" +:+ NL]
       /\ snapshots w' = snapshots w.
Proof.
  intros old_list current_list w.
  assert (current_list = [] \/ (nameless_fraction current_list <= 5 # 10)%Q) as Hg
    by (right; vm_compute; discriminate).
  assert (snapshots w !! "alice" = Some (Holds old_list)) as Hs
    by (vm_compute; reflexivity).
  assert ((list_to_set (map id old_list) : gset Z) <> list_to_set (map id current_list))
    as Hneq by (vm_compute; discriminate).
  destruct (change_analysis quiet_env quiet_env_iterates old_list current_list
              "alice" w Hg Hs)
    as (w' & Hrun & Hsn & _ & _ & _ & Hch).
  destruct (Hch Hneq) as (_ & _ & _ & _ & _ & _ & Hlog & _).
  split; [exact quiet_env_iterates|].
  split; [vm_compute; discriminate|]. split; [exact Hs|].
  split; [vm_compute; reflexivity|]. split; [vm_compute; reflexivity|].
  exists w'. split; [exact Hrun|]. split; [reflexivity|].
  split; [|exact Hsn]. rewrite Hlog. vm_compute. reflexivity.
Defined.

(** C4, on a list that fails the check on names.  Two of the three
    current records have no name; friend 1 is gone and friend 4 is new,
    yet nothing is reported and nothing is appended to the activity
    log. *)
Lemma nameless_list_is_not_compared :
  let old_list := [mk 1 "a"; mk 2 "b"; mk 3 "c"] in
  let current_list := [bare 2; bare 3; mk 4 "d"] in
  let w := world_with old_list in
  let run := analyze_changes quiet_env current_list "alice" w in
  (list_to_set (map id old_list) : gset Z) ∖ list_to_set (map id current_list) = {[1]}
  /\ (list_to_set (map id current_list) : gset Z) ∖ list_to_set (map id old_list) = {[4]}
  /\ run.1 = Ret tt
  /\ console run.2 = [Log SKIP "Too many missing names. Skipping analysis."]
  /\ logs run.2 = logs w
  /\ log_of "alice" run.2 = [].
Proof. cbv zeta. repeat split; by vm_compute. Qed.

(** Three friends, all in the prior snapshot: friend 1 gets no fresh
    detail and is recovered from the snapshot, friend 2 gets none and has
    an empty name in the snapshot, friend 3 gets fresh detail. *)
Lemma local_history_fallback_example :
  let friends := [bare 1; bare 2; bare 3] in
  let w := world_with [mk 1 "a"; mk 2 ""; mk 3 "c"] in
  (fetch_user_details rate_limited_env friends "token" "alice" w).1 =
     Ret [update_from (mk 1 "a") (bare 1); bare 2; update_from (mk 3 "cc") (bare 3)]
  /\ exists final_list recovered w',
       fetch_user_details rate_limited_env friends "token" "alice" w = (Ret final_list, w')
       /\ length final_list = length friends
       /\ merge (<[3 := mk 3 "cc"]> ∅) (index_by_id (history "alice" w)) friends
          = (final_list, recovered)
       /\ recovered = 1%nat.
Proof.
  intros friends w.
  split; [vm_compute; reflexivity|].
  destruct (local_history_fallback rate_limited_env friends "token" "alice" w)
    as (w1 & fetched & w2 & w' & final_list & recovered
        & Hb & Hm & Hrun & Hcon & Hlen & Hrec & _).
  assert (final_list =
          [update_from (mk 1 "a") (bare 1); bare 2; update_from (mk 3 "cc") (bare 3)])
    as Hfinal.
  { assert ((fetch_user_details rate_limited_env friends "token" "alice" w).1 =
            Ret [update_from (mk 1 "a") (bare 1); bare 2;
                 update_from (mk 3 "cc") (bare 3)]) as Hv by (vm_compute; reflexivity).
    rewrite Hrun in Hv. by injection Hv. }
  exists final_list, 1%nat, w'.
  split; [exact Hrun|]. split; [exact Hlen|].
  split; [rewrite Hfinal; vm_compute; reflexivity|reflexivity].
Defined.

Lemma empty_list_leaves_snapshot_example :
  let w := world_with [mk 1 "a"; mk 2 "b"] in
  iterates_sets quiet_env
  /\ snapshots w !! "alice" = Some (Holds [mk 1 "a"; mk 2 "b"])
  /\ [mk 1 "a"; mk 2 "b"] <> []
  /\ exists w1,
       analyze_changes quiet_env [] "alice" w = (Ret tt, w1)
       /\ log_of "alice" w1 =
          log_of "alice" w ++
          map (fun uid => unfriended_line (now quiet_env)
                            (index_by_id [mk 1 "a"; mk 2 "b"] !!! uid) uid)
              (set_iter quiet_env (list_to_set (map id [mk 1 "a"; mk 2 "b"])))
       /\ save_database quiet_env [] "alice" w1 = (Ret tt, w1)
       /\ snapshots w1 = snapshots w
       /\ exports w1 = exports w.
Proof.
  intros w.
  assert (snapshots w !! "alice" = Some (Holds [mk 1 "a"; mk 2 "b"])) as Hs
    by (vm_compute; reflexivity).
  assert ([mk 1 "a"; mk 2 "b"] <> []) as Hne by discriminate.
  split; [exact quiet_env_iterates|]. split; [exact Hs|]. split; [exact Hne|].
  destruct (empty_list_leaves_snapshot quiet_env quiet_env_iterates "alice" w
              [mk 1 "a"; mk 2 "b"] Hs Hne)
    as (_ & w1 & Hrun & _ & _ & _ & Hlog & Hsave & Hsn & Hex).
  exists w1. split; [exact Hrun|]. split; [exact (Hlog eq_refl)|].
  split; [exact Hsave|]. split; [exact Hsn|exact Hex].
Defined.

Lemma pagination_three_pages_example :
  let w := world_with [] in
  exists w',
    fetch_friend_ids three_pages_env 4 7 "token" w =
      (Ret (Some [bare 1; bare 2; bare 3; bare 4]), w')
    /\ requests (console w') =
       [GetFriends 7 None; GetFriends 7 (Some "A"); GetFriends 7 (Some "A");
        GetFriends 7 (Some "B")]
    /\ gets w' = 4%nat.
Proof.
  intros w.
  destruct (proj2 (proj2 (proj2 (pagination_follows_cursor three_pages_env 7 "token")))
              w (Page (Some [bare 1; bare 2]) None (Some "A"))
                (Page None (Some [bare 3]) (Some "B"))
                (Page (Some [bare 4]) None None)
                "A" "B" 0%nat 1%nat 0%nat 0%nat)
    as (w' & Hrun & Hreq & Hgets).
  - discriminate.
  - discriminate.
  - reflexivity.
  - reflexivity.
  - reflexivity.
  - intros j Hj. lia.
  - reflexivity.
  - intros j Hj. destruct j; [reflexivity|lia].
  - reflexivity.
  - intros j Hj. lia.
  - reflexivity.
  - exists w'. split; [exact Hrun|]. split; [exact Hreq|exact Hgets].
Defined.

Lemma detail_backoff_example :
  let w := world_with [] in
  length (map Z.of_nat (seq 0 120)) = 120%nat
  /\ map length (batches_of (map Z.of_nat (seq 0 120))) = [50; 50; 20]%nat
  /\ exists w',
       attempt_loop rate_limited_env 0 [3] (seq 0 MAX_RETRIES) ∅ w =
         (Ret (store_details ∅ [mk 3 "cc"]), w')
       /\ requests (console w') = requests (console w) ++ replicate 3 (PostDetails [3])
       /\ sleeps (console w') = sleeps (console w) ++ [5; 10]
       /\ posts w' = (posts w + 3)%nat.
Proof.
  intros w.
  destruct (detail_batches_and_backoff rate_limited_env (map Z.of_nat (seq 0 120)) w)
    as (_ & _ & H120 & _ & _ & Hretry).
  assert (length (map Z.of_nat (seq 0 120)) = 120%nat) as Hlen by reflexivity.
  split; [exact Hlen|]. split; [exact (H120 Hlen)|].
  exact (Hretry O [3] ∅ w [] [] [mk 3 "cc"] eq_refl eq_refl eq_refl).
Defined.

(** Three pages of which the second comes after a 429: the fetcher
    returns.  A network that answers 429 for ever: it never does. *)
Lemma fetch_friend_ids_termination_example :
  let w := world_with [] in
  let busy := env_answering (PageReply 429 (Page None None None)) in
  is_429 (friends_response three_pages_env 1) = true
  /\ is_terminal (friends_response three_pages_env (gets w + 3)) = true
  /\ (exists fuel l w',
        fetch_friend_ids three_pages_env fuel 7 "token" w = (Ret (Some l), w'))
  /\ (forall n, is_429 (friends_response busy (gets w + n)) = true)
  /\ (forall fuel, (fetch_friend_ids busy fuel 7 "token" w).1 = Timeout).
Proof.
  intros w busy.
  assert (forall n, is_429 (friends_response busy (gets w + n)) = true) as Hbusy
    by (intros n; reflexivity).
  split; [reflexivity|]. split; [reflexivity|]. split.
  - apply (proj1 (proj1 (fetch_friend_ids_termination three_pages_env 7 "token" w))).
    exists 3%nat. reflexivity.
  - split; [exact Hbusy|].
    exact (proj1 (proj2 (proj2 (fetch_friend_ids_termination busy 7 "token" w))) Hbusy).
Defined.

(** C10, on pages that always name a next page.  Every request is
    answered at once, none with a 429, and still the fetcher never
    returns. *)
Lemma endless_cursors_never_return :
  let e := env_answering (PageReply 200 (Page (Some [bare 1]) None (Some "next"))) in
  (forall n, is_429 (friends_response e n) = false)
  /\ (forall fuel, (fetch_friend_ids e fuel 7 "token" (world_with [])).1 = Timeout).
Proof.
  intros e. split; [done|]. intros fuel. rewrite fetch_friend_ids_unfold.
  assert ((fetch_loop e fuel 7 None []
             (set_console
                (console (world_with []) ++ [Log INFO "Fetching friend list..."])
                (world_with []))).1 = Timeout) as Hd
    by (by apply fetch_loop_diverges).
  by destruct (fetch_loop _ _ _ _ _ _) as [[l1|x|] w1].
Qed.

(** * Further properties of the script *)

(** ** The friend list in full *)

Lemma sleeps_app (t1 t2 : list event) : sleeps (t1 ++ t2) = sleeps t1 ++ sleeps t2.
Proof. apply omap_app. Qed.

Lemma count_429_S (e : env) (g n : nat) :
  count_429 e g (S n) =
  ((if is_429 (friends_response e g) then 1 else 0) + count_429 e (S g) n)%nat.
Proof.
  unfold count_429. cbn [seq]. rewrite filter_cons.
  destruct (is_429 (friends_response e g)); simpl; done.
Qed.

Lemma first_terminal_S (e : env) (g n : nat) :
  first_terminal e g (S n) -> first_terminal e (S g) n.
Proof.
  intros [Ht Hn]. split.
  - by replace (S g + n)%nat with (g + S n)%nat by lia.
  - intros j Hj. replace (S g + j)%nat with (g + S j)%nat by lia. apply Hn. lia.
Qed.

Section FriendList.

Variable e : env.

(** The pagination loop, from the first request to the first terminal
    response. *)
Lemma fetch_loop_run uid n :
  forall fuel c acc w,
    first_terminal e (gets w) n ->
    exists w',
      fetch_loop e (S n + fuel) uid c acc w =
        (Ret (acc ++ concat (map (items_at e) (seq (gets w) (S n)))), w')
      /\ gets w' = (gets w + S n)%nat
      /\ length (requests (console w')) = (length (requests (console w)) + S n)%nat
      /\ sleeps (console w') =
         sleeps (console w) ++ replicate (count_429 e (gets w) n) RATE_LIMIT_DELAY.
Proof.
  induction n as [|n IH]; intros fuel c acc w Hft.
  - destruct Hft as [Ht _]. rewrite Nat.add_0_r in Ht.
    cbn [seq map concat]. unfold items_at, count_429. cbn [seq filter length replicate].
    change (1 + fuel)%nat with (S fuel).
    destruct (friends_response e (gets w)) as [|code body] eqn:E.
    + rewrite (fetch_loop_connection e _ _ _ _ _ E). eexists. split; [by rewrite !app_nil_r|].
      unfold after. unfold_world. rewrite requests_app, sleeps_app, length_app. simpl.
      rewrite ?app_nil_r. repeat split; lia.
    + simpl in Ht. destruct (Z.eqb_spec code 200) as [->|H200].
      * apply negb_true_iff in Ht. rewrite (fetch_loop_last e _ _ _ _ _ _ E Ht).
        eexists. split; [by rewrite !app_nil_r|].
        unfold after. unfold_world. rewrite requests_app, sleeps_app, length_app. simpl.
        rewrite ?app_nil_r. repeat split; lia.
      * apply negb_true_iff, Z.eqb_neq in Ht.
        rewrite (fetch_loop_status e _ _ _ _ _ _ _ E H200 Ht).
        eexists. split; [by rewrite !app_nil_r|].
        unfold after. unfold_world. rewrite requests_app, sleeps_app, length_app. simpl.
        rewrite ?app_nil_r. repeat split; lia.
  - pose proof (first_terminal_S _ _ _ Hft) as Hft'.
    destruct Hft as [_ Hn]. specialize (Hn O ltac:(lia)). rewrite Nat.add_0_r in Hn.
    change (S (S n) + fuel)%nat with (S (S n + fuel)).
    rewrite count_429_S. cbn [seq map concat]. unfold items_at at 1.
    destruct (friends_response e (gets w)) as [|code body] eqn:E; [done|].
    simpl in Hn. destruct (Z.eqb_spec code 200) as [->|H200].
    + apply negb_false_iff in Hn. rewrite (fetch_loop_next e _ _ _ _ _ _ E Hn).
      destruct (IH fuel (NextCursor body) (acc ++ items_of body) (after [sent uid c] w))
        as (w' & Hrun & Hg & Hreq & Hsl); [done|].
      exists w'. rewrite Hrun, Hg, Hreq, Hsl. simpl.
      rewrite requests_app, sleeps_app, length_app, <- !app_assoc. simpl.
      rewrite ?app_nil_r. repeat split; lia.
    + apply negb_false_iff in Hn. rewrite fetch_loop_429 by (by rewrite E).
      destruct (IH fuel c acc (after (rate_limited_round uid c) w))
        as (w' & Hrun & Hg & Hreq & Hsl); [done|].
      unfold rate_limited_round in Hrun, Hg, Hreq, Hsl.
      exists w'. rewrite Hrun, Hg, Hreq, Hsl. simpl. rewrite Hn.
      rewrite requests_app, sleeps_app, length_app, <- !app_assoc. simpl.
      repeat split; lia.
Qed.

Lemma fetch_loop_short uid fuel :
  forall n c acc w,
    (fuel <= n)%nat ->
    (forall j, (j < n)%nat -> is_terminal (friends_response e (gets w + j)) = false) ->
    (fetch_loop e fuel uid c acc w).1 = Timeout.
Proof.
  induction fuel as [|fuel IH]; intros n c acc w Hle Hn; [done|].
  destruct n as [|n]; [lia|].
  destruct (fetch_loop_continues e uid c acc w) as (c' & acc' & w' & Hg & Hstep).
  { specialize (Hn O ltac:(lia)). by rewrite Nat.add_0_r in Hn. }
  rewrite Hstep. apply (IH n); [lia|]. intros j Hj. rewrite Hg.
  replace (S (gets w) + j)%nat with (gets w + S j)%nat by lia. apply Hn. lia.
Qed.

(** X1.  When response number [n] (counting from the next request) is the
    first terminal one, [fetch_friend_ids] needs exactly [n + 1] requests:
    with that much fuel it returns the items of every page answered with
    status 200 among them, in order, so what was gathered before an error
    is returned as the list; it sleeps [RATE_LIMIT_DELAY] once per 429;
    with less fuel it has not finished. *)
Theorem friend_list_in_full (uid : Z) (cookie : string) (w : world) (n : nat) :
  first_terminal e (gets w) n ->
  (forall fuel, exists w',
      fetch_friend_ids e (S n + fuel) uid cookie w =
        (Ret (Some (concat (map (items_at e) (seq (gets w) (S n))))), w')
      /\ gets w' = (gets w + S n)%nat
      /\ length (requests (console w')) = (length (requests (console w)) + S n)%nat
      /\ sleeps (console w') =
         sleeps (console w) ++ replicate (count_429 e (gets w) n) RATE_LIMIT_DELAY)
  /\ (forall fuel, (fuel <= n)%nat ->
        (fetch_friend_ids e fuel uid cookie w).1 = Timeout).
Proof.
  intros Hft. split.
  - intros fuel. rewrite fetch_friend_ids_unfold.
    set (w0 := set_console _ w).
    destruct (fetch_loop_run uid n fuel None [] w0 Hft) as (w' & Hrun & Hg & Hreq & Hsl).
    rewrite Hrun. eexists. split; [done|].
    change (gets (set_console ?c w')) with (gets w').
    change (console (set_console ?c w')) with c.
    rewrite requests_app, sleeps_app, length_app, Hg, Hreq, Hsl.
    change (gets w0) with (gets w).
    change (console w0) with (console w ++ [Log INFO "Fetching friend list..."]).
    rewrite requests_app, sleeps_app, length_app. simpl.
    rewrite !app_nil_r. repeat split; lia.
  - intros fuel Hle. rewrite fetch_friend_ids_unfold.
    set (w0 := set_console _ w).
    pose proof (fetch_loop_short uid fuel n None [] w0 Hle (proj2 Hft)) as Ht.
    by destruct (fetch_loop _ _ _ _ _ _) as [[l|x|] w1].
Qed.

End FriendList.

(** The first page arrives and the second request fails: the list is the
    first page. *)
Lemma friend_list_in_full_example :
  first_terminal broken_second_page_env (gets (world_with [])) 1
  /\ exists w',
       fetch_friend_ids broken_second_page_env 2 7 "token" (world_with []) =
         (Ret (Some [bare 1; bare 2]), w')
       /\ gets w' = 2%nat.
Proof.
  assert (first_terminal broken_second_page_env (gets (world_with [])) 1) as Hft.
  { split; [reflexivity|]. intros j Hj. destruct j; [reflexivity|lia]. }
  split; [exact Hft|].
  destruct (proj1 (friend_list_in_full broken_second_page_env 7 "token"
                     (world_with []) 1 Hft) O)
    as (w' & Hrun & Hg & _).
  exists w'. split; [exact Hrun|exact Hg].
Defined.

(** ** What a stage emits and what it leaves alone *)

Section EmitsOnly.

Variable ok : event -> bool.

Lemma emits_ret {A} (a : A) : emits_only ok (ret a).
Proof. intros w r w' [= <- <-]. exists []. by rewrite app_nil_r. Qed.

Lemma emits_raise {A} (x : exn) : emits_only ok (@raise A x).
Proof. intros w r w' [= <- <-]. exists []. by rewrite app_nil_r. Qed.

Lemma emits_bind {A B} (m : M A) (k : A -> M B) :
  emits_only ok m -> (forall a, emits_only ok (k a)) -> emits_only ok (bind m k).
Proof.
  intros Hm Hk w r w'. unfold bind.
  destruct (m w) as [[a|x|] w1] eqn:E; intros Hrun.
  - destruct (Hm _ _ _ E) as (evs1 & Hc1 & He1).
    destruct (Hk a _ _ _ Hrun) as (evs2 & Hc2 & He2).
    exists (evs1 ++ evs2). rewrite Hc2, Hc1, <- app_assoc.
    split; [done|]. by rewrite forallb_app, He1, He2.
  - injection Hrun as <- <-. by apply (Hm _ _ _ E).
  - injection Hrun as <- <-. by apply (Hm _ _ _ E).
Qed.

Lemma emits_emit (ev : event) : ok ev = true -> emits_only ok (emit ev).
Proof.
  intros Hev w r w' [= <- <-]. exists [ev]. split; [done|]. simpl. by rewrite Hev.
Qed.

Lemma emits_quiet {A} (f : world -> result A * world) :
  (forall w, console (f w).2 = console w) -> emits_only ok f.
Proof.
  intros Hf w r w' Hrun. exists []. rewrite app_nil_r.
  specialize (Hf w). rewrite Hrun in Hf. by split.
Qed.

Lemma emits_try_except {A} (m : M A) handled (h : M A) :
  emits_only ok m -> emits_only ok h -> emits_only ok (try_except m handled h).
Proof.
  intros Hm Hh w r w'. unfold try_except.
  destruct (m w) as [[a|x|] w1] eqn:E.
  - intros [= <- <-]. by apply (Hm _ _ _ E).
  - destruct (handled x).
    + intros Hrun. destruct (Hm _ _ _ E) as (evs1 & Hc1 & He1).
      destruct (Hh _ _ _ Hrun) as (evs2 & Hc2 & He2).
      exists (evs1 ++ evs2). rewrite Hc2, Hc1, <- app_assoc.
      split; [done|]. by rewrite forallb_app, He1, He2.
    + intros [= <- <-]. by apply (Hm _ _ _ E).
  - intros [= <- <-]. by apply (Hm _ _ _ E).
Qed.

Lemma emits_for_each {A S} (l : list A) (body : S -> A -> M S) :
  (forall s x, emits_only ok (body s x)) -> forall s, emits_only ok (for_each l body s).
Proof.
  intros Hb. induction l as [|x l IH]; intros s; [apply emits_ret|].
  cbn [for_each]. apply emits_bind; [apply Hb|]. intros s'. apply IH.
Qed.

End EmitsOnly.

Section Preserves.

Context {B : Type} (f : world -> B).
Hypothesis f_console : forall c w, f (set_console c w) = f w.

Lemma preserves_ret {A} (a : A) : preserves f (ret a).
Proof. by intros w r w' [= <- <-]. Qed.

Lemma preserves_raise {A} (x : exn) : preserves f (@raise A x).
Proof. by intros w r w' [= <- <-]. Qed.

Lemma preserves_bind {A C} (m : M A) (k : A -> M C) :
  preserves f m -> (forall a, preserves f (k a)) -> preserves f (bind m k).
Proof.
  intros Hm Hk w r w'. unfold bind.
  destruct (m w) as [[a|x|] w1] eqn:E; intros Hrun.
  - rewrite (Hk a _ _ _ Hrun). by apply (Hm _ _ _ E).
  - injection Hrun as <- <-. by apply (Hm _ _ _ E).
  - injection Hrun as <- <-. by apply (Hm _ _ _ E).
Qed.

Lemma preserves_emit (ev : event) : preserves f (emit ev).
Proof. intros w r w' [= <- <-]. apply f_console. Qed.

Lemma preserves_step {A} (h : world -> result A * world) :
  (forall w, f (h w).2 = f w) -> preserves f h.
Proof. intros Hh w r w' Hrun. specialize (Hh w). by rewrite Hrun in Hh. Qed.

Lemma preserves_try_except {A} (m : M A) handled (h : M A) :
  preserves f m -> preserves f h -> preserves f (try_except m handled h).
Proof.
  intros Hm Hh w r w'. unfold try_except.
  destruct (m w) as [[a|x|] w1] eqn:E.
  - intros [= <- <-]. by apply (Hm _ _ _ E).
  - destruct (handled x).
    + intros Hrun. rewrite (Hh _ _ _ Hrun). by apply (Hm _ _ _ E).
    + intros [= <- <-]. by apply (Hm _ _ _ E).
  - intros [= <- <-]. by apply (Hm _ _ _ E).
Qed.

Lemma preserves_for_each {A S} (l : list A) (body : S -> A -> M S) :
  (forall s x, preserves f (body s x)) -> forall s, preserves f (for_each l body s).
Proof.
  intros Hb. induction l as [|x l IH]; intros s; [apply preserves_ret|].
  cbn [for_each]. apply preserves_bind; [apply Hb|]. intros s'. apply IH.
Qed.

End Preserves.

Ltac emits_step :=
  first
    [ apply emits_ret
    | apply emits_raise
    | (apply emits_emit; reflexivity)
    | apply emits_try_except
    | apply emits_for_each
    | (apply emits_quiet; intros ?; reflexivity)
    | apply emits_bind
    | match goal with
      | |- forall _, _ => intro
      | |- emits_only _ (if ?b then _ else _) => destruct b
      | |- emits_only _ (match ?x with _ => _ end) => destruct x
      | |- emits_only _ (let '(_, _) := ?x in _) => destruct x
      | |- emits_only _ (let _ := _ in _) => cbv zeta
      end ].

Ltac preserves_step :=
  first
    [ apply preserves_ret
    | apply preserves_raise
    | (apply preserves_emit; done)
    | apply preserves_try_except
    | apply preserves_for_each
    | (apply preserves_step; intros ?; reflexivity)
    | apply preserves_bind
    | match goal with
      | |- forall _, _ => intro
      | |- preserves _ (if ?b then _ else _) => destruct b
      | |- preserves _ (match ?x with _ => _ end) => destruct x
      | |- preserves _ (let '(_, _) := ?x in _) => destruct x
      | |- preserves _ (let _ := _ in _) => cbv zeta
      end ].

Section Frames.

Variable e : env.

Lemma emits_load_cookie : emits_only cookie_event (load_cookie e).
Proof.
  unfold load_cookie, save_cookie_file, input, log, print, caught.
  apply emits_bind.
  { intros w r w'. unfold read_cookie_file.
    destruct (cookie_file w) as [[err|text]|].
    - revert w r w'. fold (emits_only (A:=option string) cookie_event).
      unfold log, caught. repeat emits_step.
    - destruct (String.eqb _ _); apply emits_ret.
    - apply (emits_ret _ None). }
  repeat emits_step.
  all: apply emits_quiet; intros w; by destruct (stdin w) as [|[] rest].
Qed.

Lemma emits_get_auth_user cookie : emits_only auth_event (get_auth_user e cookie).
Proof. unfold get_auth_user, log, caught. repeat emits_step. Qed.

Lemma emits_fetch_loop fuel uid :
  forall c acc, emits_only (friend_list_event uid) (fetch_loop e fuel uid c acc).
Proof.
  induction fuel as [|fuel IH]; intros c acc.
  - apply emits_quiet. done.
  - cbn [fetch_loop]. unfold get_friends_page, log, caught, sleep.
    apply emits_bind.
    { apply emits_bind; [|intros _; by apply emits_quiet].
      apply emits_emit. simpl. apply Z.eqb_refl. }
    repeat first [apply IH | emits_step].
Qed.

Lemma emits_fetch_friend_ids fuel uid cookie :
  emits_only (friend_list_event uid) (fetch_friend_ids e fuel uid cookie).
Proof.
  unfold fetch_friend_ids, log. repeat first [apply emits_fetch_loop | emits_step].
Qed.

Lemma emits_attempt_loop i batch attempts :
  forall m, emits_only detail_event (attempt_loop e i batch attempts m).
Proof.
  induction attempts as [|a rest IH]; intros m; [apply emits_ret|].
  cbn [attempt_loop]. unfold post_details, log, caught, sleep.
  repeat first [apply IH | emits_step].
Qed.

Lemma emits_fetch_user_details friends cookie username :
  emits_only detail_event (fetch_user_details e friends cookie username).
Proof.
  unfold fetch_user_details, batch_loop, log.
  destruct friends as [|f0 friends]; [apply emits_ret|].
  apply emits_bind; [by apply emits_emit|intros _].
  apply emits_bind.
  { intros w r w'. unfold load_local_history.
    destruct (snapshots w !! username) as [[err|l]|].
    - revert w r w'. fold (emits_only (A:=list entry) detail_event).
      unfold caught. repeat emits_step.
    - apply (emits_ret _ l).
    - apply (emits_ret _ []). }
  repeat first [apply emits_attempt_loop | emits_step].
Qed.

Lemma emits_analyze_changes current_list username :
  emits_only report_event (analyze_changes e current_list username).
Proof.
  unfold analyze_changes, log.
  destruct (_ && _); [by apply emits_emit|].
  intros w r w'. unfold compare_with_snapshot.
  destruct (snapshots w !! username) as [[err|old_list]|].
  - by apply emits_emit.
  - revert w r w'.
    fold (emits_only report_event (report_changes e old_list current_list username)).
    unfold report_changes, append_log, log, print, caught. repeat emits_step.
  - apply (emits_ret _ tt).
Qed.

Lemma emits_save_database friends username :
  emits_only store_event (save_database e friends username).
Proof.
  unfold save_database, write_json, write_csv, log, caught. repeat emits_step.
Qed.

End Frames.

Section Untouched.

Variable e : env.

Lemma preserves_load_cookie :
  preserves (fun w => (disk w, gets w, posts w)) (load_cookie e).
Proof.
  unfold load_cookie, save_cookie_file, input, log, print, caught.
  apply preserves_bind.
  { intros w r w'. unfold read_cookie_file.
    destruct (cookie_file w) as [[err|text]|].
    - revert w r w'.
      fold (preserves (A:=option string) (fun w => (disk w, gets w, posts w))).
      unfold log, caught. repeat preserves_step.
    - by destruct (String.eqb _ _); intros [= <- <-].
    - by intros [= <- <-]. }
  repeat preserves_step.
  all: apply preserves_step; intros w; by destruct (stdin w) as [|[] rest].
Qed.

Lemma preserves_get_auth_user cookie :
  preserves (fun w => (cookie_file w, disk w, stdin w, gets w, posts w))
            (get_auth_user e cookie).
Proof. unfold get_auth_user, log, caught. repeat preserves_step. Qed.

Lemma preserves_fetch_loop fuel uid :
  forall c acc,
    preserves (fun w => (cookie_file w, disk w, stdin w, posts w))
              (fetch_loop e fuel uid c acc).
Proof.
  induction fuel as [|fuel IH]; intros c acc.
  - by apply preserves_step.
  - cbn [fetch_loop]. unfold get_friends_page, log, caught, sleep.
    repeat first [apply IH | preserves_step].
Qed.

Lemma preserves_fetch_friend_ids fuel uid cookie :
  preserves (fun w => (cookie_file w, disk w, stdin w, posts w))
            (fetch_friend_ids e fuel uid cookie).
Proof.
  unfold fetch_friend_ids, log. repeat first [apply preserves_fetch_loop | preserves_step].
Qed.

Lemma preserves_attempt_loop i batch attempts :
  forall m,
    preserves (fun w => (cookie_file w, disk w, stdin w, gets w))
              (attempt_loop e i batch attempts m).
Proof.
  induction attempts as [|a rest IH]; intros m; [by apply preserves_ret|].
  cbn [attempt_loop]. unfold post_details, log, caught, sleep.
  repeat first [apply IH | preserves_step].
Qed.

Lemma preserves_fetch_user_details friends cookie username :
  preserves (fun w => (cookie_file w, disk w, stdin w, gets w))
            (fetch_user_details e friends cookie username).
Proof.
  unfold fetch_user_details, batch_loop, log.
  destruct friends as [|f0 friends]; [by apply preserves_ret|].
  apply preserves_bind; [by apply preserves_emit|intros _].
  apply preserves_bind.
  { intros w r w'. unfold load_local_history.
    by destruct (snapshots w !! username) as [[err|l]|]; intros [= <- <-]. }
  repeat first [apply preserves_attempt_loop | preserves_step].
Qed.

Lemma preserves_analyze_changes current_list username :
  preserves (fun w => (cookie_file w, snapshots w, exports w, stdin w, gets w, posts w))
            (analyze_changes e current_list username).
Proof.
  unfold analyze_changes, log.
  destruct (_ && _); [by apply preserves_emit|].
  intros w r w'. unfold compare_with_snapshot.
  destruct (snapshots w !! username) as [[err|old_list]|].
  - by intros [= <- <-].
  - revert w r w'.
    fold (preserves
            (fun w => (cookie_file w, snapshots w, exports w, stdin w, gets w, posts w))
            (report_changes e old_list current_list username)).
    unfold report_changes, append_log, log, print, caught. repeat preserves_step.
  - by intros [= <- <-].
Qed.

Lemma preserves_save_database friends username :
  preserves (fun w => (cookie_file w, logs w, stdin w, gets w, posts w))
            (save_database e friends username).
Proof.
  unfold save_database, write_json, write_csv, log, caught. repeat preserves_step.
Qed.

End Untouched.

Section Keeps.

Variable R : world -> world -> Prop.
Hypothesis R_refl : forall w, R w w.
Hypothesis R_trans : forall w1 w2 w3, R w1 w2 -> R w2 w3 -> R w1 w3.
Hypothesis R_console : forall c w, R w (set_console c w).

Lemma keeps_ret {A} (a : A) : keeps R (ret a).
Proof. intros w r w' [= <- <-]. apply R_refl. Qed.

Lemma keeps_raise {A} (x : exn) : keeps R (@raise A x).
Proof. intros w r w' [= <- <-]. apply R_refl. Qed.

Lemma keeps_bind {A C} (m : M A) (k : A -> M C) :
  keeps R m -> (forall a, keeps R (k a)) -> keeps R (bind m k).
Proof.
  intros Hm Hk w r w'. unfold bind.
  destruct (m w) as [[a|x|] w1] eqn:E; intros Hrun.
  - eapply R_trans; [by apply (Hm _ _ _ E)|by apply (Hk a _ _ _ Hrun)].
  - injection Hrun as <- <-. by apply (Hm _ _ _ E).
  - injection Hrun as <- <-. by apply (Hm _ _ _ E).
Qed.

Lemma keeps_emit (ev : event) : keeps R (emit ev).
Proof. intros w r w' [= <- <-]. apply R_console. Qed.

Lemma keeps_step {A} (h : world -> result A * world) :
  (forall w, R w (h w).2) -> keeps R h.
Proof. intros Hh w r w' Hrun. specialize (Hh w). by rewrite Hrun in Hh. Qed.

Lemma keeps_for_each {A S} (l : list A) (body : S -> A -> M S) :
  (forall s x, keeps R (body s x)) -> forall s, keeps R (for_each l body s).
Proof.
  intros Hb. induction l as [|x l IH]; intros s; [apply keeps_ret|].
  cbn [for_each]. apply keeps_bind; [apply Hb|]. intros s'. apply IH.
Qed.

End Keeps.

Lemma run_pair {A} (m : M A) (w : world) : m w = ((m w).1, (m w).2).
Proof. by destruct (m w). Qed.

Lemma log_grows_refl username w : log_grows username w w.
Proof. split; [exists []; by rewrite app_nil_r|done]. Qed.

Lemma log_grows_console username c w : log_grows username w (set_console c w).
Proof. split; [exists []; by rewrite app_nil_r|done]. Qed.

Lemma log_grows_trans username w1 w2 w3 :
  log_grows username w1 w2 -> log_grows username w2 w3 -> log_grows username w1 w3.
Proof.
  intros [[l1 H1] Ho1] [[l2 H2] Ho2]. split.
  - exists (l1 ++ l2). by rewrite H2, H1, app_assoc.
  - intros other Hne. by rewrite Ho2, Ho1.
Qed.

Lemma only_account_trans username w1 w2 w3 :
  only_account username w1 w2 -> only_account username w2 w3 ->
  only_account username w1 w3.
Proof.
  intros H1 H2 other Hne.
  destruct (H1 other Hne) as [Hs1 Hx1]. destruct (H2 other Hne) as [Hs2 Hx2].
  split; congruence.
Qed.

Section StageFrames.

Variable e : env.

Lemma keeps_analyze_changes current_list username :
  keeps (log_grows username) (analyze_changes e current_list username).
Proof.
  unfold analyze_changes, log.
  destruct (_ && _); [apply keeps_emit; apply log_grows_console|].
  intros w r w'. unfold compare_with_snapshot.
  destruct (snapshots w !! username) as [[err|old_list]|].
  - unfold caught. intros [= <- <-]. apply log_grows_console.
  - revert w r w'.
    fold (keeps (log_grows username)
            (report_changes e old_list current_list username)).
    unfold report_changes, append_log, log, print, caught.
    repeat first
      [ apply keeps_ret; apply log_grows_refl
      | apply keeps_emit; apply log_grows_console
      | apply keeps_for_each;
          [apply log_grows_refl|apply log_grows_trans|]
      | apply keeps_bind; [apply log_grows_trans|..]
      | match goal with
        | |- forall _, _ => intro
        | |- keeps _ (if ?b then _ else _) => destruct b
        | |- keeps _ (match ?x with _ => _ end) => destruct x
        | |- keeps _ (let _ := _ in _) => cbv zeta
        end ].
    all: apply keeps_step; intros w; split;
      [ eexists; unfold log_of at 1; simpl; by rewrite lookup_insert_eq
      | intros other Hne; simpl; by rewrite lookup_insert_ne ].
  - intros [= <- <-]. apply log_grows_refl.
Qed.

Lemma keeps_save_database friends username :
  keeps (only_account username) (save_database e friends username).
Proof.
  assert (forall w, only_account username w w) as Hrefl by done.
  unfold save_database, write_json, write_csv, log, caught.
  repeat first
    [ apply keeps_ret; apply Hrefl
    | apply keeps_raise; apply Hrefl
    | (apply keeps_emit; intros c w other Hne; done)
    | apply keeps_bind; [apply only_account_trans|..]
    | (apply keeps_step; intros w other Hne; simpl;
       rewrite ?lookup_insert_ne by done; done)
    | match goal with
      | |- forall _, _ => intro
      | |- keeps _ (if ?b then _ else _) => destruct b
      | |- keeps _ (match ?x with _ => _ end) => destruct x
      | |- keeps _ (let '(_, _) := ?x in _) => destruct x
      | |- keeps _ (let _ := _ in _) => cbv zeta
      end ].
Qed.

End StageFrames.

Section FrameTheorems.

Variable e : env.

(** X2.  Whatever the network answers and however much fuel there is,
    [fetch_friend_ids] touches no file and reads nothing from the console
    input; all it adds to the console are log lines, requests for the
    friends of the given user, and sleeps of [RATE_LIMIT_DELAY]. *)
Theorem fetch_friend_ids_touches_no_file fuel (uid : Z) (cookie : string) (w : world) :
  let w' := (fetch_friend_ids e fuel uid cookie w).2 in
  cookie_file w' = cookie_file w
  /\ snapshots w' = snapshots w /\ exports w' = exports w /\ logs w' = logs w
  /\ stdin w' = stdin w /\ posts w' = posts w
  /\ exists evs,
       console w' = console w ++ evs /\ forallb (friend_list_event uid) evs = true.
Proof.
  cbv zeta.
  pose proof (preserves_fetch_friend_ids e fuel uid cookie _ _ _
                (run_pair (fetch_friend_ids e fuel uid cookie) w)) as Hp.
  pose proof (emits_fetch_friend_ids e fuel uid cookie _ _ _
                (run_pair (fetch_friend_ids e fuel uid cookie) w)) as He.
  unfold disk in Hp. injection Hp as -> -> -> -> -> ->. by repeat split.
Qed.

(** X3.  [fetch_user_details] always returns, touches no file, reads
    nothing from the console input and sends no request other than posts
    to the detail endpoint. *)
Theorem fetch_user_details_touches_no_file friends (cookie username : string) (w : world) :
  let run := fetch_user_details e friends cookie username w in
  (exists final_list, run.1 = Ret final_list)
  /\ cookie_file run.2 = cookie_file w
  /\ snapshots run.2 = snapshots w /\ exports run.2 = exports w /\ logs run.2 = logs w
  /\ stdin run.2 = stdin w /\ gets run.2 = gets w
  /\ exists evs,
       console run.2 = console w ++ evs /\ forallb detail_event evs = true.
Proof.
  cbv zeta.
  pose proof (preserves_fetch_user_details e friends cookie username _ _ _
                (run_pair (fetch_user_details e friends cookie username) w)) as Hp.
  pose proof (emits_fetch_user_details e friends cookie username _ _ _
                (run_pair (fetch_user_details e friends cookie username) w)) as He.
  pose proof (raises_fetch_user_details e (fun _ => False) friends cookie username _ _ _
                (run_pair (fetch_user_details e friends cookie username) w)) as Hr.
  unfold disk in Hp. injection Hp as -> -> -> -> -> ->.
  split; [|by repeat split].
  destruct (fetch_user_details e friends cookie username w).1; [eauto|done..].
Qed.

(** X4.  [analyze_changes] always returns; the activity log of the account
    only grows by appended lines, and the logs of other accounts, every
    snapshot, every export and the cookie file stay as they were.  It
    sends no request and never sleeps or prompts. *)
Theorem activity_log_only_grows current_list (username : string) (w : world) :
  let run := analyze_changes e current_list username w in
  run.1 = Ret tt
  /\ (exists lines, log_of username run.2 = log_of username w ++ lines)
  /\ (forall other, other <> username -> logs run.2 !! other = logs w !! other)
  /\ cookie_file run.2 = cookie_file w
  /\ snapshots run.2 = snapshots w /\ exports run.2 = exports w
  /\ stdin run.2 = stdin w /\ gets run.2 = gets w /\ posts run.2 = posts w
  /\ exists evs,
       console run.2 = console w ++ evs /\ forallb report_event evs = true.
Proof.
  cbv zeta.
  pose proof (preserves_analyze_changes e current_list username _ _ _
                (run_pair (analyze_changes e current_list username) w)) as Hp.
  pose proof (emits_analyze_changes e current_list username _ _ _
                (run_pair (analyze_changes e current_list username) w)) as He.
  pose proof (keeps_analyze_changes e current_list username _ _ _
                (run_pair (analyze_changes e current_list username) w)) as [Hl Ho].
  pose proof (raises_analyze_changes e (fun _ => False) current_list username _ _ _
                (run_pair (analyze_changes e current_list username) w)) as Hr.
  injection Hp as -> -> -> -> -> ->.
  split; [|by repeat split].
  destruct (analyze_changes e current_list username w).1 as [[]| |]; done.
Qed.

(** X5.  [save_database] writes only the snapshot and the export of the
    account it is given: the files of other accounts, every activity log
    and the cookie file stay as they were.  It sends no request, and it
    either returns or raises [ValueError]. *)
Theorem save_database_writes_one_account friends (username : string) (w : world) :
  let run := save_database e friends username w in
  (run.1 = Ret tt \/ run.1 = Raise ValueError)
  /\ (forall other, other <> username ->
        snapshots run.2 !! other = snapshots w !! other
        /\ exports run.2 !! other = exports w !! other)
  /\ logs run.2 = logs w /\ cookie_file run.2 = cookie_file w
  /\ stdin run.2 = stdin w /\ gets run.2 = gets w /\ posts run.2 = posts w
  /\ exists evs,
       console run.2 = console w ++ evs /\ forallb store_event evs = true.
Proof.
  cbv zeta.
  pose proof (preserves_save_database e friends username _ _ _
                (run_pair (save_database e friends username) w)) as Hp.
  pose proof (emits_save_database e friends username _ _ _
                (run_pair (save_database e friends username) w)) as He.
  pose proof (keeps_save_database e friends username _ _ _
                (run_pair (save_database e friends username) w)) as Ho.
  pose proof (raises_save_database e friends username _ _ _
                (run_pair (save_database e friends username) w)) as Hr.
  injection Hp as -> -> -> -> ->.
  split; [|split; [exact Ho|by repeat split]].
  destruct (save_database e friends username w).1 as [[]|x|]; [by left| |done].
  right. by rewrite Hr.
Qed.

End FrameTheorems.

(** ** What the enricher does to a record *)

Lemma update_from_other (src f : entry) (k : string) :
  k ∉ detail_fields -> get k (update_from src f) = get k f.
Proof.
  intros Hk. unfold detail_fields in Hk.
  assert (k <> "name" /\ k <> "displayName" /\ k <> "hasVerifiedBadge") as (H1 & H2 & H3).
  { repeat split; intros ->; apply Hk;
      rewrite !elem_of_union, !elem_of_singleton; tauto. }
  unfold update_from, get. simpl.
  destruct (String.eqb k "id"); [done|].
  by rewrite !lookup_insert_ne.
Qed.

Lemma keys_update_from (src f : entry) :
  keys (update_from src f) = keys f ∪ detail_fields.
Proof.
  unfold keys, update_from, detail_fields. simpl. rewrite !dom_insert_L.
  apply set_eq. intros x. rewrite !elem_of_union, !elem_of_singleton. tauto.
Qed.

Section Enrichment.

Variable e : env.

(** X6.  The enricher returns the entries it was given, one for one and
    in the same order: no entry is dropped, added or moved, and no
    identifier changes.  Each final record is either the entry as it came
    or the entry with the three detail fields written; every other field
    of the entry is kept. *)
Theorem enrichment_keeps_the_list friends (cookie username : string) (w : world) :
  exists final_list w',
    fetch_user_details e friends cookie username w = (Ret final_list, w')
    /\ map id final_list = map id friends
    /\ forall i f g,
         friends !! i = Some f -> final_list !! i = Some g ->
         (forall k, k ∉ detail_fields -> get k g = get k f)
         /\ (g = f \/ keys g = keys f ∪ detail_fields).
Proof.
  destruct (fetch_user_details_merge e friends cookie username w)
    as (w1 & fetched & w2 & w' & _ & Hrun).
  rewrite merge_spec in Hrun. destruct Hrun as [Hrun _].
  eexists _, w'. split; [exact Hrun|]. split.
  - rewrite map_map. apply map_ext. intros f. unfold merged_entry.
    destruct (fetched !! id f); [done|].
    destruct (index_by_id (history username w) !! id f) as [l|]; [|done].
    by destruct (truthy (get "name" l)).
  - intros i f g Hf Hg. rewrite list_lookup_fmap, Hf in Hg. injection Hg as <-.
    unfold merged_entry.
    destruct (fetched !! id f) as [d|].
    { split; [intros k Hk; by apply update_from_other|right; apply keys_update_from]. }
    destruct (index_by_id (history username w) !! id f) as [l|]; [|by split; [|left]].
    destruct (truthy (get "name" l)); [|by split; [|left]].
    split; [intros k Hk; by apply update_from_other|right; apply keys_update_from].
Qed.

End Enrichment.

(** ** The cost of the detail lookup *)

Lemma total_wait_app (t1 t2 : list event) :
  total_wait (t1 ++ t2) = total_wait t1 + total_wait t2.
Proof.
  unfold total_wait. rewrite sleeps_app.
  induction (sleeps t1) as [|s l IH]; simpl; lia.
Qed.

Section DetailCost.

Variable e : env.

Lemma attempt_loop_cost i batch attempts :
  forall m w, exists m' w' evs,
    attempt_loop e i batch attempts m w = (Ret m', w')
    /\ console w' = console w ++ evs
    /\ (length (requests evs) <= length attempts)%nat
    /\ (attempts <> [] -> (1 <= length (requests evs))%nat)
    /\ 0 <= total_wait evs
       <= foldr Z.add 0 (map (fun a => (Z.of_nat a + 1) * RATE_LIMIT_DELAY) attempts).
Proof.
  induction attempts as [|a rest IH]; intros m w.
  - exists m, w, []. simpl. rewrite app_nil_r. repeat split; try done; lia.
  - cbn [attempt_loop]. unfold post_details. run_script.
    assert (0 <= foldr Z.add 0
                   (map (fun a => (Z.of_nat a + 1) * RATE_LIMIT_DELAY) rest)) as Hpos.
    { clear. induction rest as [|b rest IH]; simpl; [lia|].
      unfold RATE_LIMIT_DELAY in *. lia. }
    destruct (detail_response_of e (posts w)) as [|code body].
    + simpl. edestruct IH as (m' & w' & evs & -> & Hc & Hn & _ & Hw).
      exists m', w'. eexists (Send (PostDetails batch) :: Caught DetailConnectionError
                              :: Sleep 1 :: evs).
      split; [done|]. split; [rewrite Hc; unfold_world; by rewrite <- !app_assoc|].
      change (total_wait (_ :: _ :: Sleep 1 :: evs)) with (1 + total_wait evs).
      simpl. unfold RATE_LIMIT_DELAY in *. repeat split; lia.
    + destruct (Z.eqb code 200).
      { eexists _, _, [Send (PostDetails batch)]. split; [done|]. split; [done|].
        unfold total_wait. simpl. unfold RATE_LIMIT_DELAY in *. repeat split; lia. }
      destruct (Z.eqb code 429); simpl.
      * edestruct IH as (m' & w' & evs & -> & Hc & Hn & _ & Hw).
        exists m', w'.
        eexists (rate_limited_attempt i batch a ++ evs).
        split; [done|]. split.
        { rewrite Hc. unfold rate_limited_attempt. unfold_world.
          by rewrite <- !app_assoc. }
        rewrite total_wait_app, requests_app, length_app.
        change (total_wait (rate_limited_attempt i batch a))
          with ((Z.of_nat a + 1) * RATE_LIMIT_DELAY + 0).
        simpl. unfold RATE_LIMIT_DELAY in *. repeat split; lia.
      * eexists _, _, [Send (PostDetails batch); Caught DetailStatusError].
        split; [done|]. split; [unfold_world; by rewrite <- !app_assoc|].
        unfold total_wait. simpl. unfold RATE_LIMIT_DELAY in *. repeat split; lia.
Qed.

Lemma batch_loop_cost (user_ids : list Z) (w : world) :
  exists m w' evs,
    batch_loop e user_ids w = (Ret m, w')
    /\ console w' = console w ++ evs
    /\ (length (batches_of user_ids) <= length (requests evs)
        <= MAX_RETRIES * length (batches_of user_ids))%nat
    /\ 0 <= total_wait evs
       <= max_batch_wait * Z.of_nat (length (batches_of user_ids)).
Proof.
  unfold batch_loop, batches_of. rewrite length_map.
  generalize (range_step (length user_ids) BATCH_SIZE). intros offs.
  generalize (∅ : gmap Z entry). revert w.
  induction offs as [|i offs IH]; intros w m.
  - exists m, w, []. simpl. rewrite app_nil_r. repeat split; try done; lia.
  - cbn [for_each]. unfold bind at 1.
    destruct (attempt_loop_cost i (take BATCH_SIZE (drop i user_ids))
                (seq 0 MAX_RETRIES) m w)
      as (m1 & w1 & evs1 & Hrun & Hc1 & Hn1 & Hp1 & Hw1).
    rewrite Hrun. rewrite length_seq in Hn1.
    fold max_batch_wait in Hw1.
    destruct (IH w1 m1) as (m2 & w2 & evs2 & Hrun2 & Hc2 & Hn2 & Hw2).
    exists m2, w2, (evs1 ++ evs2). split; [done|].
    split; [by rewrite Hc2, Hc1, <- app_assoc|].
    rewrite requests_app, length_app, total_wait_app.
    specialize (Hp1 ltac:(done)). cbn [length].
    assert (max_batch_wait = 30) as Hmax by reflexivity.
    rewrite Hmax in *. unfold MAX_RETRIES in *. repeat split; lia.
Qed.

(** X7.  For [n] friends the enricher posts at least one request per
    batch of [BATCH_SIZE] and at most [MAX_RETRIES] per batch, and all its
    sleeps together last at most 30 seconds per batch. *)
Theorem detail_lookup_cost friends (cookie username : string) (w : world) :
  let batches := length (batches_of (map id friends)) in
  batches = ((length friends + BATCH_SIZE - 1) / BATCH_SIZE)%nat
  /\ exists evs,
       console (fetch_user_details e friends cookie username w).2 = console w ++ evs
       /\ (batches <= length (requests evs) <= MAX_RETRIES * batches)%nat
       /\ 0 <= total_wait evs <= 30 * Z.of_nat batches.
Proof.
  cbv zeta. split; [by rewrite length_batches_of, length_map|].
  unfold fetch_user_details. destruct friends as [|f0 friends].
  { exists []. simpl. rewrite app_nil_r. repeat split; try done; lia. }
  set (fr := f0 :: friends). run_script.
  set (w0 := set_console _ w).
  destruct (load_local_history_spec username w0) as (w1 & Hh & _ & _ & Hreq1).
  rewrite Hh.
  assert (exists evs1, console w1 = console w ++ evs1
                       /\ requests evs1 = [] /\ total_wait evs1 = 0)
    as (evs1 & Hc1 & Hr1 & Hw1).
  { revert Hh. unfold load_local_history.
    destruct (snapshots w0 !! username) as [[err|l]|]; run_script;
      intros [= _ <-]; eexists; (split; [unfold w0; unfold_world;
        try rewrite <- app_assoc; reflexivity|]); done. }
  destruct (batch_loop_cost (map id fr) w1) as (m & w2 & evs2 & Hb & Hc2 & Hn2 & Hw2).
  change (map id fr) with (id f0 :: map id friends) in Hb. rewrite Hb.
  destruct (merge m (index_by_id (history username w0)) fr) as [final recovered].
  change (map id fr) with (id f0 :: map id friends) in Hn2, Hw2.
  assert (max_batch_wait = 30) as Hmax by reflexivity. rewrite Hmax in Hw2.
  unfold MAX_RETRIES in Hn2.
  destruct (0 <? recovered)%nat; simpl.
  - eexists (evs1 ++ evs2 ++ [Log WARN _]).
    split; [rewrite Hc2, Hc1, <- !app_assoc; reflexivity|].
    rewrite !requests_app, !length_app, !total_wait_app, Hr1, Hw1. simpl.
    change (total_wait [Log WARN _]) with 0. repeat split; lia.
  - exists (evs1 ++ evs2).
    split; [by rewrite Hc2, Hc1, <- !app_assoc|].
    rewrite !requests_app, !length_app, !total_wait_app, Hr1, Hw1. simpl.
    repeat split; lia.
Qed.

End DetailCost.

(** ** One batch, attempt by attempt *)

Lemma map_seq_S {A} (F : nat -> A) (k : nat) :
  map F (seq 0 (S k)) = F O :: map (fun j => F (S j)) (seq 0 k).
Proof. cbn [seq map]. by rewrite <- seq_shift, map_map. Qed.

Section Attempts.

Variable e : env.

Lemma attempt_loop_trace i batch len :
  forall a k m w,
    (k <= len)%nat ->
    (forall j, (j < k)%nat -> retryable (detail_response_of e (posts w + j)) = true) ->
    ((k < len)%nat -> retryable (detail_response_of e (posts w + k)) = false) ->
    exists w',
      attempt_loop e i batch (seq a len) m w =
        (Ret (if (k <? len)%nat then stored_by (detail_response_of e (posts w + k)) m
              else m), w')
      /\ posts w' = (posts w + Nat.min (S k) len)%nat
      /\ sleeps (console w') =
         sleeps (console w)
         ++ map (fun j => wait_after (detail_response_of e (posts w + j)) (a + j))
                (seq 0 k).
Proof.
  induction len as [|len IH]; intros a k m w Hk Hretry Hstop.
  - assert (k = O) as -> by lia. exists w. simpl. rewrite app_nil_r.
    repeat split; lia.
  - cbn [seq attempt_loop]. unfold post_details. run_script.
    destruct k as [|k].
    + specialize (Hstop ltac:(lia)). rewrite Nat.add_0_r in *.
      cbn [Nat.ltb Nat.leb seq map]. rewrite app_nil_r.
      destruct (detail_response_of e (posts w)) as [|code body]; [done|].
      simpl in Hstop. rewrite Hstop. simpl.
      destruct (Z.eqb code 200); eexists; (split; [done|]); unfold_world;
        unfold sleeps; rewrite ?omap_app; simpl; rewrite ?app_nil_r;
        split; (done || lia).
    + pose proof (Hretry O ltac:(lia)) as H0. rewrite Nat.add_0_r in H0.
      change (S k <? S len)%nat with (k <? len)%nat.
      rewrite map_seq_S. rewrite !Nat.add_0_r.
      destruct (detail_response_of e (posts w)) as [|code body] eqn:E.
      * simpl.
        edestruct (IH (S a) k m) as (w' & -> & Hp & Hs).
        { lia. }
        { intros j Hj. simpl. replace (S (posts w + j)) with (posts w + S j)%nat by lia.
          apply Hretry. lia. }
        { intros Hlt. simpl. replace (S (posts w + k)) with (posts w + S k)%nat by lia.
          apply Hstop. lia. }
        simpl in Hp, Hs. exists w'. unfold_world.
        replace (S (posts w + k)) with (posts w + S k)%nat by lia.
        split; [done|]. split; [lia|].
        rewrite Hs. unfold sleeps. rewrite !omap_app. simpl.
        rewrite <- !app_assoc. simpl. do 2 f_equal.
        apply map_ext. intros j. f_equal; [f_equal; lia|lia].
      * simpl in H0. apply Z.eqb_eq in H0 as ->. simpl.
        edestruct (IH (S a) k m) as (w' & -> & Hp & Hs).
        { lia. }
        { intros j Hj. simpl. replace (S (posts w + j)) with (posts w + S j)%nat by lia.
          apply Hretry. lia. }
        { intros Hlt. simpl. replace (S (posts w + k)) with (posts w + S k)%nat by lia.
          apply Hstop. lia. }
        simpl in Hp, Hs. exists w'. unfold_world.
        replace (S (posts w + k)) with (posts w + S k)%nat by lia.
        split; [done|]. split; [lia|].
        rewrite Hs. unfold sleeps. rewrite !omap_app. simpl.
        rewrite <- !app_assoc. simpl. do 2 f_equal.
        apply map_ext. intros j. f_equal; [f_equal; lia|lia].
Qed.

(** X8.  A batch is posted until a response is neither a 429 nor a
    connection error, or until [MAX_RETRIES] posts have been made.  When
    the first [k] responses are of these two kinds, the loop sleeps after
    each of them, [(attempt + 1) * RATE_LIMIT_DELAY] after a 429 and one
    second after a connection error; the response that ends the attempts
    is stored when its status is 200 and dropped otherwise; when all
    [MAX_RETRIES] attempts are used up the map is left as it was. *)
Theorem one_batch_attempt_by_attempt i batch (m : gmap Z entry) (w : world) (k : nat) :
  (k <= MAX_RETRIES)%nat ->
  (forall j, (j < k)%nat -> retryable (detail_response_of e (posts w + j)) = true) ->
  ((k < MAX_RETRIES)%nat -> retryable (detail_response_of e (posts w + k)) = false) ->
  exists w',
    attempt_loop e i batch (seq 0 MAX_RETRIES) m w =
      (Ret (if (k <? MAX_RETRIES)%nat
            then stored_by (detail_response_of e (posts w + k)) m
            else m), w')
    /\ posts w' = (posts w + Nat.min (S k) MAX_RETRIES)%nat
    /\ sleeps (console w') =
       sleeps (console w)
       ++ map (fun j => wait_after (detail_response_of e (posts w + j)) j) (seq 0 k).
Proof.
  intros Hk Hretry Hstop.
  exact (attempt_loop_trace i batch MAX_RETRIES O k m w Hk Hretry Hstop).
Qed.

End Attempts.

(** The detail endpoint cannot be reached: three posts, a second of sleep
    after each, and nothing stored. *)
Lemma one_batch_unreachable :
  (3 <= MAX_RETRIES)%nat
  /\ exists w',
       attempt_loop unreachable_details_env 0 [1; 2] (seq 0 MAX_RETRIES) ∅ (world_with [])
         = (Ret ∅, w')
       /\ posts w' = 3%nat
       /\ sleeps (console w') = [1; 1; 1].
Proof.
  assert (3 <= MAX_RETRIES)%nat as Hk by (unfold MAX_RETRIES; lia).
  split; [exact Hk|].
  destruct (one_batch_attempt_by_attempt unreachable_details_env 0 [1; 2] ∅
              (world_with []) 3 Hk)
    as (w' & Hrun & Hp & Hs).
  - intros j Hj. reflexivity.
  - unfold MAX_RETRIES. lia.
  - exists w'. split; [exact Hrun|]. split; [exact Hp|exact Hs].
Defined.

(** ** The records behind a reported change *)


Section NothingToCompare.

Variable e : env.

(** X10.  When the account has no snapshot yet, or its snapshot cannot
    be read, the analyzer reports nothing and appends nothing to the
    activity log, whatever the current list is. *)
Theorem nothing_to_compare_with current_list (username : string) (w : world) :
  (forall old_list, snapshots w !! username <> Some (Holds old_list)) ->
  let run := analyze_changes e current_list username w in
  run.1 = Ret tt
  /\ prints (console run.2) = prints (console w)
  /\ logs run.2 = logs w
  /\ forall lv msg, Log lv msg ∈ console run.2 ->
       Log lv msg ∈ console w \/
       (lv = SKIP /\ msg = "Too many missing names. Skipping analysis.").
Proof.
  intros Hno. cbv zeta. unfold analyze_changes.
  destruct (_ && _).
  - unfold log, emit. simpl. rewrite prints_app. simpl. rewrite app_nil_r.
    repeat split; try done. intros lv msg [Hin|Hin%list_elem_of_singleton]%elem_of_app.
    + by left.
    + injection Hin as -> ->. by right.
  - unfold compare_with_snapshot.
    destruct (snapshots w !! username) as [[err|old_list]|] eqn:E.
    + unfold caught, emit. simpl. rewrite prints_app. simpl. rewrite app_nil_r.
      repeat split; try done.
      intros lv msg [Hin|Hin%list_elem_of_singleton]%elem_of_app; [by left|done].
    + by destruct (Hno old_list).
    + simpl. repeat split; try done. intros lv msg Hin. by left.
Qed.

End NothingToCompare.

Lemma nothing_to_compare_with_example :
  (forall old_list, snapshots world_unreadable !! "alice" <> Some (Holds old_list))
  /\ (analyze_changes quiet_env [mk 1 "a"] "alice" world_unreadable).1 = Ret tt
  /\ logs (analyze_changes quiet_env [mk 1 "a"] "alice" world_unreadable).2
     = logs world_unreadable.
Proof.
  assert (forall old_list, snapshots world_unreadable !! "alice" <> Some (Holds old_list))
    as Hno by (intros old_list; vm_compute; discriminate).
  split; [exact Hno|].
  destruct (nothing_to_compare_with quiet_env [mk 1 "a"] "alice" world_unreadable Hno)
    as (Hr & _ & Hl & _).
  split; [exact Hr|exact Hl].
Defined.

(** ** From one run to the next *)

Lemma removed_ids_same (l : list entry) : removed_ids l l = ∅.
Proof. unfold removed_ids. apply difference_diag_L. Qed.

Lemma added_ids_same (l : list entry) : added_ids l l = ∅.
Proof. unfold added_ids. apply difference_diag_L. Qed.

Section NextRun.

Variable e : env.

Lemma save_database_snapshot friends username w :
  friends <> [] -> (nameless_fraction friends <= 2 # 10)%Q ->
  json_write_fails e = false ->
  snapshots (save_database e friends username w).2 =
  <[username := Holds friends]> (snapshots w).
Proof.
  intros Hne Hq Hj. rewrite save_database_writes by done.
  unfold write_json, write_csv. rewrite Hj.
  destruct (csv_write_fails e); [by destruct (csv_write_failure e)|].
  destruct (writerows _ _) as [written []]; done.
Qed.

(** X11.  After a save that passed the guard and wrote the snapshot, the
    snapshot holds the saved list, and an analysis of the same list, in
    this run or a later one, finds no change: it logs "No changes
    detected." and appends nothing. *)
Theorem saved_list_shows_no_change (later : env) friends (username : string) (w : world) :
  friends <> [] -> (nameless_fraction friends <= 2 # 10)%Q ->
  json_write_fails e = false ->
  let w1 := (save_database e friends username w).2 in
  snapshots w1 !! username = Some (Holds friends)
  /\ history username w1 = friends
  /\ analyze_changes later friends username w1 =
     (Ret tt, emitted [Log INFO "No changes detected."] w1).
Proof.
  intros Hne Hq Hj w1.
  assert (snapshots w1 !! username = Some (Holds friends)) as Hs.
  { unfold w1. rewrite save_database_snapshot by done. apply lookup_insert_eq. }
  split; [done|]. split; [unfold history; by rewrite Hs|].
  rewrite analyze_changes_proceeds.
  - unfold compare_with_snapshot. rewrite Hs.
    apply report_changes_same; [apply removed_ids_same|apply added_ids_same].
  - right. eapply Qle_trans; [exact Hq|]. done.
Qed.

End NextRun.

Lemma saved_list_shows_no_change_example :
  one_in_five <> []
  /\ (nameless_fraction one_in_five <= 2 # 10)%Q
  /\ json_write_fails quiet_env = false
  /\ analyze_changes one_friend_env one_in_five "alice"
       (save_database quiet_env one_in_five "alice" empty_world).2
     = (Ret tt,
        emitted [Log INFO "No changes detected."]
          (save_database quiet_env one_in_five "alice" empty_world).2).
Proof.
  assert (one_in_five <> []) as Hne by discriminate.
  assert (nameless_fraction one_in_five <= 2 # 10)%Q as Hq
    by (vm_compute; discriminate).
  split; [exact Hne|]. split; [exact Hq|]. split; [reflexivity|].
  exact (proj2 (proj2 (saved_list_shows_no_change quiet_env one_friend_env one_in_five
                         "alice" empty_world Hne Hq eq_refl))).
Defined.

Section Recovery.

Variable e : env.

Hypothesis no_detail :
  forall n code body, detail_response_of e n = DetailReply code body -> code <> 200.

Lemma attempt_loop_no_200 i batch attempts :
  forall m w, exists w', attempt_loop e i batch attempts m w = (Ret m, w').
Proof.
  induction attempts as [|a rest IH]; intros m w; [by exists w|].
  cbn [attempt_loop]. unfold post_details. run_script.
  destruct (detail_response_of e (posts w)) as [|code body] eqn:E.
  - simpl. apply IH.
  - destruct (Z.eqb_spec code 200) as [->|Hne]; [by destruct (no_detail _ _ _ E)|].
    destruct (Z.eqb code 429); simpl; [apply IH|eauto].
Qed.

Lemma batch_loop_no_200 (user_ids : list Z) (w : world) :
  exists w', batch_loop e user_ids w = (Ret ∅, w').
Proof.
  unfold batch_loop. generalize (range_step (length user_ids) BATCH_SIZE).
  intros offs. generalize (∅ : gmap Z entry). revert w.
  induction offs as [|i offs IH]; intros w m; [by exists w|].
  cbn [for_each]. unfold bind at 1.
  destruct (attempt_loop_no_200 i (take BATCH_SIZE (drop i user_ids))
              (seq 0 MAX_RETRIES) m w) as [w1 ->].
  apply IH.
Qed.

(** X12.  When no detail request is answered with status 200, the
    enricher still returns a list, and every entry whose identifier has a
    record with a non-empty name in a snapshot without repeated
    identifiers gets the name, displayName and hasVerifiedBadge of that
    record. *)
Theorem saved_names_are_recovered raw (cookie username : string) (w : world) saved :
  snapshots w !! username = Some (Holds saved) ->
  NoDup (map id saved) ->
  exists final_list w',
    fetch_user_details e raw cookie username w = (Ret final_list, w')
    /\ length final_list = length raw
    /\ forall i f s,
         raw !! i = Some f -> s ∈ saved -> id s = id f ->
         truthy (get "name" s) = true ->
         final_list !! i = Some (update_from s f)
         /\ get "name" (update_from s f) = get "name" s
         /\ get "displayName" (update_from s f) = get "displayName" s
         /\ get "hasVerifiedBadge" (update_from s f) = get "hasVerifiedBadge" s.
Proof.
  intros Hs Hnd.
  destruct (fetch_user_details_merge e raw cookie username w)
    as (w1 & fetched & w2 & w' & Hb & Hrun).
  destruct (batch_loop_no_200 (map id raw) w1) as [w2' Hb'].
  rewrite Hb' in Hb. injection Hb as <- <-.
  rewrite merge_spec in Hrun. destruct Hrun as [Hrun _].
  eexists _, w'. split; [exact Hrun|]. split; [by rewrite length_map|].
  intros i f s Hf Hin Hid Hname.
  destruct (update_from_fields s f) as (_ & ? & ? & ?).
  split; [|done].
  rewrite list_lookup_fmap, Hf. simpl. f_equal.
  unfold merged_entry. rewrite lookup_empty.
  assert (history username w = saved) as -> by (unfold history; by rewrite Hs).
  rewrite <- Hid, (index_by_id_lookup saved s Hnd Hin). by rewrite Hname.
Qed.

End Recovery.

Lemma saved_names_are_recovered_example :
  let w := world_with [mk 1 "a"; mk 2 "b"] in
  (forall n code body,
      detail_response_of unreachable_details_env n = DetailReply code body -> code <> 200)
  /\ snapshots w !! "alice" = Some (Holds [mk 1 "a"; mk 2 "b"])
  /\ NoDup (map id [mk 1 "a"; mk 2 "b"])
  /\ exists final_list w',
       fetch_user_details unreachable_details_env [bare 2; bare 1] "token" "alice" w
         = (Ret final_list, w')
       /\ final_list !! O = Some (update_from (mk 2 "b") (bare 2)).
Proof.
  intros w.
  assert (forall n code body,
             detail_response_of unreachable_details_env n = DetailReply code body ->
             code <> 200) as Hno by (intros n code body H; discriminate H).
  assert (snapshots w !! "alice" = Some (Holds [mk 1 "a"; mk 2 "b"])) as Hs
    by (vm_compute; reflexivity).
  assert (NoDup (map id [mk 1 "a"; mk 2 "b"])) as Hnd
    by (apply (bool_decide_unpack _); vm_compute; reflexivity).
  split; [exact Hno|]. split; [exact Hs|]. split; [exact Hnd|].
  destruct (saved_names_are_recovered unreachable_details_env Hno [bare 2; bare 1]
              "token" "alice" w [mk 1 "a"; mk 2 "b"] Hs Hnd)
    as (final_list & w' & Hrun & _ & Hrec).
  exists final_list, w'. split; [exact Hrun|].
  apply (Hrec O (bare 2) (mk 2 "b")).
  - reflexivity.
  - apply list_elem_of_In. simpl. tauto.
  - reflexivity.
  - reflexivity.
Defined.

(** ** The export and the first record *)

Lemma writerows_misfit (header : gset string) (written rest : list entry) (r : entry) :
  Forall (fun x => keys x ⊆ header) written ->
  ~ keys r ⊆ header ->
  writerows header (written ++ r :: rest) = (written, false).
Proof.
  intros Hfit Hr. induction Hfit as [|x l Hx _ IH]; simpl.
  - by rewrite decide_False.
  - rewrite decide_True by done. by rewrite IH.
Qed.

Section CsvExport.

Variable e : env.

(** X13.  The export takes its columns from the first record.  When the
    guard has passed and a later record has a field that the first record
    lacks, the script stops with an uncaught [ValueError]: the snapshot has
    already been written, the export holds only the rows before that
    record, and "Database updated." is not logged. *)
Theorem export_stops_at_first_misfit friends (username : string) (w : world)
    written r rest :
  (nameless_fraction friends <= 2 # 10)%Q ->
  csv_write_fails e = false ->
  friends = written ++ r :: rest ->
  Forall (fun x => keys x ⊆ keys (friends !!! O)) written ->
  ~ keys r ⊆ keys (friends !!! O) ->
  let run := save_database e friends username w in
  run.1 = Raise ValueError
  /\ exports run.2 !! username = Some (Csv (keys (friends !!! O)) written)
  /\ (json_write_fails e = false -> snapshots run.2 !! username = Some (Holds friends))
  /\ exists evs,
       console run.2 = console w ++ evs
       /\ Log INFO "Database updated." ∉ evs.
Proof.
  intros Hq Hcsv Hsplit Hfit Hr. cbv zeta.
  assert (friends <> []) as Hne by (rewrite Hsplit; by destruct written).
  rewrite save_database_writes by done.
  unfold write_json, write_csv. rewrite Hcsv.
  pose proof (writerows_misfit _ written rest r Hfit Hr) as Hw.
  rewrite <- Hsplit in Hw. rewrite Hw.
  destruct (json_write_fails e);
    [destruct (json_write_failure e) as [|remains]|]; run_script.
  - split; [done|]. split; [by rewrite lookup_insert_eq|]. split; [done|].
    eexists. split; [by rewrite <- app_assoc|].
    intros Hin. apply list_elem_of_In in Hin. simpl in Hin.
    destruct Hin as [?|[?|[]]]; discriminate.
  - split; [done|]. split; [by rewrite lookup_insert_eq|]. split; [done|].
    eexists. split; [by rewrite <- app_assoc|].
    intros Hin. apply list_elem_of_In in Hin. simpl in Hin.
    destruct Hin as [?|[?|[]]]; discriminate.
  - split; [done|]. split; [by rewrite lookup_insert_eq|].
    split; [intros _; by rewrite lookup_insert_eq|].
    exists []. split; [by rewrite app_nil_r|]. apply not_elem_of_nil.
Qed.

(** X14.  The two guards are nested: a list whose analysis is skipped is
    never saved.  With more than half of the records nameless the two
    stages leave every file as it was and only log that they skip and
    abort. *)
Theorem skipped_analysis_is_not_saved current_list (username : string) (w : world) :
  current_list <> [] ->
  (5 # 10 < nameless_fraction current_list)%Q ->
  let w1 := (analyze_changes e current_list username w).2 in
  let run := save_database e current_list username w1 in
  run.1 = Ret tt
  /\ snapshots run.2 = snapshots w /\ exports run.2 = exports w /\ logs run.2 = logs w
  /\ console run.2 =
     console w
     ++ [Log SKIP "Too many missing names. Skipping analysis.";
         Log PROTECTION "Data corruption detected (names missing). Aborting save."].
Proof.
  intros Hne Hq. cbv zeta.
  rewrite analyze_changes_skips by done. simpl.
  rewrite save_database_aborts; [|done|].
  - simpl. by rewrite <- app_assoc.
  - eapply Qle_lt_trans; [|exact Hq]. done.
Qed.

End CsvExport.

Lemma export_stops_at_first_misfit_example :
  (nameless_fraction first_bare <= 2 # 10)%Q
  /\ (save_database quiet_env first_bare "alice" empty_world).1 = Raise ValueError
  /\ exports (save_database quiet_env first_bare "alice" empty_world).2 !! "alice"
     = Some (Csv (keys (bare 1)) [bare 1])
  /\ snapshots (save_database quiet_env first_bare "alice" empty_world).2 !! "alice"
     = Some (Holds first_bare).
Proof.
  assert (nameless_fraction first_bare <= 2 # 10)%Q as Hq by (vm_compute; discriminate).
  split; [exact Hq|].
  destruct (export_stops_at_first_misfit quiet_env first_bare "alice" empty_world
              [bare 1] (mk 2 "b") [mk 3 "c"; mk 4 "d"; mk 5 "e"] Hq eq_refl eq_refl)
    as (Hr & Hx & Hs & _).
  - apply (bool_decide_unpack _). vm_compute. reflexivity.
  - apply (bool_decide_unpack _). vm_compute. reflexivity.
  - split; [exact Hr|]. split; [exact Hx|exact (Hs eq_refl)].
Defined.

Lemma skipped_analysis_is_not_saved_example :
  [bare 1; bare 2; mk 3 "c"] <> []
  /\ (5 # 10 < nameless_fraction [bare 1; bare 2; mk 3 "c"])%Q
  /\ snapshots (save_database quiet_env [bare 1; bare 2; mk 3 "c"] "alice"
                  (analyze_changes quiet_env [bare 1; bare 2; mk 3 "c"] "alice"
                     (world_with [mk 9 "z"])).2).2
     = snapshots (world_with [mk 9 "z"]).
Proof.
  assert ([bare 1; bare 2; mk 3 "c"] <> []) as Hne by discriminate.
  assert (5 # 10 < nameless_fraction [bare 1; bare 2; mk 3 "c"])%Q as Hq
    by (vm_compute; reflexivity).
  split; [exact Hne|]. split; [exact Hq|].
  exact (proj1 (proj2 (skipped_analysis_is_not_saved quiet_env
                         [bare 1; bare 2; mk 3 "c"] "alice" (world_with [mk 9 "z"])
                         Hne Hq))).
Defined.

(** ** The cookie *)

Lemma append_cons (a : ascii) (s t : string) :
  String a s +:+ t = String a (s +:+ t).
Proof. reflexivity. Qed.

Lemma string_app_empty_r (s : string) : s +:+ "" = s.
Proof. induction s as [|a s IH]; [done|]. by rewrite append_cons, IH. Qed.

Lemma string_app_assoc (s t u : string) : (s +:+ t) +:+ u = s +:+ (t +:+ u).
Proof. induction s as [|a s IH]; [done|]. by rewrite !append_cons, IH. Qed.

Lemma string_app_length (s t : string) :
  String.length (s +:+ t) = (String.length s + String.length t)%nat.
Proof. induction s as [|a s IH]; [done|]. rewrite append_cons. simpl. by rewrite IH. Qed.

Lemma rev_app_rev_app (s t u : string) :
  String.rev_app (String.rev_app s t) u = String.rev_app t (s +:+ u).
Proof.
  revert t u. induction s as [|a s IH]; intros t u; [done|].
  rewrite append_cons. simpl. by rewrite IH.
Qed.

Lemma string_rev_involutive (s : string) : String.rev (String.rev s) = s.
Proof.
  unfold String.rev. rewrite rev_app_rev_app. simpl. apply string_app_empty_r.
Qed.

Lemma rev_app_acc (s acc : string) :
  String.rev_app s acc = String.rev_app s "" +:+ acc.
Proof.
  revert acc. induction s as [|a s IH]; intros acc; [done|].
  simpl. rewrite (IH (String a acc)), (IH (String a "")).
  by rewrite string_app_assoc.
Qed.

Lemma string_rev_app (s t : string) :
  String.rev (s +:+ t) = String.rev t +:+ String.rev s.
Proof.
  unfold String.rev. induction s as [|a s IH].
  - simpl. by rewrite string_app_empty_r.
  - rewrite append_cons. simpl.
    rewrite (rev_app_acc (s +:+ t)), IH, (rev_app_acc s (String a "")).
    by rewrite string_app_assoc.
Qed.

Lemma string_rev_length (s : string) : String.length (String.rev s) = String.length s.
Proof.
  induction s as [|a s IH]; [done|].
  change (String a s) with (String a "" +:+ s).
  rewrite string_rev_app, !string_app_length, IH. simpl. lia.
Qed.

(** A text starts with [p] exactly when [strip_prefix] finds what follows. *)
Lemma strip_prefix_Some (p s r : string) :
  strip_prefix p s = Some r <-> s = p +:+ r.
Proof.
  revert s. induction p as [|a p IH]; intros s; simpl.
  - split; [by intros [= ->]|by intros ->].
  - destruct s as [|b s]; [done|]. rewrite append_cons.
    destruct (Ascii.eqb_spec a b) as [->|Hne].
    + rewrite IH. split; [by intros ->|by intros [= ->]].
    + split; [done|]. intros [= ? ?]. by destruct Hne.
Qed.

Section Chars.

Variable chars : list string.
Hypothesis chars_nonempty : Forall (fun c => c <> "") chars.

Lemma drop_char_Some (s r : string) :
  drop_char chars s = Some r -> exists c, c ∈ chars /\ s = c +:+ r.
Proof.
  clear chars_nonempty. induction chars as [|c l IH]; [done|]. simpl.
  destruct (strip_prefix c s) as [r'|] eqn:E.
  - intros [= ->]. exists c. split; [apply list_elem_of_here|].
    by apply strip_prefix_Some.
  - intros (c' & Hin & Hs)%IH. exists c'. split; [by apply list_elem_of_further|done].
Qed.

Lemma drop_char_None (s : string) :
  drop_char chars s = None <-> forall c r, c ∈ chars -> s <> c +:+ r.
Proof.
  clear chars_nonempty. induction chars as [|c l IH]; simpl.
  - split; [|done]. intros _ c r Hin. by apply elem_of_nil in Hin.
  - destruct (strip_prefix c s) as [r'|] eqn:E.
    + split; [done|]. intros H. exfalso.
      apply (H c r'); [apply list_elem_of_here|by apply strip_prefix_Some].
    + rewrite IH. split.
      * intros H c' r [->|Hin]%elem_of_cons; [|by apply H].
        intros Hs. apply strip_prefix_Some in Hs. congruence.
      * intros H c' r Hin. apply H. by apply list_elem_of_further.
Qed.

Lemma drop_char_shorter (s r : string) :
  drop_char chars s = Some r -> (String.length r < String.length s)%nat.
Proof.
  intros (c & Hin & ->)%drop_char_Some. rewrite string_app_length.
  rewrite Forall_forall in chars_nonempty.
  specialize (chars_nonempty c Hin). destruct c; [done|]. simpl. lia.
Qed.

Lemma lstrip_chars_done (n : nat) :
  forall s, (String.length s <= n)%nat ->
            drop_char chars (lstrip_chars chars n s) = None.
Proof.
  induction n as [|n IH]; intros s Hn; simpl.
  - destruct (drop_char chars s) as [r|] eqn:E; [|done].
    apply drop_char_shorter in E. lia.
  - destruct (drop_char chars s) as [r|] eqn:E; [|done].
    apply IH. apply drop_char_shorter in E. lia.
Qed.

Lemma lstrip_chars_fixed (n : nat) (s : string) :
  drop_char chars s = None -> lstrip_chars chars n s = s.
Proof. clear chars_nonempty. intros H. destruct n; [done|]. simpl. by rewrite H. Qed.

Lemma lstrip_chars_suffix (n : nat) :
  forall s, exists p, s = p +:+ lstrip_chars chars n s.
Proof.
  clear chars_nonempty. induction n as [|n IH]; intros s; simpl; [by exists ""|].
  destruct (drop_char chars s) as [r|] eqn:E; [|by exists ""].
  apply drop_char_Some in E as (c & _ & ->).
  destruct (IH r) as [p Hp]. exists (c +:+ p).
  rewrite string_app_assoc. by rewrite <- Hp.
Qed.

End Chars.

Lemma whitespace_nonempty : Forall (fun c => c <> "") whitespace.
Proof. apply (bool_decide_unpack _). vm_compute. reflexivity. Qed.

Lemma rev_whitespace_nonempty : Forall (fun c => c <> "") (map String.rev whitespace).
Proof. apply (bool_decide_unpack _). vm_compute. reflexivity. Qed.

(** What [lstrip] returns starts with no white space, and is what is
    left of the text. *)
Lemma lstrip_done (s : string) : drop_char whitespace (lstrip s) = None.
Proof. apply lstrip_chars_done; [apply whitespace_nonempty|done]. Qed.

Lemma lstrip_suffix (s : string) : exists p, s = p +:+ lstrip s.
Proof. apply lstrip_chars_suffix. Qed.

Lemma rstrip_done (s : string) :
  drop_char (map String.rev whitespace) (String.rev (rstrip s)) = None.
Proof.
  unfold rstrip. rewrite string_rev_involutive.
  apply lstrip_chars_done; [apply rev_whitespace_nonempty|].
  by rewrite string_rev_length.
Qed.

Lemma rstrip_prefix (s : string) : exists q, s = rstrip s +:+ q.
Proof.
  unfold rstrip.
  destruct (lstrip_chars_suffix (map String.rev whitespace) (String.length s)
              (String.rev s)) as [p Hp].
  exists (String.rev p).
  by rewrite <- string_rev_app, <- Hp, string_rev_involutive.
Qed.

Lemma lstrip_fixed (s : string) : drop_char whitespace s = None -> lstrip s = s.
Proof. apply lstrip_chars_fixed. Qed.

Lemma rstrip_fixed (s : string) :
  drop_char (map String.rev whitespace) (String.rev s) = None -> rstrip s = s.
Proof.
  intros H. unfold rstrip. rewrite lstrip_chars_fixed by done.
  apply string_rev_involutive.
Qed.

(** A stripped text has white space at neither end. *)
Lemma strip_done (s : string) :
  drop_char whitespace (strip s) = None
  /\ drop_char (map String.rev whitespace) (String.rev (strip s)) = None.
Proof.
  unfold strip. split; [|apply rstrip_done].
  apply drop_char_None. intros c r Hin Heq.
  destruct (rstrip_prefix (lstrip s)) as [q Hq].
  pose proof (lstrip_done s) as Hl.
  rewrite drop_char_None in Hl. apply (Hl c (r +:+ q) Hin).
  by rewrite <- string_app_assoc, <- Heq.
Qed.

Lemma strip_idempotent (s : string) : strip (strip s) = strip s.
Proof.
  destruct (strip_done s) as [Hl Hr].
  unfold strip at 1. rewrite (lstrip_fixed _ Hl). by apply rstrip_fixed.
Qed.

Lemma stripped_ends (s : string) :
  strip s = s ->
  forall c r, c ∈ whitespace -> s <> c +:+ r /\ s <> r +:+ c.
Proof.
  intros Hs c r Hin. destruct (strip_done s) as [Hl Hr]. rewrite Hs in Hl, Hr.
  split.
  - by apply (proj1 (drop_char_None _ _) Hl).
  - intros Heq. rewrite drop_char_None in Hr.
    apply (Hr (String.rev c) (String.rev r)).
    + apply list_elem_of_fmap. eauto.
    + by rewrite <- string_rev_app, <- Heq.
Qed.

Lemma returns_ret {A} (P : A -> Prop) (a : A) : P a -> returns_only P (ret a).
Proof. by intros Ha w r w' [= <- <-] a' [= <-]. Qed.

Lemma returns_bind {A B} (Q : A -> Prop) (P : B -> Prop) (m : M A) (k : A -> M B) :
  returns_only Q m -> (forall a, Q a -> returns_only P (k a)) ->
  returns_only P (bind m k).
Proof.
  intros Hm Hk w r w'. unfold bind.
  destruct (m w) as [[a|x|] w1] eqn:E; intros Hrun b Hb.
  - by apply (Hk a (Hm _ _ _ E a eq_refl) _ _ _ Hrun).
  - injection Hrun as <- <-. done.
  - injection Hrun as <- <-. done.
Qed.

Lemma returns_any {A} (m : M A) : returns_only (fun _ => True) m.
Proof. by intros w r w' _ a _. Qed.

Lemma returns_try_except {A} (P : A -> Prop) (m : M A) handled (h : M A) :
  returns_only P m -> returns_only P h -> returns_only P (try_except m handled h).
Proof.
  intros Hm Hh w r w'. unfold try_except.
  destruct (m w) as [[a|x|] w1] eqn:E.
  - intros [= <- <-]. by apply (Hm _ _ _ E).
  - destruct (handled x); [apply Hh|]. by intros [= <- <-].
  - by intros [= <- <-].
Qed.

Section Cookie.

Variable e : env.

Lemma returns_read_cookie_file : returns_only clean_cookie (read_cookie_file e).
Proof.
  intros w r w'. unfold read_cookie_file.
  destruct (cookie_file w) as [[err|text]|].
  - run_script. by intros [= <- <-] a [= <-] s.
  - destruct (String.eqb_spec (strip text) "") as [|Hne].
    + by intros [= <- <-] a [= <-] s.
    + intros [= <- <-] a [= <-] s [= <-]. split; [done|apply strip_idempotent].
  - by intros [= <- <-] a [= <-] s.
Qed.

Lemma returns_load_cookie : returns_only clean_cookie (load_cookie e).
Proof.
  unfold load_cookie.
  apply (returns_bind clean_cookie); [apply returns_read_cookie_file|].
  intros [content|] Hc; [by apply returns_ret|].
  apply (returns_bind (fun _ => True)); [apply returns_any|intros _ _].
  apply (returns_bind (fun _ => True)); [apply returns_any|intros _ _].
  apply (returns_bind (fun typed => forall s, typed = Some s -> strip s = s)).
  { apply returns_try_except.
    - apply (returns_bind (fun _ => True)); [apply returns_any|intros line _].
      apply returns_ret. intros s [= <-]. apply strip_idempotent.
    - apply (returns_bind (fun _ => True)); [apply returns_any|intros _ _].
      by apply returns_ret. }
  intros [cookie|] Hs; [|by apply returns_ret].
  destruct (String.eqb_spec cookie "") as [|Hne]; [by apply returns_ret|].
  apply (returns_bind (fun _ => True)); [apply returns_any|intros answer _].
  apply (returns_bind (fun _ => True)); [apply returns_any|intros _ _].
  apply returns_ret. intros s [= <-]. split; [done|by apply Hs].
Qed.

(** X15.  A cookie returned by [load_cookie] is never empty and has no
    white space at either end, whether it was read from the file or typed
    in: it neither starts nor ends with one of the characters that
    [str.strip()] removes, and stripping it again changes nothing. *)
Theorem loaded_cookie_is_stripped (w : world) (cookie : string) (w' : world) :
  load_cookie e w = (Ret (Some cookie), w') ->
  cookie <> ""
  /\ (forall c r, c ∈ whitespace -> cookie <> c +:+ r /\ cookie <> r +:+ c)
  /\ strip cookie = cookie.
Proof.
  intros Hrun.
  destruct (returns_load_cookie w _ w' Hrun (Some cookie) eq_refl cookie eq_refl)
    as [Hne Hs].
  split; [done|]. split; [by apply stripped_ends|done].
Qed.

End Cookie.

(** The cookie file holds a no-break space, [abc], an em space and a
    line feed: the cookie is [abc]. *)
Lemma loaded_cookie_is_stripped_example :
  cookie_file padded_cookie_world =
    Some (Holds (bytes [194; 160] +:+ "abc" +:+ bytes [226; 128; 131; 10]))
  /\ load_cookie quiet_env padded_cookie_world = (Ret (Some "abc"), padded_cookie_world)
  /\ "abc" <> ""
  /\ (forall c r, c ∈ whitespace -> "abc" <> c +:+ r /\ "abc" <> r +:+ c)
  /\ strip "abc" = "abc".
Proof.
  assert (load_cookie quiet_env padded_cookie_world =
            (Ret (Some "abc"), padded_cookie_world)) as Hrun
    by (vm_compute; reflexivity).
  split; [reflexivity|]. split; [exact Hrun|].
  exact (loaded_cookie_is_stripped quiet_env padded_cookie_world "abc" _ Hrun).
Defined.

Section CookieRoundTrip.

Variable e : env.

(** X16.  With no usable cookie on file, a line typed at the prompt
    that is not blank is returned stripped.  When the answer to the offer,
    stripped, is [y] or [Y] and the write succeeds, the file holds that
    cookie, and any later [load_cookie] reads the same cookie back without
    a prompt and without changing anything; when the write fails the
    cookie is returned all the same, and the file is as it was if it could
    not be opened, and otherwise holds what reached it; with any other
    answer the file is left as it was. *)
Theorem typed_cookie_round_trip (later : env) (w : world) line answer rest :
  (read_cookie_file e w).1 = Ret None ->
  stdin w = Line line :: Line answer :: rest ->
  strip line <> "" ->
  exists w',
    load_cookie e w = (Ret (Some (strip line)), w')
    /\ stdin w' = rest
    /\ (lower (strip answer) = "y" -> cookie_save_error e = None ->
          cookie_file w' = Some (Holds (strip line))
          /\ load_cookie later w' = (Ret (Some (strip line)), w'))
    /\ (lower (strip answer) = "y" -> cookie_save_error e <> None ->
          cookie_file w' =
          match cookie_save_failure e with
          | NotOpened => cookie_file w
          | Opened remains => Some remains
          end)
    /\ (lower (strip answer) <> "y" -> cookie_file w' = cookie_file w).
Proof.
  intros Hread Hin Hne.
  assert (exists w1, read_cookie_file e w = (Ret None, w1)
                     /\ stdin w1 = stdin w /\ cookie_file w1 = cookie_file w)
    as (w1 & Hr & Hs1 & Hc1).
  { revert Hread. unfold read_cookie_file.
    destruct (cookie_file w) as [[err|text]|] eqn:Ec.
    - run_script. intros _. eexists. split; [done|]. by rewrite <- Ec.
    - destruct (String.eqb (strip text) ""); [|done]. intros _. by exists w.
    - intros _. by exists w. }
  assert (forall w0 : world,
             cookie_file w0 = Some (Holds (strip line)) ->
             load_cookie later w0 = (Ret (Some (strip line)), w0)) as Hback.
  { intros w0 H0. unfold load_cookie, bind, read_cookie_file. rewrite H0.
    rewrite strip_idempotent.
    destruct (String.eqb_spec (strip line) ""); done. }
  unfold load_cookie. unfold bind at 1. rewrite Hr.
  unfold try_except, input, save_cookie_file. run_script.
  rewrite Hs1, Hin. simpl.
  destruct (String.eqb_spec (strip line) ""); [done|]. simpl.
  destruct (String.eqb_spec (lower (strip answer)) "y") as [Hy|Hn].
  - destruct (cookie_save_error e) as [err|] eqn:Hsave; simpl.
    + destruct (cookie_save_failure e) as [|remains]; simpl;
        eexists; (split; [done|]); (split; [done|]); (split; [done|]);
        (split; [|done]); intros _ _; done.
    + eexists. split; [done|]. split; [done|]. split; [|done].
      intros _ _. split; [done|]. by apply Hback.
  - simpl. eexists. split; [done|]. split; [done|]. split; [done|].
    split; [done|]. intros _. simpl. done.
Qed.

End CookieRoundTrip.

(** A cookie typed between a no-break space and an em space, and the
    answer [Y] after a no-break space: the cookie is [abc], it is saved and
    read back.  A line that holds only a no-break space is no cookie. *)
Lemma typed_cookie_round_trip_example :
  (read_cookie_file quiet_env typing_world).1 = Ret None
  /\ stdin typing_world =
     [Line (bytes [32; 194; 160] +:+ "abc" +:+ bytes [226; 128; 131; 32]);
      Line (bytes [194; 160] +:+ "Y ")]
  /\ strip (bytes [32; 194; 160] +:+ "abc" +:+ bytes [226; 128; 131; 32]) = "abc"
  /\ lower (strip (bytes [194; 160] +:+ "Y ")) = "y"
  /\ (exists w',
        load_cookie quiet_env typing_world = (Ret (Some "abc"), w')
        /\ stdin w' = []
        /\ cookie_file w' = Some (Holds "abc")
        /\ load_cookie one_friend_env w' = (Ret (Some "abc"), w'))
  /\ strip (bytes [194; 160]) = ""
  /\ (load_cookie quiet_env blank_typing_world).1 = Ret None
  /\ stdin (load_cookie quiet_env blank_typing_world).2 = [Line "y"].
Proof.
  set (line := bytes [32; 194; 160] +:+ "abc" +:+ bytes [226; 128; 131; 32]).
  assert (strip line = "abc") as Hline by (vm_compute; reflexivity).
  assert (strip line <> "") as Hne by (rewrite Hline; discriminate).
  split; [reflexivity|]. split; [reflexivity|]. split; [exact Hline|].
  split; [vm_compute; reflexivity|]. split.
  - destruct (typed_cookie_round_trip quiet_env one_friend_env typing_world
                line (bytes [194; 160] +:+ "Y ") [] eq_refl eq_refl Hne)
      as (w' & Hrun & Hin & Hsaved & _).
    rewrite Hline in Hrun, Hsaved.
    exists w'. split; [exact Hrun|]. split; [exact Hin|].
    exact (Hsaved ltac:(vm_compute; reflexivity) eq_refl).
  - split; [vm_compute; reflexivity|]. split; vm_compute; reflexivity.
Defined.

(** ** The run as a whole *)

Lemma requests_of_events (ok : event -> bool) (P : request -> bool) (evs : list event) :
  (forall r, ok (Send r) = true -> P r = true) ->
  forallb ok evs = true -> forallb P (requests evs) = true.
Proof.
  intros Hok. induction evs as [|ev evs IH]; [done|].
  simpl. intros [Hev Hevs]%andb_true_iff.
  destruct ev; simpl; try by apply IH.
  by rewrite (Hok _ Hev), IH.
Qed.

Lemma no_requests (ok : event -> bool) (evs : list event) :
  (forall r, ok (Send r) = false) ->
  forallb ok evs = true -> requests evs = [].
Proof.
  intros Hok. induction evs as [|ev evs IH]; [done|].
  simpl. intros [Hev Hevs]%andb_true_iff.
  destruct ev; simpl; try by apply IH.
  by rewrite Hok in Hev.
Qed.

Section WholeRun.

Variable e : env.

Lemma loaded_cookie_nonempty (w : world) (cookie : string) (w' : world) :
  load_cookie e w = (Ret (Some cookie), w') -> cookie <> "".
Proof.
  intros Hrun. by apply (returns_load_cookie e w _ w' Hrun (Some cookie) eq_refl).
Qed.

Lemma main_start fuel (w : world) :
  main e fuel w =
  (let* cookie := load_cookie e in
   match cookie with
   | None => log EXIT "Process terminated." >> raise (SystemExit 1)
   | Some cookie =>
       if String.eqb cookie "" then log EXIT "Process terminated." >> raise (SystemExit 1)
       else
         let* auth := get_auth_user e cookie in
         match auth with
         | None => raise (SystemExit 1)
         | Some (uid, username) =>
             if Z.eqb uid 0 then raise (SystemExit 1)
             else
               let* raw_friends := fetch_friend_ids e fuel uid cookie in
               match raw_friends with
               | None => log STOP "API Error. Halting." >> raise (SystemExit 1)
               | Some raw_friends =>
                   let* data := fetch_user_details e raw_friends cookie username in
                   analyze_changes e data username >>
                   save_database e data username
               end
         end
   end) (emitted [banner] w).
Proof. reflexivity. Qed.

Lemma load_cookie_frame (w : world) r (w1 : world) :
  load_cookie e (emitted [banner] w) = (r, w1) ->
  requests (console w1) = requests (console w)
  /\ snapshots w1 = snapshots w /\ exports w1 = exports w /\ logs w1 = logs w
  /\ gets w1 = gets w /\ posts w1 = posts w.
Proof.
  intros Hrun.
  pose proof (preserves_load_cookie e _ _ _ Hrun) as Hp.
  destruct (emits_load_cookie e _ _ _ Hrun) as (evs & Hc & Hev).
  unfold disk in Hp. simpl in Hp. injection Hp as -> -> -> -> ->.
  rewrite Hc. simpl. rewrite !requests_app. simpl.
  rewrite (no_requests cookie_event evs) by done. by rewrite !app_nil_r.
Qed.

(** X17.  When [load_cookie] gives no cookie, the script logs "Process
    terminated." and exits with code 1 without having sent a request or
    touched a snapshot, an export or an activity log. *)
Theorem no_cookie_no_network fuel (w : world) :
  (load_cookie e (emitted [banner] w)).1 = Ret None ->
  let run := main e fuel w in
  run.1 = Raise (SystemExit 1)
  /\ exit_code run.1 = Some 1
  /\ last (console run.2) = Some (Log EXIT "Process terminated.")
  /\ requests (console run.2) = requests (console w)
  /\ snapshots run.2 = snapshots w /\ exports run.2 = exports w /\ logs run.2 = logs w
  /\ gets run.2 = gets w /\ posts run.2 = posts w.
Proof.
  intros Hnone. cbv zeta.
  destruct (load_cookie e (emitted [banner] w)) as [r w1] eqn:Hrun.
  simpl in Hnone. subst r.
  destruct (load_cookie_frame _ _ _ Hrun) as (Hq & Hsn & Hex & Hlg & Hg & Hps).
  assert (main e fuel w =
          (Raise (SystemExit 1), emitted [Log EXIT "Process terminated."] w1)) as ->.
  { rewrite main_start. unfold bind at 1. by rewrite Hrun. }
  simpl. rewrite last_snoc, requests_app. simpl. rewrite app_nil_r.
  by repeat split.
Qed.

(** What the identity check returns and sends. *)
Lemma get_auth_user_spec cookie (w : world) :
  exists evs,
    requests evs = [GetAuth]
    /\ get_auth_user e cookie w =
       (Ret match auth_reply e with
            | AuthConnError _ => None
            | AuthReply code uid name =>
                if Z.eqb code 200 then Some (uid, name) else None
            end, emitted evs w).
Proof.
  unfold get_auth_user. run_script.
  destruct (auth_reply e) as [err|code uid name]; simpl.
  - exists [Send GetAuth; Caught AuthConnectionError;
            Log ERROR ("Connection error: " +:+ err)].
    split; [done|]. unfold emitted. destruct w; simpl.
    by rewrite <- !app_assoc.
  - destruct (Z.eqb code 200); simpl.
    + exists [Send GetAuth;
              Log INFO ("User: " +:+ name +:+ " (ID: " +:+ pretty uid +:+ ")")].
      split; [done|]. unfold emitted. destruct w; simpl.
      by rewrite <- !app_assoc.
    + exists [Send GetAuth; Caught AuthStatusError;
              Log ERROR ("Auth failed. Code: " +:+ pretty code)].
      split; [done|]. unfold emitted. destruct w; simpl.
      by rewrite <- !app_assoc.
Qed.

(** X18.  When a cookie was obtained and the identity check fails (no
    connection, a status other than 200, or a user id of 0), the script
    exits with code 1: the identity request is the only request it has
    sent, and no snapshot, export or activity log has been touched. *)
Theorem failed_auth_stops_the_run fuel (w : world) (cookie : string) :
  (load_cookie e (emitted [banner] w)).1 = Ret (Some cookie) ->
  account e = None ->
  let run := main e fuel w in
  run.1 = Raise (SystemExit 1)
  /\ exit_code run.1 = Some 1
  /\ requests (console run.2) = requests (console w) ++ [GetAuth]
  /\ snapshots run.2 = snapshots w /\ exports run.2 = exports w /\ logs run.2 = logs w
  /\ gets run.2 = gets w /\ posts run.2 = posts w.
Proof.
  intros Hsome Hfail. cbv zeta.
  destruct (load_cookie e (emitted [banner] w)) as [r w1] eqn:Hrun.
  simpl in Hsome. subst r.
  destruct (load_cookie_frame _ _ _ Hrun) as (Hq & Hsn & Hex & Hlg & Hg & Hps).
  pose proof (loaded_cookie_nonempty _ _ _ Hrun) as Hne.
  apply String.eqb_neq in Hne.
  destruct (get_auth_user_spec cookie w1) as (evs & Hevs & Hauth).
  assert (main e fuel w = (Raise (SystemExit 1), emitted evs w1)) as ->.
  { rewrite main_start. unfold bind at 1. rewrite Hrun, Hne.
    unfold bind at 1. rewrite Hauth. unfold account in Hfail.
    destruct (auth_reply e) as [err|code uid name]; [done|].
    destruct (Z.eqb code 200); [|done]. simpl in Hfail.
    by destruct (Z.eqb uid 0). }
  simpl. by rewrite requests_app, Hq, Hevs.
Qed.

Lemma stage_requests {A} (ok : event -> bool) (P : request -> bool) (m : M A)
    (w : world) r (w' : world) :
  emits_only ok m -> (forall q, ok (Send q) = true -> P q = true) ->
  m w = (r, w') ->
  exists sent, requests (console w') = requests (console w) ++ sent
               /\ forallb P sent = true.
Proof.
  intros Hm HP Hrun. destruct (Hm _ _ _ Hrun) as (evs & -> & Hevs).
  exists (requests evs). split; [apply requests_app|].
  by apply (requests_of_events ok).
Qed.

Lemma stage_silent {A} (ok : event -> bool) (m : M A) (w : world) r (w' : world) :
  emits_only ok m -> (forall q, ok (Send q) = false) ->
  m w = (r, w') -> requests (console w') = requests (console w).
Proof.
  intros Hm HP Hrun. destruct (Hm _ _ _ Hrun) as (evs & -> & Hevs).
  rewrite requests_app, (no_requests ok evs) by done. apply app_nil_r.
Qed.

(** X19.  The requests of a run come in a fixed order: nothing, or the
    identity request, then friend-list requests for the user id the
    identity check returned, then detail requests; without an account
    the identity request is the only one. *)
Theorem requests_in_order fuel (w : world) :
  exists sent fr dr,
    requests (console (main e fuel w).2) = requests (console w) ++ sent
    /\ (sent = [] \/ sent = GetAuth :: fr ++ dr)
    /\ forallb is_detail_request dr = true
    /\ match account e with
       | Some (uid, _) => forallb (is_friend_request uid) fr = true
       | None => fr = [] /\ dr = []
       end.
Proof.
  assert (forall w', requests (console w') = requests (console w) ->
            exists sent fr dr,
              requests (console w') = requests (console w) ++ sent
              /\ (sent = [] \/ sent = GetAuth :: fr ++ dr)
              /\ forallb is_detail_request dr = true
              /\ match account e with
                 | Some (uid, _) => forallb (is_friend_request uid) fr = true
                 | None => fr = [] /\ dr = []
                 end) as Hnothing.
  { intros w' ->. exists [], [], []. rewrite app_nil_r.
    repeat split; [by left|]. by destruct (account e) as [[??]|]. }
  assert (forall w' fr dr,
            requests (console w') = (requests (console w) ++ [GetAuth]) ++ fr ++ dr ->
            forallb is_detail_request dr = true ->
            match account e with
            | Some (uid, _) => forallb (is_friend_request uid) fr = true
            | None => fr = [] /\ dr = []
            end ->
            exists sent fr dr,
              requests (console w') = requests (console w) ++ sent
              /\ (sent = [] \/ sent = GetAuth :: fr ++ dr)
              /\ forallb is_detail_request dr = true
              /\ match account e with
                 | Some (uid, _) => forallb (is_friend_request uid) fr = true
                 | None => fr = [] /\ dr = []
                 end) as Hsome.
  { intros w' fr dr Hq Hdr Hfr. exists (GetAuth :: fr ++ dr), fr, dr.
    rewrite Hq, <- app_assoc. repeat split; [by right|done|done]. }
  destruct (main e fuel w) as [r w'] eqn:Hmain. simpl.
  revert Hmain. rewrite main_start. unfold bind at 1.
  destruct (load_cookie e (emitted [banner] w)) as [rc w1] eqn:Hrun.
  destruct (load_cookie_frame _ _ _ Hrun) as (Hq & _).
  assert (requests (console (emitted [Log EXIT "Process terminated."] w1)) =
          requests (console w)) as Hq'.
  { simpl. by rewrite requests_app, Hq, app_nil_r. }
  destruct rc as [[cookie|]|x|].
  2:{ intros [= <- <-]. by apply Hnothing. }
  2:{ intros [= <- <-]. by apply Hnothing. }
  2:{ intros [= <- <-]. by apply Hnothing. }
  destruct (String.eqb cookie "").
  { intros [= <- <-]. by apply Hnothing. }
  unfold bind at 1.
  destruct (get_auth_user_spec cookie w1) as (evs & Hevs & ->).
  assert (requests (console (emitted evs w1)) = requests (console w) ++ [GetAuth]) as Hq2.
  { simpl. by rewrite requests_app, Hq, Hevs. }
  assert (forall uid name,
            match auth_reply e with
            | AuthConnError _ => None
            | AuthReply code uid name => if Z.eqb code 200 then Some (uid, name) else None
            end = Some (uid, name) ->
            Z.eqb uid 0 = false -> account e = Some (uid, name)) as Hacc.
  { intros uid name. unfold account.
    destruct (auth_reply e) as [err|code uid' name']; [done|].
    destruct (Z.eqb code 200); [|done]. intros [= -> ->] ->. done. }
  destruct (match auth_reply e with AuthConnError _ => _ | _ => _ end)
    as [[uid name]|] eqn:Hauth.
  2:{ intros [= <- <-]. apply (Hsome _ [] []); [by rewrite app_nil_r|done|].
      by destruct (account e) as [[??]|]. }
  destruct (Z.eqb uid 0) eqn:Huid.
  { intros [= <- <-]. apply (Hsome _ [] []); [by rewrite app_nil_r|done|].
    by destruct (account e) as [[??]|]. }
  specialize (Hacc uid name eq_refl Huid).
  clear Hnothing Hauth.
  unfold bind at 1.
  destruct (fetch_friend_ids e fuel uid cookie (emitted evs w1)) as [rf w3] eqn:Ef.
  destruct (stage_requests (friend_list_event uid) (is_friend_request uid) _ _ _ _
              (emits_fetch_friend_ids e fuel uid cookie) ltac:(by intros [| |]) Ef)
    as (fr & Hq3 & Hfr).
  rewrite Hq2 in Hq3.
  destruct rf as [[raw|]|x|].
  2:{ intros [= <- <-]. apply (Hsome _ fr []); [|done|by rewrite Hacc].
      simpl. rewrite requests_app, Hq3. simpl. by rewrite !app_nil_r. }
  2:{ intros [= <- <-]. apply (Hsome _ fr []); [|done|by rewrite Hacc]. by rewrite app_nil_r. }
  2:{ intros [= <- <-]. apply (Hsome _ fr []); [|done|by rewrite Hacc]. by rewrite app_nil_r. }
  unfold bind at 1.
  destruct (fetch_user_details e raw cookie name w3) as [rd w4] eqn:Ed.
  destruct (stage_requests detail_event is_detail_request _ _ _ _
              (emits_fetch_user_details e raw cookie name)
              ltac:(by intros [| |]) Ed)
    as (dr & Hq4 & Hdr).
  rewrite Hq3 in Hq4.
  destruct rd as [data|x|].
  2:{ intros [= <- <-]. apply (Hsome _ fr dr); [by rewrite Hq4, <- app_assoc|done|by rewrite Hacc]. }
  2:{ intros [= <- <-]. apply (Hsome _ fr dr); [by rewrite Hq4, <- app_assoc|done|by rewrite Hacc]. }
  unfold bind at 1.
  destruct (analyze_changes e data name w4) as [ra w5] eqn:Ea.
  pose proof (stage_silent report_event _ _ _ _
                (emits_analyze_changes e data name) ltac:(done) Ea) as Hq5.
  rewrite Hq4 in Hq5.
  destruct ra as [[]|x|].
  2:{ intros [= <- <-]. apply (Hsome _ fr dr); [by rewrite Hq5, <- app_assoc|done|by rewrite Hacc]. }
  2:{ intros [= <- <-]. apply (Hsome _ fr dr); [by rewrite Hq5, <- app_assoc|done|by rewrite Hacc]. }
  intros Es.
  pose proof (stage_silent store_event _ _ _ _
                (emits_save_database e data name) ltac:(done) Es) as Hq6.
  apply (Hsome _ fr dr); [by rewrite Hq6, Hq5, <- app_assoc|done|by rewrite Hacc].
Qed.

(** X20.  A run touches the files of one account only, the one the
    identity check names: its activity log only grows, and the snapshots,
    exports and logs of every other account are as they were; without an
    account no snapshot, export or log changes. *)
Theorem run_touches_one_account fuel (w : world) :
  match account e with
  | Some (_, name) =>
      log_grows name w (main e fuel w).2 /\ only_account name w (main e fuel w).2
  | None => disk (main e fuel w).2 = disk w
  end.
Proof.
  set (R := fun w' : world =>
              match account e with
              | Some (_, name) => log_grows name w w' /\ only_account name w w'
              | None => disk w' = disk w
              end).
  change (R (main e fuel w).2).
  assert (forall w', disk w' = disk w -> R w') as Hsame.
  { intros w'. unfold R, disk. intros [= Hsn Hex Hlg].
    destruct (account e) as [[uid name]|]; [|by rewrite Hsn, Hex, Hlg].
    split; [split|].
    - exists []. unfold log_of. by rewrite Hlg, app_nil_r.
    - intros other _. by rewrite Hlg.
    - intros other _. by rewrite Hsn, Hex. }
  destruct (main e fuel w) as [r w'] eqn:Hmain. simpl.
  revert Hmain. rewrite main_start. unfold bind at 1.
  destruct (load_cookie e (emitted [banner] w)) as [rc w1] eqn:Hrun.
  assert (disk w1 = disk w) as Hd1.
  { pose proof (preserves_load_cookie e _ _ _ Hrun) as Hp.
    unfold disk in *. simpl in Hp. congruence. }
  destruct rc as [[cookie|]|x|].
  2:{ intros [= <- <-]. by apply Hsame. }
  2:{ intros [= <- <-]. by apply Hsame. }
  2:{ intros [= <- <-]. by apply Hsame. }
  destruct (String.eqb cookie "").
  { intros [= <- <-]. by apply Hsame. }
  unfold bind at 1.
  destruct (get_auth_user_spec cookie w1) as (evs & Hevs & ->).
  assert (forall uid name,
            match auth_reply e with
            | AuthConnError _ => None
            | AuthReply code uid name => if Z.eqb code 200 then Some (uid, name) else None
            end = Some (uid, name) ->
            Z.eqb uid 0 = false -> account e = Some (uid, name)) as Hacc.
  { intros uid name. unfold account.
    destruct (auth_reply e) as [err|code uid' name']; [done|].
    destruct (Z.eqb code 200); [|done]. intros [= -> ->] ->. done. }
  destruct (match auth_reply e with AuthConnError _ => _ | _ => _ end)
    as [[uid name]|] eqn:Hauth.
  2:{ intros [= <- <-]. by apply Hsame. }
  destruct (Z.eqb uid 0) eqn:Huid.
  { intros [= <- <-]. by apply Hsame. }
  specialize (Hacc uid name eq_refl Huid). clear Hauth.
  unfold bind at 1.
  destruct (fetch_friend_ids e fuel uid cookie (emitted evs w1)) as [rf w3] eqn:Ef.
  assert (disk w3 = disk w) as Hd3.
  { pose proof (preserves_fetch_friend_ids e _ _ _ _ _ _ Ef) as Hp.
    unfold disk in *. simpl in Hp. congruence. }
  destruct rf as [[raw|]|x|].
  2:{ intros [= <- <-]. by apply Hsame. }
  2:{ intros [= <- <-]. by apply Hsame. }
  2:{ intros [= <- <-]. by apply Hsame. }
  unfold bind at 1.
  destruct (fetch_user_details e raw cookie name w3) as [rd w4] eqn:Ed.
  assert (disk w4 = disk w) as Hd4.
  { pose proof (preserves_fetch_user_details e _ _ _ _ _ _ Ed) as Hp.
    unfold disk in *. simpl in Hp. congruence. }
  destruct rd as [data|x|].
  2:{ intros [= <- <-]. by apply Hsame. }
  2:{ intros [= <- <-]. by apply Hsame. }
  unfold bind at 1.
  destruct (analyze_changes e data name w4) as [ra w5] eqn:Ea.
  pose proof (keeps_analyze_changes e _ _ _ _ _ Ea) as [[lines Hlines] Hothers].
  pose proof (preserves_analyze_changes e _ _ _ _ _ Ea) as Hp5.
  injection Hp5 as _ Hsn5 Hex5 _ _ _.
  unfold disk in Hd4. injection Hd4 as Hsn4 Hex4 Hlg4.
  assert (forall w6, logs w6 = logs w5 -> only_account name w5 w6 -> R w6) as Hend.
  { intros w6 Hlg6 Honly. unfold R. rewrite Hacc. split; [split|].
    - exists lines. unfold log_of in *. by rewrite Hlg6, Hlines, Hlg4.
    - intros other Hne. by rewrite Hlg6, Hothers, Hlg4.
    - intros other Hne. destruct (Honly other Hne) as [-> ->].
      by rewrite Hsn5, Hex5, Hsn4, Hex4. }
  destruct ra as [[]|x|].
  2:{ intros [= <- <-]. by apply Hend. }
  2:{ intros [= <- <-]. by apply Hend. }
  intros Es. apply Hend.
  - pose proof (preserves_save_database e _ _ _ _ _ Es) as Hp6.
    by injection Hp6 as _ -> _ _ _.
  - by apply (keeps_save_database e _ _ _ _ _ Es).
Qed.

End WholeRun.

Lemma no_cookie_no_network_example :
  (load_cookie quiet_env (emitted [banner] interrupted_world)).1 = Ret None
  /\ (main quiet_env 1 interrupted_world).1 = Raise (SystemExit 1)
  /\ requests (console (main quiet_env 1 interrupted_world).2) = [].
Proof.
  assert ((load_cookie quiet_env (emitted [banner] interrupted_world)).1 = Ret None)
    as Hnone by (vm_compute; reflexivity).
  split; [exact Hnone|].
  destruct (no_cookie_no_network quiet_env 1 interrupted_world Hnone)
    as (Hr & _ & _ & Hq & _).
  split; [exact Hr|exact Hq].
Defined.

Lemma failed_auth_stops_the_run_example :
  (load_cookie refused_env (emitted [banner] (world_with [mk 1 "a"]))).1
    = Ret (Some "token")
  /\ account refused_env = None
  /\ (main refused_env 1 (world_with [mk 1 "a"])).1 = Raise (SystemExit 1)
  /\ requests (console (main refused_env 1 (world_with [mk 1 "a"])).2) = [GetAuth]
  /\ snapshots (main refused_env 1 (world_with [mk 1 "a"])).2
     = snapshots (world_with [mk 1 "a"]).
Proof.
  assert ((load_cookie refused_env (emitted [banner] (world_with [mk 1 "a"]))).1
          = Ret (Some "token")) as Hsome by (vm_compute; reflexivity).
  split; [exact Hsome|]. split; [reflexivity|].
  destruct (failed_auth_stops_the_run refused_env 1 (world_with [mk 1 "a"]) "token"
              Hsome eq_refl)
    as (Hr & _ & Hq & Hsn & _).
  split; [exact Hr|]. split; [exact Hq|exact Hsn].
Defined.
